(** * MPLADS ingestion pipeline: a shallow embedding and its properties

    The development follows the JavaScript sources of the repository:
    - the API client (session bootstrap, report requests),
    - the data transformer (number normalisation, row filters,
      completed/recommended de-duplication),
    - the image extractor (attachment lookup, download with retry,
      object-store upload and existence probe),
    - the metadata manager (next-update computation).

    JavaScript strings are sequences of UTF-16 code units.  JavaScript
    numbers are binary64 values; a finite one is held as the decimal that
    Number-to-String prints for it, so reading a numeral and multiplying
    round to the nearest binary64 value as in ECMAScript. *)

From Stdlib Require Import ZArith NArith QArith Qminmax Qpower Ascii Lia Lqa.
From stdpp Require Import base decidable option list countable strings gmap.

Local Open Scope N_scope.

(** ** JavaScript strings *)

Module Js.

(** A string is a list of UTF-16 code units. *)
Abbreviation jstring := (list N).

(** Code units of a UTF-8 encoded literal (used to write string constants). *)
Fixpoint utf16_of_utf8 (bs : list N) : jstring :=
  match bs with
  | [] => []
  | b :: rest =>
      if b <? 0x80 then b :: utf16_of_utf8 rest
      else if b <? 0xE0 then
        match rest with
        | b1 :: r => ((b - 0xC0) * 64 + (b1 - 0x80)) :: utf16_of_utf8 r
        | _ => []
        end
      else if b <? 0xF0 then
        match rest with
        | b1 :: b2 :: r =>
            ((b - 0xE0) * 4096 + (b1 - 0x80) * 64 + (b2 - 0x80)) :: utf16_of_utf8 r
        | _ => []
        end
      else
        match rest with
        | b1 :: b2 :: b3 :: r =>
            let cp := (b - 0xF0) * 262144 + (b1 - 0x80) * 4096
                      + (b2 - 0x80) * 64 + (b3 - 0x80) in
            let v := cp - 0x10000 in
            (0xD800 + v / 1024) :: (0xDC00 + v mod 1024) :: utf16_of_utf8 r
        | _ => []
        end
  end.

Fixpoint bytes_of_string (s : string) : list N :=
  match s with
  | EmptyString => []
  | String a r => N_of_ascii a :: bytes_of_string r
  end.

Definition js (s : string) : jstring := utf16_of_utf8 (bytes_of_string s).

(** ECMAScript WhiteSpace and LineTerminator code units: the class [\s] of
    regular expressions and the characters removed by [String.prototype.trim]. *)
Definition is_space (c : N) : bool :=
  (c =? 0x09) || (c =? 0x0A) || (c =? 0x0B) || (c =? 0x0C) || (c =? 0x0D)
  || (c =? 0x20) || (c =? 0xA0) || (c =? 0x1680)
  || ((0x2000 <=? c) && (c <=? 0x200A))
  || (c =? 0x2028) || (c =? 0x2029) || (c =? 0x202F) || (c =? 0x205F)
  || (c =? 0x3000) || (c =? 0xFEFF).

Fixpoint trim_start (s : jstring) : jstring :=
  match s with
  | c :: r => if is_space c then trim_start r else s
  | [] => []
  end.

Definition trim_end (s : jstring) : jstring := rev (trim_start (rev s)).

(** [s.trim()] *)
Definition trim (s : jstring) : jstring := trim_end (trim_start s).

Definition is_digit (c : N) : bool := (0x30 <=? c) && (c <=? 0x39).

(** Lower-casing of one code unit.  Besides the ASCII capitals, U+0130 and
    U+212A (Kelvin sign) are the only code points whose lower-case form
    contains an ASCII letter; no other mapping can be observed by a test
    against an ASCII pattern. *)
Definition lower_unit (c : N) : jstring :=
  if (0x41 <=? c) && (c <=? 0x5A) then [c + 32]
  else if c =? 0x130 then [0x69; 0x307]
  else if c =? 0x212A then [0x6B]
  else [c].

(** [s.toLowerCase()] *)
Definition toLowerCase (s : jstring) : jstring := flat_map lower_unit s.

Fixpoint starts_with (p s : jstring) : bool :=
  match p, s with
  | [], _ => true
  | a :: p', b :: s' => (a =? b) && starts_with p' s'
  | _ :: _, [] => false
  end.

(** [s.includes(p)] *)
Fixpoint includes (s p : jstring) : bool :=
  starts_with p s ||
  match s with
  | [] => false
  | _ :: r => includes r p
  end.

End Js.

(** ** JavaScript numbers *)

Module Num.
Import Js.

(** A finite magnitude [0.d1 d2 ... dk * 10^pos], digits most significant
    first.  Canonical magnitudes have neither a leading nor a trailing zero
    digit; zero has no digit and position 0.  For a non-zero canonical
    magnitude, [digs] and [pos] are the digit string and the exponent [n] of
    ECMAScript's Number::toString. *)
Record dec := Dec { digs : list N; pos : Z }.

Definition dzero : dec := Dec [] 0.

Inductive number :=
  | NaN
  | Inf (neg : bool)
  | Fin (neg : bool) (d : dec).

Definition is_zero (d : dec) : bool :=
  match digs d with [] => true | _ => false end.

Fixpoint drop_zeros (ds : list N) : list N :=
  match ds with
  | d :: r => if d =? 0 then drop_zeros r else ds
  | [] => []
  end.

Definition drop_zeros_end (ds : list N) : list N := rev (drop_zeros (rev ds)).

(** The magnitude written [ip.fp] in decimal notation. *)
Definition dec_of_digits (ip fp : list N) : dec :=
  let ds := ip ++ fp in
  let sig := drop_zeros ds in
  match drop_zeros_end sig with
  | [] => dzero
  | m => Dec m (Z.of_nat (length ip) - Z.of_nat (length ds - length sig))
  end.

Fixpoint uint_digits (u : Decimal.uint) : list N :=
  match u with
  | Decimal.Nil => []
  | Decimal.D0 r => 0 :: uint_digits r
  | Decimal.D1 r => 1 :: uint_digits r
  | Decimal.D2 r => 2 :: uint_digits r
  | Decimal.D3 r => 3 :: uint_digits r
  | Decimal.D4 r => 4 :: uint_digits r
  | Decimal.D5 r => 5 :: uint_digits r
  | Decimal.D6 r => 6 :: uint_digits r
  | Decimal.D7 r => 7 :: uint_digits r
  | Decimal.D8 r => 8 :: uint_digits r
  | Decimal.D9 r => 9 :: uint_digits r
  end.

Definition N_digits (n : N) : list N := uint_digits (N.to_uint n).

Definition dec_of_N (n : N) : dec := dec_of_digits (N_digits n) [].

Fixpoint digits_value (acc : N) (ds : list N) : N :=
  match ds with
  | [] => acc
  | d :: r => digits_value (10 * acc + d) r
  end.

(** The rational number a magnitude stands for. *)
Definition dec_value (d : dec) : Q :=
  (inject_Z (Z.of_N (digits_value 0 (digs d)))
   * 10 ^ (pos d - Z.of_nat (length (digs d))))%Q.

(** Non-zero magnitudes from [2^1024 - 2^970] on round to Infinity. *)
Definition overflows (d : dec) : bool :=
  negb (is_zero d) && Qle_bool (inject_Z (2 ^ 1024 - 2 ^ 970)) (dec_value d).

(** Non-zero magnitudes up to [2^-1075] round to zero. *)
Definition underflows (d : dec) : bool :=
  negb (is_zero d) && Qle_bool (dec_value d) (2 ^ (-1075))%Q.

(** [d * 10^k] *)
Definition dec_scale (d : dec) (k : Z) : dec :=
  if is_zero d then d else Dec (digs d) (pos d + k).

(** *** Rounding to binary64

    A finite Number is a binary64 value.  It is held here as the decimal
    magnitude that Number::toString prints for it: the shortest digit string
    that reads back as the same binary64 value (the closest one to the value
    among the shortest, an even last digit on a tie). *)

(** A binary64 magnitude [mant * 2^expo]: [2^52 <= mant < 2^53] and
    [-1074 <= expo <= 971] for a normal value, [mant < 2^52] and
    [expo = -1074] for a subnormal one. *)
Record b64 := B64 { mant : Z; expo : Z }.

Definition b64_eqb (v w : b64) : bool :=
  ((mant v =? mant w) && (expo v =? expo w))%Z.

(** A decimal magnitude as a fraction of two positive integers. *)
Definition dec_fraction (d : dec) : Z * Z :=
  let m := Z.of_N (digits_value 0 (digs d)) in
  let e := (pos d - Z.of_nat (length (digs d)))%Z in
  if (0 <=? e)%Z then (m * 10 ^ e, 1)%Z else (m, 10 ^ (- e))%Z.

(** [a / b] rounded to the nearest integer, a tie to the even one. *)
Definition div_nearest_even (a b : Z) : Z :=
  let q := (a / b)%Z in
  let r := (a mod b)%Z in
  if (2 * r <? b)%Z then q
  else if (b <? 2 * r)%Z then (q + 1)%Z
  else if Z.even q then q else (q + 1)%Z.

(** [(a / b) / 2^e] as a fraction. *)
Definition shift_fraction (a b e : Z) : Z * Z :=
  if (0 <=? e)%Z then (a, b * 2 ^ e)%Z else (a * 2 ^ (- e), b)%Z.

(** The exponent [e] with [2^52 <= (a / b) / 2^e < 2^53], and [-1074] where
    that would be lower (the subnormal values). *)
Definition binade (a b : Z) : Z :=
  let e := (Z.log2 a - Z.log2 b - 53)%Z in
  let '(n, d) := shift_fraction a b (e + 53) in
  Z.max (if (d <=? n)%Z then e + 1 else e) (-1074).

(** The binary64 value nearest to a non-zero magnitude below the overflow
    threshold, a tie going to the even significand. *)
Definition nearest64 (d : dec) : b64 :=
  let '(a, b) := dec_fraction d in
  let e := binade a b in
  let '(n, m) := shift_fraction a b e in
  let q := div_nearest_even n m in
  if (q =? 2 ^ 53)%Z then B64 (2 ^ 52) (e + 1) else B64 q e.

(** The exact decimal expansion of a binary64 value. *)
Definition b64_dec (v : b64) : dec :=
  if (0 <=? expo v)%Z then dec_of_N (Z.to_N (mant v * 2 ^ expo v))
  else dec_scale (dec_of_N (Z.to_N (mant v * 5 ^ (- expo v)))) (expo v).

(** The decimal [c] is a non-zero magnitude within the range of Numbers that
    reads as the binary64 value [v]. *)
Definition round_trips (v : b64) (c : dec) : bool :=
  negb (is_zero c) && negb (overflows c) && negb (underflows c)
  && b64_eqb (nearest64 c) v.

(** The number written with the first [k] of the digits [ds], zeros filling
    up where [ds] is shorter. *)
Definition first_digits (k : nat) (ds : list N) : N :=
  digits_value 0 (take k ds ++ repeat 0 (k - length ds)).

(** [s * 10^(n - k)]: the decimal with the [k]-digit significand [s] and
    the decimal point [n] places from its left end. *)
Definition candidate (s : N) (k : nat) (n : Z) : dec :=
  dec_scale (dec_of_N s) (n - Z.of_nat k).

(** How the digits after the first [k] compare with one half (the digits
    end in a non-zero one). *)
Definition beyond_half (rest : list N) : comparison :=
  match rest with
  | [] => Lt
  | r :: more =>
      if r <? 5 then Lt
      else if 5 <? r then Gt
      else match more with [] => Eq | _ => Gt end
  end.

(** The [k]-digit decimal for [v], if there is one: of the two [k]-digit
    decimals around [v] the one that reads as [v]; if both do, the closer
    one, and the even one if they are equally close. *)
Definition pick (v : b64) (ds : list N) (n : Z) (k : nat) : option dec :=
  let s := first_digits k ds in
  let lo := candidate s k n in
  let hi := candidate (s + 1) k n in
  match round_trips v lo, round_trips v hi with
  | true, true =>
      match beyond_half (drop k ds) with
      | Lt => Some lo
      | Gt => Some hi
      | Eq => Some (if N.even s then lo else hi)
      end
  | true, false => Some lo
  | false, true => Some hi
  | false, false => None
  end.

Fixpoint shortest_from (v : b64) (ds : list N) (n : Z) (k fuel : nat)
    : option dec :=
  match fuel with
  | O => None
  | S fuel' =>
      match pick v ds n k with
      | Some c => Some c
      | None => shortest_from v ds n (S k) fuel'
      end
  end.

(** The digits of Number::toString for [v]: the decimal with the fewest
    digits that reads as [v]; 17 digits always suffice. *)
Definition shortest (v : b64) : option dec :=
  let e := b64_dec v in
  shortest_from v (digs e) (pos e) 1 17.

(** The Number nearest to a magnitude within range, as its printed decimal. *)
Definition binary64 (d : dec) : dec :=
  if is_zero d then d else default d (shortest (nearest64 d)).

(** The exact decimal expansion of the Number nearest to a magnitude. *)
Definition exact64 (d : dec) : dec :=
  if is_zero d then d else b64_dec (nearest64 d).

(** The Number nearest to a signed exact magnitude. *)
Definition round_fin (neg : bool) (d : dec) : number :=
  if overflows d then Inf neg
  else if underflows d then Fin neg dzero
  else Fin neg (binary64 d).

(** [x * 10^k] for the positive constant [10^k]: the Number nearest to the
    exact product. *)
Definition mul_pow10 (x : number) (k : Z) : number :=
  match x with
  | NaN => NaN
  | Inf s => Inf s
  | Fin s d => round_fin s (dec_scale (exact64 d) k)
  end.

Definition num_of_Z (z : Z) : number := Fin (z <? 0)%Z (dec_of_N (Z.abs_N z)).

(** [Number.isFinite(x)] *)
Definition isFinite (x : number) : bool :=
  match x with Fin _ _ => true | _ => false end.

(** [x <= 0] *)
Definition leb_zero (x : number) : bool :=
  match x with
  | NaN => false
  | Inf s => s
  | Fin s d => s || is_zero d
  end.

(** ToBoolean on numbers: NaN and the zeros are falsy. *)
Definition truthy (x : number) : bool :=
  match x with
  | NaN => false
  | Inf _ => true
  | Fin _ d => negb (is_zero d)
  end.

Definition digit_char (d : N) : N := 0x30 + d.
Definition digit_val (c : N) : N := c - 0x30.

(** Number::toString on a finite magnitude (radix 10). *)
Definition dec_to_string (d : dec) : jstring :=
  match digs d with
  | [] => [0x30]
  | ds =>
      let k := Z.of_nat (length ds) in
      let n := pos d in
      let cs := map digit_char ds in
      if ((k <=? n) && (n <=? 21))%Z then cs ++ repeat 0x30 (Z.to_nat (n - k))
      else if ((0 <? n) && (n <=? 21))%Z then
        take (Z.to_nat n) cs ++ 0x2E :: drop (Z.to_nat n) cs
      else if ((-6 <? n) && (n <=? 0))%Z then
        0x30 :: 0x2E :: repeat 0x30 (Z.to_nat (- n)) ++ cs
      else
        let e := (n - 1)%Z in
        let es := (if (0 <=? e)%Z then 0x2B else 0x2D)
                  :: map digit_char (N_digits (Z.abs_N e)) in
        match cs with
        | [c] => c :: 0x65 :: es
        | c :: r => c :: 0x2E :: r ++ 0x65 :: es
        | [] => []
        end
  end.

(** Number::toString *)
Definition number_to_string (x : number) : jstring :=
  match x with
  | NaN => js "NaN"
  | Inf s => (if s then [0x2D] else []) ++ js "Infinity"
  | Fin s d => (if s && negb (is_zero d) then [0x2D] else []) ++ dec_to_string d
  end.

(** Magnitudes that Number::toString prints in plain decimal notation:
    zero, and the values from [10^-6] up to, but not including, [10^21]. *)
Definition plain (d : dec) : Prop :=
  is_zero d = true ∨ (-6 < pos d ≤ 21)%Z.

(** Magnitudes within the range of finite, non-zero Numbers (and zero). *)
Definition in_range (d : dec) : Prop := round_fin false d = Fin false d.

(** Canonical magnitudes. *)
Definition canonical (d : dec) : Prop :=
  match digs d with
  | [] => pos d = 0%Z
  | ds => Forall (λ x, x < 10) ds ∧ head ds ≠ Some 0 ∧ last ds ≠ Some 0
  end.

#[global] Instance dec_eq_dec : EqDecision dec.
Proof. solve_decision. Defined.

#[global] Instance number_eq_dec : EqDecision number.
Proof. solve_decision. Defined.

#[global] Instance dec_countable : Countable dec.
Proof.
  refine (inj_countable' (λ d, (digs d, pos d)) (λ p, Dec p.1 p.2) _).
  by intros [].
Defined.

#[global] Instance number_countable : Countable number.
Proof.
  refine (inj_countable'
    (λ x, match x with
          | NaN => inl ()
          | Inf s => inr (inl s)
          | Fin s d => inr (inr (s, d))
          end)
    (λ e, match e with
          | inl _ => NaN
          | inr (inl s) => Inf s
          | inr (inr (s, d)) => Fin s d
          end) _).
  by intros [].
Defined.

End Num.

(** ** JavaScript values *)

Module Value.
Import Js Num.

(** The scalar values a decoded JSON row can hold in a field, and
    [undefined] for a field that is absent. *)
Inductive value :=
  | VUndefined
  | VNull
  | VBool (b : bool)
  | VNum (x : number)
  | VStr (s : jstring).

#[global] Instance value_eq_dec : EqDecision value.
Proof. solve_decision. Defined.

(** ToBoolean *)
Definition to_boolean (v : value) : bool :=
  match v with
  | VUndefined | VNull => false
  | VBool b => b
  | VNum x => truthy x
  | VStr s => match s with [] => false | _ => true end
  end.

(** [a || b] *)
Definition or_else (a b : value) : value := if to_boolean a then a else b.

(** The abstract operation ToString, as in [String(v)]. *)
Definition ToString (v : value) : jstring :=
  match v with
  | VUndefined => js "undefined"
  | VNull => js "null"
  | VBool b => if b then js "true" else js "false"
  | VNum x => number_to_string x
  | VStr s => s
  end.

(** The method call [v.toString()]; [None] is the TypeError raised on
    [null] and [undefined]. *)
Definition toString (v : value) : option jstring :=
  match v with
  | VUndefined | VNull => None
  | _ => Some (ToString v)
  end.

Fixpoint span_digits (s : jstring) : jstring * jstring :=
  match s with
  | c :: r =>
      if is_digit c then let '(a, b) := span_digits r in (c :: a, b)
      else ([], s)
  | [] => ([], [])
  end.

Definition hex_val (c : N) : option N :=
  if is_digit c then Some (c - 0x30)
  else if (0x61 <=? c) && (c <=? 0x66) then Some (c - 0x61 + 10)
  else if (0x41 <=? c) && (c <=? 0x46) then Some (c - 0x41 + 10)
  else None.

(** Value of the longest prefix of hexadecimal digits ([None]: no digit). *)
Fixpoint hex_prefix (acc : option N) (s : jstring) : option N :=
  match s with
  | c :: r =>
      match hex_val c with
      | Some h => hex_prefix (Some (16 * default 0 acc + h)) r
      | None => acc
      end
  | [] => acc
  end.

(** [parseInt(v)] with the radix left out: leading white space and a sign are
    skipped, a [0x] prefix selects radix 16, the longest prefix of digits is
    read, and no digit at all gives NaN. *)
Definition parseInt (v : value) : number :=
  let s := trim_start (ToString v) in
  let '(neg, s) :=
    match s with
    | c :: r => if c =? 0x2D then (true, r)
                else if c =? 0x2B then (false, r) else (false, s)
    | [] => (false, s)
    end in
  let hex :=
    match s with
    | z :: x :: r =>
        if (z =? 0x30) && ((x =? 0x78) || (x =? 0x58)) then Some r else None
    | _ => None
    end in
  match hex with
  | Some r =>
      match hex_prefix None r with
      | Some n => round_fin neg (dec_of_N n)
      | None => NaN
      end
  | None =>
      match span_digits s with
      | ([], _) => NaN
      | (ds, _) => round_fin neg (dec_of_digits (map digit_val ds) [])
      end
  end.

End Value.

(** ** Data transformer *)

Module Transformer.
Import Js Num Value.

Definition zero : number := Fin false dzero.

(** [s.replace(/[...]/g, '')] for a class of single code units. *)
Definition remove_all (cls : N → bool) (s : jstring) : jstring :=
  List.filter (λ c, negb (cls c)) s.

(** The class [[\u00A0\u202F\u2009\u200A\u200B\s]]. *)
Definition space_class (c : N) : bool :=
  (c =? 0xA0) || (c =? 0x202F) || (c =? 0x2009) || (c =? 0x200A)
  || (c =? 0x200B) || is_space c.

(** The texts the normaliser answers with 0 without looking further. *)
Definition placeholders : list jstring :=
  [js "-"; js "N/A"; js "null"; js "undefined"; js "--"].

(** [/^(-|N\/A|null|undefined|--)$/.test(s)] *)
Definition placeholder (s : jstring) : bool :=
  bool_decide (s ∈ placeholders).

(** A match of [/([0-9]+(?:\.[0-9]+)?)/] that starts at the head of [s]:
    integer digits, fraction digits, and the text after the match. *)
Definition numeric_run_here (s : jstring) : option (jstring * jstring * jstring) :=
  let '(ip, r) := span_digits s in
  match ip with
  | [] => None
  | _ =>
      match r with
      | c :: r' =>
          if c =? 0x2E then
            let '(fp, r'') := span_digits r' in
            match fp with
            | [] => Some (ip, [], r)
            | _ => Some (ip, fp, r'')
            end
          else Some (ip, [], r)
      | [] => Some (ip, [], r)
      end
  end.

(** [s.match(/([0-9]+(?:\.[0-9]+)?)/)]: the leftmost match. *)
Fixpoint match_numeric (s : jstring) : option (jstring * jstring * jstring) :=
  match numeric_run_here s with
  | Some m => Some m
  | None =>
      match s with
      | [] => None
      | _ :: r => match_numeric r
      end
  end.

(** [parseFloat] on a captured run [ip] or [ip.fp]. *)
Definition parseFloat_run (ip fp : jstring) : number :=
  round_fin false (dec_of_digits (map digit_val ip) (map digit_val fp)).

(** [/(cr|crore|crores)/.test(suffix)] *)
Definition crore_suffix (suffix : jstring) : bool :=
  includes suffix (js "cr") || includes suffix (js "crore")
  || includes suffix (js "crores").

(** [/(lac|lakh|lakhs)/.test(suffix)] *)
Definition lakh_suffix (suffix : jstring) : bool :=
  includes suffix (js "lac") || includes suffix (js "lakh")
  || includes suffix (js "lakhs").

(** [parseIndianNumber(str)]; [None] stands for a raised exception. *)
Definition parseIndianNumber (str : value) : option number :=
  match str with
  | VNull | VUndefined => Some zero
  | _ =>
      s ← toString str;
      let s := trim s in
      if negb (to_boolean (VStr s)) || placeholder s then Some zero
      else
        let s := remove_all (λ c, c =? 0x20B9) s in
        let s := remove_all space_class s in
        let s := remove_all (λ c, c =? 0x2C) s in
        match match_numeric s with
        | None => Some zero
        | Some (ip, fp, rest) =>
            let num := parseFloat_run ip fp in
            let suffix := toLowerCase rest in
            let num :=
              if crore_suffix suffix then mul_pow10 num 7
              else if lakh_suffix suffix then mul_pow10 num 5
              else num in
            Some (if isFinite num then num else zero)
        end
  end.

(** The characters the normaliser deletes: the rupee sign, the white-space
    class, and the thousands separator. *)
Definition strippable (c : N) : bool :=
  (c =? 0x20B9) || space_class c || (c =? 0x2C).

Definition strip (s : jstring) : jstring := remove_all strippable s.

(** What is made of a number and the text after it: scaled by a crore or
    a lakh according to that text, and 0 if no longer finite. *)
Definition scaled (num : number) (rest : jstring) : number :=
  let suffix := toLowerCase rest in
  let num :=
    if crore_suffix suffix then mul_pow10 num 7
    else if lakh_suffix suffix then mul_pow10 num 5
    else num in
  if isFinite num then num else zero.

(** The normaliser on a text without deleted characters. *)
Definition normalise_stripped (t : jstring) : option number :=
  match match_numeric t with
  | None => Some zero
  | Some (ip, fp, rest) => Some (scaled (parseFloat_run ip fp) rest)
  end.

Definition no_digit (s : jstring) : bool := forallb (λ c, negb (is_digit c)) s.
Definition all_digits (s : jstring) : bool := forallb is_digit s.

(** The text does not go on with a digit. *)
Definition ends_run (tail : jstring) : bool :=
  match tail with
  | c :: _ => negb (is_digit c)
  | [] => true
  end.

(** The text does not go on with a fraction (a dot and a digit). *)
Definition no_fraction (tail : jstring) : bool :=
  match tail with
  | c :: d :: _ => negb ((c =? 0x2E) && is_digit d)
  | _ => true
  end.

(** [Number.isFinite(num) ? num : 0] *)
Definition finite_or_zero (num : number) : number :=
  if isFinite num then num else zero.

(** A numeral of 310 digits, beyond the range of Numbers. *)
Definition huge_numeral : jstring := 0x31 :: repeat 0x30 309.

(** A raw report row: a field-to-value mapping; an absent field reads as
    [undefined]. *)
Abbreviation raw_record := (gmap string value).

Definition field (record : raw_record) (name : string) : value :=
  default VUndefined (record !! name).

(** The row filter shared by the four transformations: both names present,
    longer than one character, and not a grand-total row. *)
Definition valid_names (record : raw_record) : bool :=
  let stateName := trim (ToString (or_else (field record "STATE_NAME") (VStr []))) in
  let mpName := trim (ToString (or_else (field record "MP_NAME") (VStr []))) in
  if negb (to_boolean (VStr stateName)) || negb (to_boolean (VStr mpName))
     || (length stateName <=? 1)%nat || (length mpName <=? 1)%nat
  then false
  else if includes (toLowerCase stateName) (js "total")
          || includes (toLowerCase mpName) (js "total")
  then false
  else true.

(** [record.FILE_STATUS === true || record.FILE_STATUS === 'true'] *)
Definition has_image (record : raw_record) : bool :=
  bool_decide (field record "FILE_STATUS" = VBool true)
  || bool_decide (field record "FILE_STATUS" = VStr (js "true")).

(** A parameter with the default value [null], as in [lsTerm = null]: the
    default stands in for an argument that is [undefined]. *)
Definition default_null (v : value) : value :=
  match v with
  | VUndefined => VNull
  | _ => v
  end.

(** [...(house === 'Lok Sabha' ? { lsTerm: lsTerm } : { lsTerm: null })] *)
Definition term_of (house : jstring) (lsTerm : value) : value :=
  if bool_decide (house = js "Lok Sabha") then lsTerm else VNull.

(** 1-based position as a Number, for [record.Sno || index + 1]. *)
Definition serial (record : raw_record) (index : nat) : value :=
  or_else (field record "Sno") (VNum (num_of_Z (Z.of_nat index + 1))).

(** [parseInt(record.WORK_RECOMMENDATION_DTL_ID) || 0] *)
Definition work_id (record : raw_record) : number :=
  let n := parseInt (field record "WORK_RECOMMENDATION_DTL_ID") in
  if truthy n then n else zero.

(** A run of [pending] question marks survives [/\?{3,}/] when it is shorter
    than three. *)
Definition kept_marks (pending : nat) : jstring :=
  if (pending <? 3)%nat then repeat 0x3F pending else [].

(** [text.replace(/\?{3,}/g, '')], with [pending] question marks read and
    not yet emitted. *)
Fixpoint remove_mark_runs (pending : nat) (s : jstring) : jstring :=
  match s with
  | [] => kept_marks pending
  | c :: r =>
      if c =? 0x3F then remove_mark_runs (S pending) r
      else kept_marks pending ++ c :: remove_mark_runs 0 r
  end.

(** [cleanText(text)]; [None] is the TypeError of calling [replace] on a
    truthy value that is not a string. *)
Definition cleanText (text : value) : option jstring :=
  if negb (to_boolean text) then Some []
  else
    match text with
    | VStr s => Some (trim (remove_mark_runs 0 s))
    | _ => None
    end.

(** [cleanText(record.WORK_DESCRIPTION) || cleanText(record.ACTIVITY_NAME)
     || 'No description available'] *)
Definition workDescription (record : raw_record) : option jstring :=
  a ← cleanText (field record "WORK_DESCRIPTION");
  if to_boolean (VStr a) then Some a
  else
    b ← cleanText (field record "ACTIVITY_NAME");
    if to_boolean (VStr b) then Some b
    else Some (js "No description available").

(** Canonical work records.  The fields produced by [normalizeConstituency],
    [parseDate] and [parseFloat] (constituency, dates, rating) raise nothing
    on the values a row can hold and take no part in filtering or keying;
    they are left out of the record. *)
Record completed_work := CompletedWork {
  c_srNo : value;
  c_workCategory : value;
  c_workId : number;
  c_state : value;
  c_ida : value;
  c_workDescription : jstring;
  c_mpName : value;
  c_hasImage : bool;
  c_finalAmount : number;
  c_house : jstring;
  c_lsTerm : value
}.

Record recommended_work := RecommendedWork {
  r_srNo : value;
  r_workCategory : value;
  r_workId : number;
  r_state : value;
  r_ida : value;
  r_mpName : value;
  r_workDescription : jstring;
  r_hasImage : bool;
  r_recommendedAmount : number;
  r_house : jstring;
  r_lsTerm : value
}.

Definition completed_filter (record : raw_record) : bool :=
  if negb (valid_names record) then false
  else if negb (to_boolean (field record "ACTUAL_END_DATE"))
          || negb (to_boolean (field record "ACTUAL_AMOUNT"))
  then false
  else
    let recId := parseInt (field record "WORK_RECOMMENDATION_DTL_ID") in
    if negb (truthy recId) || leb_zero recId then false
    else true.

Definition completed_map (house : jstring) (lsTerm : value)
    (index : nat) (record : raw_record) : option completed_work :=
  description ← workDescription record;
  amount ← parseIndianNumber (field record "ACTUAL_AMOUNT");
  Some {| c_srNo := serial record index;
          c_workCategory := field record "WORK_CATEGORY";
          c_workId := work_id record;
          c_state := field record "STATE_NAME";
          c_ida := field record "IDA_NAME";
          c_workDescription := description;
          c_mpName := field record "MP_NAME";
          c_hasImage := has_image record;
          c_finalAmount := amount;
          c_house := house;
          c_lsTerm := term_of house lsTerm |}.

(** [transformWorksCompleted(apiData, house, lsTerm = null)] *)
Definition transformWorksCompleted (apiData : list raw_record)
    (house : jstring) (lsTerm : value) : option (list completed_work) :=
  let lsTerm := default_null lsTerm in
  mapM id (imap (completed_map house lsTerm) (List.filter completed_filter apiData)).

(** A JavaScript [Set] of Numbers.  Membership is SameValueZero, under
    which the two zeros are one key. *)
Definition set_key (x : number) : number :=
  match x with
  | Fin true d => if is_zero d then Fin false d else x
  | _ => x
  end.

Definition set_of (xs : list number) : gset number :=
  list_to_set (set_key <$> xs).

Definition set_has (s : gset number) (x : number) : bool :=
  bool_decide (set_key x ∈ s).

Definition recommended_filter (completedWorkIds : gset number)
    (record : raw_record) : bool :=
  if negb (valid_names record) then false
  else
    (* recId = parseInt(...) || null *)
    let n := parseInt (field record "WORK_RECOMMENDATION_DTL_ID") in
    let recId := if truthy n then Some n else None in
    if match recId with Some x => set_has completedWorkIds x | None => false end
    then false
    else if match recId with Some x => leb_zero x | None => true end
    then false
    else if negb (to_boolean (field record "RECOMMENDATION_DATE"))
            || negb (to_boolean (field record "RECOMMENDED_AMOUNT"))
    then false
    else true.

Definition recommended_map (house : jstring) (lsTerm : value)
    (index : nat) (record : raw_record) : option recommended_work :=
  description ← workDescription record;
  amount ← parseIndianNumber (field record "RECOMMENDED_AMOUNT");
  Some {| r_srNo := serial record index;
          r_workCategory := field record "WORK_CATEGORY";
          r_workId := work_id record;
          r_state := field record "STATE_NAME";
          r_ida := field record "IDA_NAME";
          r_mpName := field record "MP_NAME";
          r_workDescription := description;
          r_hasImage := has_image record;
          r_recommendedAmount := amount;
          r_house := house;
          r_lsTerm := term_of house lsTerm |}.

(** [transformWorksRecommended(apiData, house, lsTerm = null,
    completedWorkIds)] *)
Definition transformWorksRecommended (apiData : list raw_record)
    (house : jstring) (lsTerm : value) (completedWorkIds : gset number)
    : option (list recommended_work) :=
  let lsTerm := default_null lsTerm in
  mapM id (imap (recommended_map house lsTerm)
             (List.filter (recommended_filter completedWorkIds) apiData)).

(** Allocation and expenditure records, without the constituency and date
    fields made by [normalizeConstituency] and [parseDate]. *)
Record allocation_record := Allocation {
  a_srNo : value;
  a_state : value;
  a_mpName : value;
  a_allocatedAmount : number;
  a_house : jstring;
  a_lsTerm : value
}.

Record expenditure_record := Expenditure {
  e_srNo : value;
  e_state : value;
  e_workId : number;
  e_work : jstring;
  e_vendor : value;
  e_ida : value;
  e_mpName : value;
  e_paymentStatus : value;
  e_expenditureAmount : number;
  e_house : jstring;
  e_lsTerm : value
}.

Definition allocation_map (house : jstring) (lsTerm : value)
    (index : nat) (record : raw_record) : option allocation_record :=
  amount ← parseIndianNumber (field record "ALLOCATED_AMT");
  Some {| a_srNo := serial record index;
          a_state := field record "STATE_NAME";
          a_mpName := field record "MP_NAME";
          a_allocatedAmount := amount;
          a_house := house;
          a_lsTerm := term_of house lsTerm |}.

(** [transformAllocatedLimit(apiData, house, lsTerm = null)] *)
Definition transformAllocatedLimit (apiData : list raw_record)
    (house : jstring) (lsTerm : value) : option (list allocation_record) :=
  let lsTerm := default_null lsTerm in
  mapM id (imap (allocation_map house lsTerm) (List.filter valid_names apiData)).

Definition expenditure_map (house : jstring) (lsTerm : value)
    (index : nat) (record : raw_record) : option expenditure_record :=
  work ← cleanText (field record "ACTIVITY_NAME");
  amount ← parseIndianNumber
             (or_else (field record "FUND_DISBURSED_AMT")
                      (field record "EXPENDITURE_AMOUNT"));
  Some {| e_srNo := serial record index;
          e_state := field record "STATE_NAME";
          e_workId := work_id record;
          e_work := work;
          e_vendor := or_else (field record "VENDOR_NAME") VNull;
          e_ida := or_else (field record "IDA_NAME") (field record "IA_NAME");
          e_mpName := field record "MP_NAME";
          e_paymentStatus :=
            or_else (or_else (field record "WORK_STATUS")
                             (field record "PAYMENT_STATUS"))
                    (VStr (js "N/A"));
          e_expenditureAmount := amount;
          e_house := house;
          e_lsTerm := term_of house lsTerm |}.

(** [transformExpenditure(apiData, house, lsTerm = null)] *)
Definition transformExpenditure (apiData : list raw_record)
    (house : jstring) (lsTerm : value) : option (list expenditure_record) :=
  let lsTerm := default_null lsTerm in
  mapM id (imap (expenditure_map house lsTerm) (List.filter valid_names apiData)).

(** One chamber's raw batch and its transformed batch. *)
Record raw_works := RawWorks {
  allocated_limit : list raw_record;
  expenditure : list raw_record;
  works_completed : list raw_record;
  works_recommended : list raw_record
}.

Record works := Works {
  allocations : list allocation_record;
  expenditures : list expenditure_record;
  completed : list completed_work;
  recommended : list recommended_work
}.

(** One chamber's share of [transformAllData]: the allocations, the
    expenditures, the completed works, then the set of their ids, then the
    recommended works against that set.
    [new Set(completed.map(w => w.workId).filter(Boolean))] *)
Definition transform_house (data : raw_works) (house : jstring)
    (lsTerm : value) : option works :=
  alloc ← transformAllocatedLimit (allocated_limit data) house lsTerm;
  spent ← transformExpenditure (expenditure data) house lsTerm;
  comp ← transformWorksCompleted (works_completed data) house lsTerm;
  let completedWorkIds :=
    set_of (List.filter truthy (c_workId <$> comp)) in
  recs ← transformWorksRecommended (works_recommended data) house lsTerm
           completedWorkIds;
  Some (Works alloc spent comp recs).

Record api_data := ApiData {
  lok_sabha : raw_works;
  rajya_sabha : raw_works
}.

Record results := Results {
  res_lok_sabha : works;
  res_rajya_sabha : works
}.

(** [transformAllData(apiData, options)]: first the Lok Sabha with the term
    of the options, [const { lsTerm = null } = options], then the Rajya Sabha
    with the term [null].  Options that are left out are the empty object. *)
Definition transformAllData (apiData : api_data) (options : raw_record)
    : option results :=
  let lsTerm := default_null (field options "lsTerm") in
  ls ← transform_house (lok_sabha apiData) (js "Lok Sabha") lsTerm;
  rs ← transform_house (rajya_sabha apiData) (js "Rajya Sabha") VNull;
  Some (Results ls rs).

(** A small Lok Sabha batch: work 7 is completed and is still listed as
    recommended (with its id as text), work 8 is recommended only. *)
Definition sample_row (id : value) (extra : list (string * value)) : raw_record :=
  list_to_map
    ([ ("STATE_NAME", VStr (js "Bihar")); ("MP_NAME", VStr (js "A. Kumar"));
       ("WORK_RECOMMENDATION_DTL_ID", id) ] ++ extra).

Definition sample_batch : api_data :=
  ApiData
    (RawWorks
       [ sample_row VNull [ ("ALLOCATED_AMT", VStr (js "5 Cr")) ] ]
       [ sample_row (VNum (num_of_Z 7))
           [ ("ACTIVITY_NAME", VStr (js "Road ??? work"));
             ("FUND_DISBURSED_AMT", VStr (js "5 lakh")) ] ]
       [ sample_row (VNum (num_of_Z 7))
           [ ("ACTUAL_END_DATE", VStr (js "15-Aug-2025"));
             ("ACTUAL_AMOUNT", VStr (js "₹1,23,456")) ] ]
       [ sample_row (VStr (js "7"))
           [ ("RECOMMENDATION_DATE", VStr (js "01-Jan-2025"));
             ("RECOMMENDED_AMOUNT", VStr (js "2.5 Cr")) ];
         sample_row (VNum (num_of_Z 8))
           [ ("RECOMMENDATION_DATE", VStr (js "02-Jan-2025"));
             ("RECOMMENDED_AMOUNT", VStr (js "1 lakh")) ] ])
    (RawWorks [] [] [] []).

(** The options [{ lsTerm: term }]. *)
Definition term_options (term : value) : raw_record := {[ "lsTerm" := term ]}.

(** Numbers above zero: neither NaN, nor a zero, nor negative. *)
Definition positive (x : number) : Prop :=
  match x with
  | Fin false d => is_zero d = false
  | Inf false => True
  | _ => False
  end.

(** The name a row is judged by: [(v || '').toString().trim()]. *)
Definition name_text (v : value) : jstring :=
  trim (ToString (or_else v (VStr []))).

(** A row of the sample kind with its serial number and a description. *)
Definition described_row (description : value) : raw_record :=
  <["ACTIVITY_NAME" := description]>
    (sample_row (VNum (num_of_Z 9)) [("FUND_DISBURSED_AMT", VStr (js "5 lakh"))]).

End Transformer.

(** ** API client: report requests and session bootstrap *)

Module ApiClient.
Import Js Num Value.

(** How a promise settles. *)
Inductive settled (A : Type) :=
  | Resolved (a : A)
  | Rejected (message : jstring).
Arguments Resolved {A} a.
Arguments Rejected {A} message.

Fixpoint lookup_key (k : jstring) (m : list (jstring * jstring)) : option jstring :=
  match m with
  | [] => None
  | (k', v) :: r => if bool_decide (k = k') then Some v else lookup_key k r
  end.

Definition dataTypeMap : list (jstring * jstring) :=
  [ (js "works_completed", js "Total%20Works%20Completed");
    (js "works_recommended", js "Total%20Works%20Recommended");
    (js "expenditure", js "Total%20Expenditure");
    (js "allocated_limit", js "Allocated%20Limit") ].

(** The [combo] parameter chosen by [fetchData]. *)
Definition houseCombo (house : jstring) (lsTerm : value) : jstring :=
  if bool_decide (house = js "lok_sabha") then
    if bool_decide (toLowerCase (ToString lsTerm) = js "17")
    then js "0%2C0%2C0%2C2%2C5"
    else js "0%2C0%2C0%2C2"
  else js "0%2C0%2C0%2C1".

(** The body [fetchData(house, dataType, lsTerm)] posts, or the rejection
    for a data type that has no key.  (Names that a JavaScript object
    inherits, such as [constructor], are not data types of any caller and are
    treated as having no key.) *)
Definition postData (house dataType : jstring) (lsTerm : value) : settled jstring :=
  match lookup_key dataType dataTypeMap with
  | None => Rejected (js "Invalid data type: " ++ dataType)
  | Some keyParam =>
      Resolved (js "combo=" ++ houseCombo house lsTerm ++ js "&key=" ++ keyParam)
  end.

(** Percent-decoding of the two-digit escapes of a form parameter. *)
Fixpoint percent_decode (s : jstring) : jstring :=
  match s with
  | [] => []
  | c :: r =>
      if c =? 0x25 then
        match r with
        | h :: l :: r' =>
            match hex_val h, hex_val l with
            | Some a, Some b => (16 * a + b) :: percent_decode r'
            | _, _ => c :: percent_decode r
            end
        | _ => c :: percent_decode r
        end
      else c :: percent_decode r
  end.

(** The combo code a request body carries: the value of its [combo]
    parameter, percent-decoded. *)
Fixpoint before_ampersand (s : jstring) : jstring :=
  match s with
  | [] => []
  | c :: r => if c =? 0x26 then [] else c :: before_ampersand r
  end.

Definition combo_code (body : settled jstring) : option jstring :=
  match body with
  | Resolved b =>
      if starts_with (js "combo=") b
      then Some (percent_decode (before_ampersand (drop 6 b)))
      else None
  | Rejected _ => None
  end.

Definition report_kinds : list jstring := dataTypeMap.*1.

(** Session state of the client, and the session file next to it. *)
Record session_file := SessionFile {
  file_cookies : jstring;
  file_csrfToken : jstring;
  file_timestamp : Z
}.

Record client := Client {
  sessionCookies : option jstring;
  csrfToken : jstring;
  sessionFile : option session_file
}.

(** What the portal request of [initializeSession] runs into. *)
Inductive portal_event :=
  | ResponseEnd (statusCode : Z) (set_cookie : option (list jstring))
  | RequestError (message : jstring)
  | RequestTimeout
  | SetupException (message : jstring).

(** What the rest of the world contributes to one bootstrap: the portal
    event, the clock, whether the session file can be written, and how the
    test fetch made by [testSession] settles (the number of rows fetched). *)
Record world := World {
  portal : portal_event;
  now_ms : Z;
  disk_writable : bool;
  test_fetch : settled nat
}.

(** [cookie.split(';')[0]] *)
Fixpoint before_semicolon (s : jstring) : jstring :=
  match s with
  | [] => []
  | c :: r => if c =? 0x3B then [] else c :: before_semicolon r
  end.

(** [parts.join('; ')] *)
Fixpoint join_cookies (parts : list jstring) : jstring :=
  match parts with
  | [] => []
  | [p] => p
  | p :: r => p ++ js "; " ++ join_cookies r
  end.

Definition extract_cookies (setCookieHeaders : list jstring) : jstring :=
  join_cookies
    (List.filter (λ cookie, includes cookie (js "="))
       (before_semicolon <$> setCookieHeaders)).

(** [saveSession()]: a failed write is caught and only logged. *)
Definition saveSession (w : world) (c : client) : client :=
  match sessionCookies c with
  | Some cookies =>
      if disk_writable w
      then Client (sessionCookies c) (csrfToken c)
             (Some (SessionFile cookies (csrfToken c) (now_ms w)))
      else c
  | None => c
  end.

(** [testSession()]: true when the test fetch resolves with at least one
    row, false when it is empty or fails. *)
Definition testSession (w : world) : bool :=
  match test_fetch w with
  | Resolved n => (0 <? n)%nat
  | Rejected _ => false
  end.

(** [initializeSession()]: how the returned promise settles, and the client
    state afterwards. *)
Definition initializeSession (w : world) (c : client) : settled bool * client :=
  match portal w with
  | ResponseEnd _ set_cookie =>
      match set_cookie with
      | Some (h :: t) =>
          let cookies := extract_cookies (h :: t) in
          if to_boolean (VStr cookies) then
            let c := Client (Some cookies) (csrfToken c) (sessionFile c) in
            let c := saveSession w c in
            (Resolved (testSession w), c)
          else (Resolved false, c)
      | _ => (Resolved false, c)
      end
  | RequestError _ => (Resolved false, c)
  | RequestTimeout => (Resolved false, c)
  | SetupException _ => (Resolved false, c)
  end.

(** The guard at the head of [fetchAllData]: without a session the cycle is
    abandoned with a plain [Error]. *)
Definition session_guard (sessionReady : bool) : settled unit :=
  if sessionReady then Resolved ()
  else Rejected (js "Failed to establish session for data fetch").

(** The three failure cases of the bootstrap: the portal answers without
    any usable cookie, the request errors, the request times out. *)
Inductive bootstrap_failure : portal_event → Prop :=
  | no_set_cookie_header status :
      bootstrap_failure (ResponseEnd status None)
  | empty_set_cookie_header status :
      bootstrap_failure (ResponseEnd status (Some []))
  | no_valid_cookie status headers :
      extract_cookies headers = [] →
      bootstrap_failure (ResponseEnd status (Some headers))
  | network_error message :
      bootstrap_failure (RequestError message)
  | timed_out :
      bootstrap_failure RequestTimeout.

Definition a_world (e : portal_event) : world :=
  World e 0 true (Resolved 1%nat).

Definition fresh_client : client := Client None [] None.

(** *** Session file *)

(** [loadSession()] at the moment [now]: a session file younger than four
    hours is taken over, an older one is deleted.  (The file holds what
    [saveSession] wrote; a time stamp of 0 counts as missing.) *)
Definition loadSession (now : Z) (c : client) : bool * client :=
  match sessionFile c with
  | Some f =>
      if negb (file_timestamp f =? 0)%Z
         && (now - file_timestamp f <? 4 * 60 * 60 * 1000)%Z
      then (true, Client (Some (file_cookies f)) (file_csrfToken f) (sessionFile c))
      else (false, Client (sessionCookies c) (csrfToken c) None)
  | None => (false, c)
  end.

(** [new MPLADSApiClient(sessionCookies)] at the moment [now], with [disk]
    the session file found: without cookies of its own (none, or the empty
    string) the client tries the file. *)
Definition new_client (now : Z) (disk : option session_file)
    (cookies : option jstring) : client :=
  let c := Client cookies [] disk in
  match cookies with
  | Some (_ :: _) => c
  | _ => (loadSession now c).2
  end.

(** Four hours, in milliseconds. *)
Definition session_lifetime : Z := 14400000.

End ApiClient.

(** ** Image extractor: attachment lookup and download *)

Module Extractor.
Import Js Num Value.

(** Decoded response bodies. *)
#[warnings="-register-all"]
Inductive json :=
  | JUndefined
  | JNull
  | JBool (b : bool)
  | JNum (x : number)
  | JStr (s : jstring)
  | JArr (items : list json)
  | JObj (fields : list (string * json)).

(** What a failed call throws: the fields of the error object that the
    code inspects ([error.code], [error.response?.status], [error.message]). *)
Record js_error := JsError {
  err_code : option jstring;
  err_status : option Z;
  err_message : option jstring
}.

#[global] Instance js_error_eq_dec : EqDecision js_error.
Proof. solve_decision. Defined.

Inductive completion (A : Type) :=
  | Normal (a : A)
  | Throw (e : js_error).
Arguments Normal {A} a.
Arguments Throw {A} e.

Definition bind {A B} (c : completion A) (k : A → completion B) : completion B :=
  match c with
  | Normal a => k a
  | Throw e => Throw e
  end.

Notation "'do' x <- c ; k" := (bind c (λ x, k))
  (at level 10, x name, c at level 100, k at level 200).

Definition plain_error (message : string) : js_error :=
  JsError None None (Some (js message)).

Fixpoint assoc (name : string) (fields : list (string * json)) : json :=
  match fields with
  | [] => JUndefined
  | (k, v) :: r => if bool_decide (k = name) then v else assoc name r
  end.

(** Property read [o.name]; reading from [null] or [undefined] throws. *)
Definition get_prop (o : json) (name : string) : completion json :=
  match o with
  | JNull | JUndefined => Throw (plain_error "Cannot read properties of null or undefined")
  | JObj fields => Normal (assoc name fields)
  | _ => Normal JUndefined
  end.

Definition json_truthy (v : json) : bool :=
  match v with
  | JUndefined | JNull => false
  | JBool b => b
  | JNum x => truthy x
  | JStr s => match s with [] => false | _ => true end
  | JArr _ | JObj _ => true
  end.

(** [v === s] for a string constant [s]. *)
Definition is_string (v : json) (s : jstring) : bool :=
  match v with
  | JStr t => bool_decide (t = s)
  | _ => false
  end.

Record descriptor := Descriptor {
  fileName : json;
  attachmentId : json
}.

(** [v.toString()] inside a [try]: the TypeError becomes a throw. *)
Definition to_string_or_throw (v : value) : completion jstring :=
  match toString v with
  | Some s => Normal s
  | None => Throw (plain_error "Cannot read properties of null or undefined")
  end.

(** The body of the [try] block of [getAttachmentIds]; [post] is the
    attachment-id endpoint, given the [FLAG] and [WORK_ID] of the request. *)
Definition attachment_ids_try (post : jstring → jstring → completion json)
    (workId flag : value) : completion (list descriptor) :=
  do f <- to_string_or_throw flag;
  do w <- to_string_or_throw workId;
  do data <- post f w;
  match data with
  | JArr (result :: _) =>
      do name <- get_prop result "FILE_NAME";
      if is_string name (js "N/A") then Normal []
      else
        do ids <- get_prop result "ATTACH_ID";
        match name, ids with
        | JArr names, JArr ids =>
            Normal (imap (λ index n,
                      Descriptor n (default JUndefined (ids !! index))) names)
        | _, _ => Normal [Descriptor name ids]
        end
  | _ => Normal []
  end.

(** [getAttachmentIds(workId, flag)]: the [catch] turns a 404 into the empty
    list and rethrows everything else. *)
Definition getAttachmentIds (post : jstring → jstring → completion json)
    (workId flag : value) : completion (list descriptor) :=
  match attachment_ids_try post workId flag with
  | Normal r => Normal r
  | Throw error =>
      if bool_decide (err_status error = Some 404%Z) then Normal []
      else Throw error
  end.

(** [RETRY_CONFIG] *)
Definition maxRetries : nat := 3.
Definition baseDelay : Q := 2000.
Definition maxDelay : Q := 10000.
Definition retryableErrors : list jstring :=
  [js "ECONNRESET"; js "ETIMEDOUT"; js "ENOTFOUND"; js "ECONNREFUSED"; js "EAI_AGAIN"].

Definition message_includes (error : js_error) (p : jstring) : bool :=
  match err_message error with
  | Some m => includes m p
  | None => false
  end.

(** [isRetryableError(error)] for a thrown error object. *)
Definition isRetryableError (error : js_error) : bool :=
  if match err_code error with
     | Some c => bool_decide (c ∈ retryableErrors)
     | None => false
     end then true
  else if match err_status error with
          | Some st => (500 <=? st)%Z
          | None => false
          end then true
  else if bool_decide (err_status error = Some 429%Z) then true
  else if message_includes error (js "timeout") then true
  else if message_includes error (js "ECONNRESET") then true
  else false.

(** [calculateDelay(attempt)], with [random] the value drawn from
    [Math.random()]. *)
Definition calculateDelay (random : Q) (attempt : nat) : Q :=
  let exponentialDelay := (baseDelay * inject_Z (2 ^ (Z.of_nat attempt - 1)))%Q in
  let jitter := (random * (1 # 10) * exponentialDelay)%Q in
  Qmin (exponentialDelay + jitter) maxDelay.

Record image_data := ImageData {
  buffer : list N;
  base64Data : json
}.

(** One pass through the [try] block of [downloadImageData]: the POST of
    this attempt, the choice of the base64 payload, and its decoding by
    [Buffer.from(_, 'base64')]. *)
Definition download_try (post : completion json)
    (bufferFrom : json → completion (list N)) : completion image_data :=
  do data <- post;
  do payload <-
    match data with
    | JStr _ => Normal data
    | JArr (first :: _) =>
        do url <- get_prop first "URL";
        if json_truthy url then Normal url
        else Throw (plain_error "Invalid response format - expected base64 string or array with URL field")
    | _ => Throw (plain_error "Invalid response format - expected base64 string or array with URL field")
    end;
  do bytes <- bufferFrom payload;
  Normal (ImageData bytes payload).

(** A run of [downloadImageData]: how it completes, the delays slept
    through, and the number of POSTs made. *)
Record run := Run {
  outcome : completion image_data;
  sleeps : list Q;
  posts : nat
}.

(** The [for] loop from [attempt] on, [remaining] iterations being left
    before [attempt] exceeds [maxRetries]. *)
Fixpoint download_loop (post : nat → jstring → completion json)
    (bufferFrom : json → completion (list N)) (random : nat → Q)
    (body : completion jstring) (lastError : option js_error)
    (remaining attempt : nat) : run :=
  match remaining with
  | O => Run (Throw (default (JsError None None None) lastError)) [] 0
  | S remaining' =>
      let result :=
        do b <- body;
        download_try (post attempt b) bufferFrom in
      let made := match body with Normal _ => 1%nat | Throw _ => 0%nat end in
      match result with
      | Normal r => Run (Normal r) [] made
      | Throw error =>
          if negb (isRetryableError error) then Run (Throw error) [] made
          else if bool_decide (attempt = maxRetries) then Run (Throw error) [] made
          else
            let delay := calculateDelay (random attempt) attempt in
            let rest := download_loop post bufferFrom random body (Some error)
                          remaining' (S attempt) in
            Run (outcome rest) (delay :: sleeps rest) (made + posts rest)
      end
  end.

(** [downloadImageData(attachmentId)] *)
Definition downloadImageData (post : nat → jstring → completion json)
    (bufferFrom : json → completion (list N)) (random : nat → Q)
    (attachmentId : value) : run :=
  download_loop post bufferFrom random (to_string_or_throw attachmentId)
    None maxRetries 1.

(** The classes of errors named by the retry policy. *)
Definition network_class (error : js_error) : Prop :=
  (∃ c, err_code error = Some c ∧ c ∈ retryableErrors)
  ∨ message_includes error (js "timeout") = true
  ∨ message_includes error (js "ECONNRESET") = true.

Definition http_5xx (error : js_error) : Prop :=
  ∃ st, err_status error = Some st ∧ (500 ≤ st ≤ 599)%Z.

Definition http_429 (error : js_error) : Prop :=
  err_status error = Some 429%Z.

(** HTTP status codes have three digits, the first of them from 1 to 5. *)
Definition valid_status (error : js_error) : Prop :=
  ∀ st, err_status error = Some st → (100 ≤ st ≤ 599)%Z.

(** The delay before jitter: 2 s for the first attempt, doubled for each
    further one. *)
Definition exponential (attempt : nat) : Q :=
  (2000 * inject_Z (2 ^ (Z.of_nat attempt - 1)))%Q.

(** An endpoint that is out of reach twice and then rate-limits. *)
Definition flaky_endpoint (attempt : nat) (_ : jstring) : completion json :=
  match attempt with
  | 1%nat => Throw (JsError (Some (js "ECONNRESET")) None (Some (js "socket hang up")))
  | 2%nat => Throw (JsError None (Some 503%Z) (Some (js "Request failed with status code 503")))
  | _ => Throw (JsError None (Some 429%Z) (Some (js "Request failed with status code 429")))
  end.

Definition no_buffer (_ : json) : completion (list N) := Normal [].

Definition failing_endpoint (status : Z) : jstring → jstring → completion json :=
  λ _ _, Throw (JsError (Some (js "ERR_BAD_REQUEST")) (Some status)
                  (Some (js "Request failed"))).

(** *** Images of a work *)

Record work_images := WorkImages {
  wi_recommended : list descriptor;
  wi_completed : list descriptor;
  wi_total : nat
}.

(** [getWorkImages(workId, collection)]: flag 3 asks for the images of the
    completed phase, flag 1 for those of the recommended phase; whatever is
    thrown on the way is caught and the results as they stand are returned. *)
Definition getWorkImages (post : jstring → jstring → completion json)
    (workId collection : value) : completion work_images :=
  let results := WorkImages [] [] 0 in
  let attempt :=
    if bool_decide (collection = VStr (js "works_completed")) then
      do completedAttachments <- getAttachmentIds post workId (VNum (num_of_Z 3));
      Normal (WorkImages [] completedAttachments (length completedAttachments))
    else if bool_decide (collection = VStr (js "works_recommended")) then
      do recommendedAttachments <- getAttachmentIds post workId (VNum (num_of_Z 1));
      Normal (WorkImages recommendedAttachments [] (length recommendedAttachments))
    else
      do recommendedAttachments <- getAttachmentIds post workId (VNum (num_of_Z 1));
      do completedAttachments <- getAttachmentIds post workId (VNum (num_of_Z 3));
      Normal (WorkImages recommendedAttachments completedAttachments
                (length recommendedAttachments + length completedAttachments)) in
  match attempt with
  | Normal r => Normal r
  | Throw _ => Normal results
  end.

Definition invalid_format : js_error :=
  plain_error "Invalid response format - expected base64 string or array with URL field".

(** An endpoint with two recommended images and a server error on the
    completed phase. *)
Definition half_endpoint (flag _ : jstring) : completion json :=
  if bool_decide (flag = js "1") then
    Normal (JArr [JObj [ ("FILE_NAME", JArr [JStr (js "a.jpg"); JStr (js "b.jpg")]);
                         ("ATTACH_ID", JArr [JNum (num_of_Z 11)]) ]])
  else Throw (JsError None (Some 500%Z) (Some (js "Request failed with status code 500"))).

End Extractor.

(** ** Object storage *)

Module Storage.
Import Js Num Value Extractor.

Record stored_object := StoredObject {
  obj_body : list N;
  obj_contentType : jstring;
  obj_metadata : list (string * jstring)
}.

(** The bucket: objects by key. *)
Abbreviation bucket := (gmap jstring stored_object).

(** What [r2Client.send] throws: the error's [name]. *)
Record s3_error := S3Error { s3_name : jstring }.

Inductive s3_result (A : Type) :=
  | Sent (a : A)
  | Failed (e : s3_error).
Arguments Sent {A} a.
Arguments Failed {A} e.

(** [fileName.split('.').pop()]: the text after the last dot, the whole name
    when it has none. *)
Fixpoint last_segment (acc s : jstring) : jstring :=
  match s with
  | [] => acc
  | c :: r => if c =? 0x2E then last_segment [] r else last_segment (acc ++ [c]) r
  end.

Definition file_extension (fileName : jstring) : jstring :=
  let ext := last_segment [] fileName in
  if to_boolean (VStr ext) then ext else js "jpg".

Record upload_result := UploadResult {
  r2Key : jstring;
  r2Url : jstring;
  size : nat
}.

(** [PutObjectCommand]: the object is stored under its key unless the
    service [fault]s. *)
Definition send_put (fault : option s3_error) (b : bucket)
    (key : jstring) (o : stored_object) : s3_result unit * bucket :=
  match fault with
  | Some e => (Failed e, b)
  | None => (Sent (), <[key := o]> b)
  end.

(** [HeadObjectCommand]: a key that is absent answers [NotFound]. *)
Definition send_head (fault : option s3_error) (b : bucket)
    (key : jstring) : s3_result unit :=
  match fault with
  | Some e => Failed e
  | None =>
      match b !! key with
      | Some _ => Sent ()
      | None => Failed (S3Error (js "NotFound"))
      end
  end.

(** The errors [uploadImageToR2] can end in. *)
Inductive upload_error :=
  | UploadTypeError
  | UploadFailed (e : s3_error).

(** [uploadImageToR2(workId, phase, attachmentId, imageBuffer, fileName)] *)
Definition uploadImageToR2 (publicDomain : jstring) (fault : option s3_error)
    (b : bucket) (workId : value) (phase : jstring) (attachmentId : value)
    (imageBuffer : list N) (fileName : jstring)
    : (upload_error + upload_result) * bucket :=
  let fileExtension := file_extension fileName in
  let key := js "works/" ++ ToString workId ++ js "/" ++ phase ++ js "/"
             ++ ToString attachmentId ++ js "_original." ++ fileExtension in
  match toString workId, toString attachmentId with
  | Some w, Some a =>
      let o := StoredObject imageBuffer (js "image/" ++ fileExtension)
                 [("workId", w); ("phase", phase); ("attachmentId", a);
                  ("originalFileName", fileName)] in
      match send_put fault b key o with
      | (Sent _, b') =>
          (inr (UploadResult key (js "https://" ++ publicDomain ++ js "/" ++ key)
                  (length imageBuffer)), b')
      | (Failed e, b') => (inl (UploadFailed e), b')
      end
  | _, _ => (inl UploadTypeError, b)
  end.

(** [imageExistsInR2(workId, phase, attachmentId)] *)
Definition imageExistsInR2 (fault : option s3_error) (b : bucket)
    (workId : value) (phase : jstring) (attachmentId : value)
    : s3_error + bool :=
  let key := js "works/" ++ ToString workId ++ js "/" ++ phase ++ js "/"
             ++ ToString attachmentId ++ js "_original.jpg" in
  match send_head fault b key with
  | Sent _ => inr true
  | Failed error =>
      if bool_decide (s3_name error = js "NotFound") then inr false
      else inl error
  end.

(** The key under which the existence probe looks. *)
Definition probe_key (workId : value) (phase : jstring) (attachmentId : value)
    : jstring :=
  js "works/" ++ ToString workId ++ js "/" ++ phase ++ js "/"
  ++ ToString attachmentId ++ js "_original.jpg".

(** [uploadThumbnailToR2(workId, phase, attachmentId, thumbnailBuffer)];
    [enableThumbnails] is [config.processing.enableThumbnails], and [None]
    is the [null] it returns. *)
Definition uploadThumbnailToR2 (enableThumbnails : bool) (publicDomain : jstring)
    (fault : option s3_error) (b : bucket) (workId : value) (phase : jstring)
    (attachmentId : value) (thumbnailBuffer : list N)
    : option upload_result * bucket :=
  if negb enableThumbnails then (None, b)
  else
    let key := js "works/" ++ ToString workId ++ js "/" ++ phase ++ js "/"
               ++ ToString attachmentId ++ js "_thumb.webp" in
    match toString workId, toString attachmentId with
    | Some w, Some a =>
        let o := StoredObject thumbnailBuffer (js "image/webp")
                   [("workId", w); ("phase", phase); ("attachmentId", a);
                    ("type", js "thumbnail")] in
        match send_put fault b key o with
        | (Sent _, b') =>
            (Some (UploadResult key (js "https://" ++ publicDomain ++ js "/" ++ key)
                     (length thumbnailBuffer)), b')
        | (Failed _, b') => (None, b')
        end
    | _, _ => (None, b)
    end.

End Storage.

(** ** Metadata manager *)

Module Metadata.
Import Js.

(** A Date: its time value, the milliseconds since the epoch in UTC. *)
Record date := Date { getTime : Z }.

Definition msPerDay : Z := 86400000.

(** The time zone of the host: [LocalTZA z t isUTC] is the offset of local
    time from UTC in milliseconds, at the UTC instant [t] when [isUTC], at
    the local time [t] otherwise.  A local time that is skipped when clocks
    are set forward is read with the offset before the change. *)
Record zone := Zone { LocalTZA : Z → bool → Z }.

Definition LocalTime (z : zone) (t : Z) : Z := (t + LocalTZA z t true)%Z.
Definition UTC (z : zone) (t : Z) : Z := (t - LocalTZA z t false)%Z.
Definition Day (t : Z) : Z := (t / msPerDay)%Z.
Definition TimeWithinDay (t : Z) : Z := (t mod msPerDay)%Z.
Definition MakeDate (day time : Z) : Z := (day * msPerDay + time)%Z.

(** Day 0 was a Thursday; 0 is Sunday. *)
Definition WeekDay (t : Z) : Z := ((Day t + 4) mod 7)%Z.

(** [d.getDay()] *)
Definition getDay (z : zone) (d : date) : Z := WeekDay (LocalTime z (getTime d)).

(** [d.setDate(base.getDate() + n)] for [d] a copy of [base]: the day of the
    month counted on from that of the same local day, so the local calendar
    day moves on by [n] and the local time of day stays. *)
Definition add_days (z : zone) (d : date) (n : Z) : date :=
  let t := LocalTime z (getTime d) in
  Date (UTC z (MakeDate (Day t + n) (TimeWithinDay t))).

(** [d.setHours(h, 0, 0, 0)] *)
Definition setHours (z : zone) (d : date) (h : Z) : date :=
  let t := LocalTime z (getTime d) in
  Date (UTC z (MakeDate (Day t) (h * 3600000))).

(** [(7 - now.getDay() + 1) % 7 || 7] for the week day [g] of [now]. *)
Definition daysUntilMonday (g : Z) : Z :=
  let m := Z.rem (7 - g + 1) 7 in
  if (m =? 0)%Z then 7%Z else m.

(** [calculateNextUpdate(frequency)] at the moment [now] in the zone [z]. *)
Definition calculateNextUpdate (z : zone) (now : date) (frequency : jstring)
    : date :=
  let nextUpdate := now in
  let f := toLowerCase frequency in
  if bool_decide (f = js "daily") then
    setHours z (add_days z nextUpdate 1) 2
  else if bool_decide (f = js "weekly") then
    setHours z (add_days z nextUpdate (daysUntilMonday (getDay z now))) 2
  else if bool_decide (f = js "bi-weekly") then
    setHours z (add_days z nextUpdate 14) 2
  else
    setHours z (add_days z nextUpdate 1) 2.

Definition two_am : Z := 7200000.

(** A zone whose offset from UTC never changes. *)
Definition fixed_offset (z : zone) : Prop :=
  ∃ offset, ∀ t isUTC, LocalTZA z t isUTC = offset.

(** Indian Standard Time, UTC+05:30 all year. *)
Definition india : zone := Zone (λ _ _, 19800000%Z).

(** New York in the spring of 2026: UTC-05:00 until Sunday 8 March, 02:00
    local time (07:00 UTC), UTC-04:00 from then on; the local times from
    02:00 to 03:00 of that day do not exist. *)
Definition new_york_spring : zone :=
  let change := (20520 * msPerDay + 7 * 3600000)%Z in
  Zone (λ t isUTC,
          if isUTC then (if (t <? change)%Z then -18000000 else -14400000)%Z
          else (if (t <? change - 18000000 + 3600000)%Z
                then -18000000 else -14400000)%Z).

(** The instant that is [ms] milliseconds into day [day] of local time. *)
Definition local_instant (z : zone) (day ms : Z) : date :=
  Date (UTC z (MakeDate day ms)).

(** *** The sync record *)

Import Num Value.

(** [Math.round(n / d)] for integers [n] and [d > 0]: the nearest integer,
    a tie going up.  For instants less than [2^52] ms apart the double
    quotient of the source rounds as the exact quotient does, [d] being the
    milliseconds of an hour or of a day. *)
Definition round_div (n d : Z) : Z := ((2 * n + d) / (2 * d))%Z.

(** [formatNextUpdateInfo(nextUpdate)] at the moment [now]. *)
Definition formatNextUpdateInfo (now nextUpdate : date) : jstring :=
  let diffMs := (getTime nextUpdate - getTime now)%Z in
  let diffHours := round_div diffMs (1000 * 60 * 60) in
  let diffDays := round_div diffMs (1000 * 60 * 60 * 24) in
  if (diffHours <? 24)%Z then
    js "in " ++ number_to_string (num_of_Z diffHours) ++ js " hours"
  else if (diffDays =? 1)%Z then js "tomorrow"
  else js "in " ++ number_to_string (num_of_Z diffDays) ++ js " days".

(** The calendar of the host: [getMonth], [getDate] and [getFullYear]. *)
Record calendar := Calendar {
  getMonth : date → Z;
  getDate : date → Z;
  getFullYear : date → Z
}.

(** [formatDateForFooter(date)] *)
Definition formatDateForFooter (cal : calendar) (date : date) : jstring :=
  let month := (getMonth cal date + 1)%Z in
  let dayOfMonth := getDate cal date in
  let year := getFullYear cal date in
  number_to_string (num_of_Z month) ++ js "/"
  ++ number_to_string (num_of_Z dayOfMonth) ++ js "/"
  ++ number_to_string (num_of_Z year).

Record sync_stats := SyncStats {
  totalRecords : value;
  lokSabhaRecords : value;
  rajyaSabhaRecords : value;
  allocations : value;
  expenditures : value;
  worksCompleted : value;
  worksRecommended : value;
  mps : value;
  syncDurationSeconds : value;
  dataQuality : value
}.

(** A document of the collection [data_sync_metadata]; [None] is [null]
    for a date and an absent property for a string. *)
Record metadata := MetadataDoc {
  lastUpdated : option date;
  lastUpdatedFormatted : jstring;
  nextUpdate : option date;
  nextUpdateFormatted : jstring;
  nextUpdateInfo : jstring;
  source : jstring;
  syncStats : sync_stats;
  updateFrequency : option jstring;
  version : option jstring;
  createdAt : option date;
  updatedAt : option date
}.

Definition portal_source : jstring := js "Official MPLADS Portal API".

(** [collection.findOne({ source })] *)
Definition findOne (src : jstring) (c : list metadata) : option metadata :=
  List.find (λ d, bool_decide (source d = src)) c.

(** [collection.replaceOne({ source }, doc, { upsert: true })] *)
Fixpoint replaceOne (src : jstring) (doc : metadata) (c : list metadata)
    : list metadata :=
  match c with
  | [] => [doc]
  | d :: r =>
      if bool_decide (source d = src) then doc :: r
      else d :: replaceOne src doc r
  end.

(** The collection holds at most one document of the source. *)
Definition single_source (src : jstring) (c : list metadata) : Prop :=
  (length (List.filter (λ d, bool_decide (source d = src)) c) ≤ 1)%nat.

(** [syncStats.name] *)
Definition stat (syncStats : gmap string value) (name : string) : value :=
  default VUndefined (syncStats !! name).

(** [process.env.UPDATE_FREQUENCY || 'daily'] *)
Definition update_frequency (UPDATE_FREQUENCY : option jstring) : jstring :=
  match UPDATE_FREQUENCY with
  | Some s => if to_boolean (VStr s) then s else js "daily"
  | None => js "daily"
  end.

(** [updateDataSyncMetadata(db, syncStats)]; [now], [nowNext] and [nowInfo]
    are the clock as read by the function itself, by [calculateNextUpdate]
    and by [formatNextUpdateInfo]. *)
Definition updateDataSyncMetadata (z : zone) (cal : calendar)
    (UPDATE_FREQUENCY : option jstring) (db : list metadata)
    (syncStats : gmap string value) (now nowNext nowInfo : date)
    : metadata * list metadata :=
  let nextUpdate :=
    calculateNextUpdate z nowNext (update_frequency UPDATE_FREQUENCY) in
  let metadata :=
    MetadataDoc (Some now) (formatDateForFooter cal now)
      (Some nextUpdate) (formatDateForFooter cal nextUpdate)
      (formatNextUpdateInfo nowInfo nextUpdate)
      portal_source
      (SyncStats
         (or_else (stat syncStats "totalRecords") (VNum (num_of_Z 0)))
         (or_else (stat syncStats "lokSabhaRecords") (VNum (num_of_Z 0)))
         (or_else (stat syncStats "rajyaSabhaRecords") (VNum (num_of_Z 0)))
         (or_else (stat syncStats "allocations") (VNum (num_of_Z 0)))
         (or_else (stat syncStats "expenditures") (VNum (num_of_Z 0)))
         (or_else (stat syncStats "worksCompleted") (VNum (num_of_Z 0)))
         (or_else (stat syncStats "worksRecommended") (VNum (num_of_Z 0)))
         (or_else (stat syncStats "mps") (VNum (num_of_Z 0)))
         (or_else (stat syncStats "duration") (VNum (num_of_Z 0)))
         (or_else (stat syncStats "dataQuality") (VNum (num_of_Z 100))))
      (Some (update_frequency UPDATE_FREQUENCY))
      (Some (js "1.0.0"))
      (Some now) (Some now) in
  (metadata, replaceOne portal_source metadata db).

(** [getDataSyncMetadata(db)] at the moment [now]. *)
Definition getDataSyncMetadata (db : list metadata) (now : date) : metadata :=
  match findOne portal_source db with
  | None =>
      MetadataDoc None (js "Never") None (js "TBD") (js "pending first sync")
        portal_source
        (SyncStats (VNum (num_of_Z 0)) VUndefined VUndefined VUndefined VUndefined
           VUndefined VUndefined VUndefined VUndefined VUndefined)
        None None None None
  | Some metadata =>
      match nextUpdate metadata with
      | Some d =>
          MetadataDoc (lastUpdated metadata) (lastUpdatedFormatted metadata)
            (nextUpdate metadata) (nextUpdateFormatted metadata)
            (formatNextUpdateInfo now d)
            (source metadata) (syncStats metadata) (updateFrequency metadata)
            (version metadata) (createdAt metadata) (updatedAt metadata)
      | None => metadata
      end
  end.

(** [shouldUpdateData(db)]; [nowInfo] is the clock as read on the way
    through [getDataSyncMetadata], [now] as read by the function itself. *)
Definition shouldUpdateData (db : list metadata) (nowInfo now : date) : bool :=
  let metadata := getDataSyncMetadata db nowInfo in
  match nextUpdate metadata with
  | None => true
  | Some nextUpdate => (getTime nextUpdate <=? getTime now)%Z
  end.

Record footer := Footer {
  footer_source : jstring;
  footer_lastUpdated : jstring;
  footer_nextUpdate : jstring;
  footer_totalRecords : value;
  footer_dataQuality : value;
  footer_updateFrequency : option jstring
}.

(** [createFooterDataResponse(metadata)] *)
Definition createFooterDataResponse (metadata : metadata) : footer :=
  Footer (source metadata) (lastUpdatedFormatted metadata)
    (nextUpdateInfo metadata) (totalRecords (syncStats metadata))
    (dataQuality (syncStats metadata)) (updateFrequency metadata).

End Metadata.

(** ** Report responses and session checks *)

Module Fetch.
Import Js Num Value ApiClient Extractor.

(** [JSON.parse] as the engine provides it: the value read, or the message
    of the SyntaxError. *)
Abbreviation parser := (jstring → jstring + json).

(** [typeof v] *)
Definition typeof (v : json) : jstring :=
  match v with
  | JUndefined => js "undefined"
  | JBool _ => js "boolean"
  | JNum _ => js "number"
  | JStr _ => js "string"
  | JNull | JArr _ | JObj _ => js "object"
  end.

(** [keyParam.replace(/%20/g, ' ')] *)
Fixpoint decode_spaces (s : jstring) : jstring :=
  match s with
  | [] => []
  | c1 :: t1 =>
      match t1 with
      | c2 :: c3 :: r =>
          if (c1 =? 0x25) && (c2 =? 0x32) && (c3 =? 0x30)
          then 0x20 :: decode_spaces r
          else c1 :: decode_spaces t1
      | _ => c1 :: decode_spaces t1
      end
  end.

(** The property name of the index [i]. *)
Definition index_key (i : nat) : jstring :=
  map digit_char (N_digits (N.of_nat i)).

(** [Object.keys(v)] for a truthy [v].  The fields of an object are listed
    in the order of enumeration, each name once. *)
Definition object_keys (v : json) : list jstring :=
  match v with
  | JObj fields => (λ kv, js kv.1) <$> fields
  | JStr s => imap (λ i _, index_key i) s
  | JArr items => imap (λ i _, index_key i) items
  | _ => []
  end.

Fixpoint field_by_key (key : jstring) (fields : list (string * json)) : json :=
  match fields with
  | [] => JUndefined
  | (k, v) :: r => if bool_decide (js k = key) then v else field_by_key key r
  end.

Fixpoint unit_by_key (key : jstring) (i : nat) (s : jstring) : json :=
  match s with
  | [] => JUndefined
  | c :: r => if bool_decide (index_key i = key) then JStr [c]
              else unit_by_key key (S i) r
  end.

(** [v[key]] for a truthy [v] that is not an array: a field of an object, a
    code unit of a string.  (Inherited names such as [length] are no report
    keys and read as [undefined].) *)
Definition get_key (v : json) (key : jstring) : json :=
  match v with
  | JObj fields => field_by_key key fields
  | JStr s => unit_by_key key 0 s
  | _ => JUndefined
  end.

(** The loose comparison of a key of the response with the key asked for. *)
Definition key_matches (expectedKey key : jstring) : bool :=
  includes (toLowerCase key) (toLowerCase expectedKey)
  || includes (toLowerCase expectedKey) (toLowerCase key).

(** The choice of [rawData]: the value under the exact key if it is truthy,
    else the value under the first key that matches loosely, else [null]. *)
Definition select_raw (response : json) (expectedKey : jstring) : json :=
  if json_truthy response && json_truthy (get_key response expectedKey)
  then get_key response expectedKey
  else if json_truthy response then
    match List.find (key_matches expectedKey) (object_keys response) with
    | Some key => get_key response key
    | None => JNull
    end
  else JNull.

Definition no_matching_key : jstring :=
  js "No matching data key found in API response".

(** What becomes of [rawData]. *)
Definition settle_raw (parse : parser) (rawData : json) : settled json :=
  match rawData with
  | JNull | JUndefined => Rejected no_matching_key
  | JStr t =>
      match parse t with
      | inl message => Rejected (js "Failed to parse API response: " ++ message)
      | inr (JArr rows) => Resolved (JArr rows)
      | inr other => Rejected (js "Expected array but got " ++ typeof other)
      end
  | JArr rows => Resolved (JArr rows)
  | _ => Rejected (js "Unexpected data format from API: expected string or array, got "
                   ++ typeof rawData)
  end.

(** The ['end'] handler of [fetchData]: from the body received to the
    settlement of the promise, for the request key [keyParam]. *)
Definition unwrap (parse : parser) (keyParam data : jstring) : settled json :=
  match parse data with
  | inl message => Rejected (js "Failed to parse API response: " ++ message)
  | inr response =>
      match response with
      | JArr rows => Resolved (JArr rows)
      | _ =>
          let parsedTop :=
            match response with
            | JStr t =>
                match parse t with
                | inr (JArr rows) => Some (JArr rows)
                | _ => None
                end
            | _ => None
            end in
          match parsedTop with
          | Some rows => Resolved rows
          | None => settle_raw parse (select_raw response (decode_spaces keyParam))
          end
      end
  end.

(** What the quick test request of [makeQuickTestCall] runs into. *)
Inductive quick_event :=
  | QuickEnd (statusCode : Z) (data : jstring)
  | QuickError
  | QuickTimeout
  | QuickSetupException.

(** [makeQuickTestCall()] *)
Definition makeQuickTestCall (parse : parser) (e : quick_event) : settled bool :=
  match e with
  | QuickEnd statusCode data =>
      if (statusCode =? 200)%Z then
        match parse data with
        | inl _ => Resolved false
        | inr response =>
            if json_truthy response && bool_decide (typeof response = js "object")
            then Resolved true
            else Resolved false
        end
      else Resolved false
  | QuickError | QuickTimeout | QuickSetupException => Resolved false
  end.

Definition has_cookies (c : client) : bool :=
  match sessionCookies c with
  | Some (_ :: _) => true
  | _ => false
  end.

(** [validateSession()] *)
Definition validateSession (parse : parser) (e : quick_event) (c : client)
    : settled bool :=
  if negb (has_cookies c) then Resolved false
  else
    match makeQuickTestCall parse e with
    | Resolved testData => Resolved testData
    | Rejected _ => Resolved false
    end.

(** [ensureValidSession()] *)
Definition ensureValidSession (parse : parser) (e : quick_event) (w : world)
    (c : client) : settled bool * client :=
  match validateSession parse e c with
  | Resolved true => (Resolved true, c)
  | Resolved false => initializeSession w c
  | Rejected message => (Rejected message, c)
  end.

(** One chamber's raw report lists. *)
Record house_data := HouseData {
  hd_works_completed : list json;
  hd_works_recommended : list json;
  hd_expenditure : list json;
  hd_allocated_limit : list json
}.

Definition no_data : house_data := HouseData [] [] [] [].

(** A request of [fetchData]: chamber, report kind, term. *)
Abbreviation request := (jstring * jstring * value)%type.

(** [results[dataType] = await fetchData(...)], an empty list if it fails. *)
Definition fetch_or_empty (fetch : request → settled (list json))
    (house dataType : jstring) (lsTerm : value) : list json :=
  match fetch (house, dataType, lsTerm) with
  | Resolved rows => rows
  | Rejected _ => []
  end.

(** [fetchAllDataForHouse(house, { lsTerm })]: the lists fetched and the
    requests made, in order. *)
Definition fetchAllDataForHouse (fetch : request → settled (list json))
    (house : jstring) (lsTerm : value) : house_data * list request :=
  (HouseData (fetch_or_empty fetch house (js "works_completed") lsTerm)
             (fetch_or_empty fetch house (js "works_recommended") lsTerm)
             (fetch_or_empty fetch house (js "expenditure") lsTerm)
             (fetch_or_empty fetch house (js "allocated_limit") lsTerm),
   [ (house, js "works_completed", lsTerm);
     (house, js "works_recommended", lsTerm);
     (house, js "expenditure", lsTerm);
     (house, js "allocated_limit", lsTerm) ]).

Record all_data := AllData {
  lok_sabha_18 : house_data;
  lok_sabha_17 : house_data;
  rajya_sabha_all : house_data;
  totalRecords : nat;
  lsTermOption : jstring
}.

Definition count_rows (d : house_data) : nat :=
  length (hd_works_completed d) + length (hd_works_recommended d)
  + length (hd_expenditure d) + length (hd_allocated_limit d).

(** [fetchAllData(lsTermOption)] once [ensureValidSession()] has answered
    [sessionReady]: the data returned and the requests made, in order. *)
Definition fetchAllData (sessionReady : bool)
    (fetch : request → settled (list json)) (lsTermOption : value)
    : settled all_data * list request :=
  if negb sessionReady
  then (Rejected (js "Failed to establish session for data fetch"), [])
  else
    let option := toLowerCase (ToString (or_else lsTermOption (VStr (js "both")))) in
    let '(lok18, req18) :=
      if bool_decide (option = js "18") || bool_decide (option = js "both")
      then fetchAllDataForHouse fetch (js "lok_sabha") (VStr (js "18"))
      else (no_data, []) in
    let '(lok17, req17) :=
      if bool_decide (option = js "17") || bool_decide (option = js "both")
      then fetchAllDataForHouse fetch (js "lok_sabha") (VStr (js "17"))
      else (no_data, []) in
    let '(rajya, reqRs) :=
      fetchAllDataForHouse fetch (js "rajya_sabha") (VStr (js "18")) in
    (Resolved (AllData lok18 lok17 rajya
                 (count_rows lok18 + count_rows lok17 + count_rows rajya) option),
     req18 ++ req17 ++ reqRs).

(** A parser that knows a few bodies. *)
Definition sample_parse : parser :=
  λ s, if bool_decide (s = js "{wrapped}") then
         inr (JObj [ ("status", JStr (js "ok"));
                     ("TOTAL WORKS COMPLETED (ALL)", JStr (js "[rows]")) ])
       else if bool_decide (s = js "{shadowed}") then
         inr (JObj [ ("", JNull);
                     ("total works completed", JStr (js "[rows]")) ])
       else if bool_decide (s = js "[rows]") then inr (JArr [JNum (num_of_Z 1)])
       else if bool_decide (s = js "{exact}") then
         inr (JObj [ ("total", JArr []);
                     ("Total Works Completed", JStr (js "[rows]")) ])
       else if bool_decide (s = js "{}") then inr (JObj [])
       else inl (js "Unexpected token").

End Fetch.

(** ** Configuration of the image extractor *)

Module Config.
Import Js Num Value.

(** [process.env[name]] *)
Definition env_var (env : gmap string jstring) (name : string) : value :=
  match env !! name with
  | Some s => VStr s
  | None => VUndefined
  end.

(** [parseInt(process.env[name]) || fallback] *)
Definition number_or (env : gmap string jstring) (name : string) (fallback : Z)
    : value :=
  or_else (VNum (parseInt (env_var env name))) (VNum (num_of_Z fallback)).

Record processing := Processing {
  batchSize : value;
  rateLimitDelay : value;
  maxConcurrentWorkers : value;
  enableThumbnails : bool;
  progressSummaryInterval : value
}.

(** [config.processing] *)
Definition processing_of (env : gmap string jstring) : processing :=
  Processing
    (number_or env "BATCH_SIZE" 10)
    (number_or env "RATE_LIMIT_DELAY" 5000)
    (number_or env "MAX_CONCURRENT_WORKERS" 1)
    (bool_decide (env_var env "ENABLE_THUMBNAILS" = VStr (js "true")))
    (number_or env "PROGRESS_SUMMARY_INTERVAL" 100).

Definition requiredVars : list string :=
  [ "MONGODB_URI"; "R2_ACCESS_KEY_ID"; "R2_SECRET_ACCESS_KEY"; "R2_ENDPOINT";
    "R2_BUCKET_NAME"; "MPLADS_BASE_URL"; "MPLADS_SESSION_COOKIE" ].

(** [requiredVars.filter(key => !process.env[key])]; the process exits when
    it is not empty. *)
Definition missing (env : gmap string jstring) : list string :=
  List.filter (λ key, negb (to_boolean (env_var env key))) requiredVars.

End Config.

(** * Properties *)

(** ** Report requests *)

Section combo_codes.
Import Js Num Value ApiClient.

Lemma houseCombo_rajya_sabha (lsTerm : value) :
  houseCombo (js "rajya_sabha") lsTerm = js "0%2C0%2C0%2C1".
Proof. reflexivity. Qed.

(** C6: whatever the report kind, the request of [fetchData] carries combo
    code [0,0,0,2] for Lok Sabha with term 18, [0,0,0,2,5] (the former with
    one more discriminator) for Lok Sabha with term 17, and [0,0,0,1] for
    Rajya Sabha whatever the term argument is. *)
Theorem combo_code_by_chamber (dataType : jstring) (lsTerm : value) :
  dataType ∈ report_kinds →
  combo_code (postData (js "lok_sabha") dataType (VStr (js "18")))
    = Some (js "0,0,0,2")
  ∧ combo_code (postData (js "lok_sabha") dataType (VStr (js "17")))
    = Some (js "0,0,0,2" ++ js ",5")
  ∧ combo_code (postData (js "rajya_sabha") dataType lsTerm)
    = Some (js "0,0,0,1").
Proof.
  intros Hk.
  assert (Hcases : dataType = js "works_completed" ∨ dataType = js "works_recommended"
                   ∨ dataType = js "expenditure" ∨ dataType = js "allocated_limit").
  { unfold report_kinds in Hk. vm_compute in Hk.
    repeat (apply elem_of_cons in Hk as [-> | Hk]; [ vm_compute; tauto | ]).
    by apply elem_of_nil in Hk. }
  unfold postData.
  destruct Hcases as [-> | [-> | [-> | ->]]];
    (split; [ by vm_compute | split; [ by vm_compute | ] ]);
    unfold combo_code; rewrite houseCombo_rajya_sabha; by vm_compute.
Qed.

Lemma combo_code_by_chamber_witness :
  js "expenditure" ∈ report_kinds
  ∧ combo_code (postData (js "lok_sabha") (js "expenditure") (VStr (js "17")))
    = Some (js "0,0,0,2,5").
Proof.
  assert (H : js "expenditure" ∈ report_kinds).
  { vm_compute. do 2 right. left. }
  split; [ exact H | ].
  exact (proj1 (proj2 (combo_code_by_chamber (js "expenditure") VNull H))).
Defined.

End combo_codes.

(** ** Session bootstrap *)

Section session_bootstrap.
Import Js Num Value ApiClient.

(** C3, as stated, fails: on a network error the promise of
    [initializeSession] is resolved (with [false]), it is not rejected with
    an error. *)
Lemma bootstrap_network_error_not_rejected :
  ¬ ∃ message,
      (initializeSession (a_world (RequestError (js "ECONNREFUSED"))) fresh_client).1
      = Rejected message.
Proof. intros [message H]. discriminate H. Qed.

(** C3, amended: when the portal returns no cookies, on a network error and
    on the 30-second timeout, [initializeSession] resolves to [false] and
    leaves the client as it was; in no case at all is its promise rejected.
    The failure only becomes an error in [fetchAllData], which abandons the
    cycle with a plain [Error] when no session could be established. *)
Theorem bootstrap_failure_resolves_false (w : world) (c : client) :
  (bootstrap_failure (portal w) → initializeSession w c = (Resolved false, c))
  ∧ (∀ message, (initializeSession w c).1 ≠ Rejected message)
  ∧ session_guard false = Rejected (js "Failed to establish session for data fetch").
Proof.
  split; [ | split; [ | reflexivity ] ].
  - intros Hf. unfold initializeSession.
    destruct Hf as [ | | status headers He | | ]; try reflexivity.
    destruct headers as [ | h t ]; [ reflexivity | ].
    by rewrite He.
  - intros message. unfold initializeSession.
    destruct (portal w) as [ status [ [ | h t ] | ] | | | ]; simpl; try discriminate.
    case_match; discriminate.
Qed.

Lemma bootstrap_failure_resolves_false_witness :
  bootstrap_failure (portal (a_world RequestTimeout))
  ∧ initializeSession (a_world RequestTimeout) fresh_client
    = (Resolved false, fresh_client).
Proof.
  assert (H : bootstrap_failure (portal (a_world RequestTimeout))) by constructor.
  split; [ exact H | ].
  exact (proj1 (bootstrap_failure_resolves_false (a_world RequestTimeout) fresh_client) H).
Defined.

End session_bootstrap.

(** ** Attachment lookup *)

Section attachment_lookup.
Import Js Num Value Extractor.

Lemma to_string_or_throw_Some (v : value) (s : jstring) :
  toString v = Some s → to_string_or_throw v = Normal s.
Proof. unfold to_string_or_throw. by intros ->. Qed.

(** C9: when the attachment-id endpoint fails with HTTP 404,
    [getAttachmentIds] returns the empty list instead of raising; when it
    fails with any other error, that error reaches the caller. *)
Theorem attachment_ids_not_found_is_empty
    (post : jstring → jstring → completion json) (workId flag : value)
    (f w : jstring) (error : js_error) :
  toString flag = Some f →
  toString workId = Some w →
  post f w = Throw error →
  (err_status error = Some 404%Z → getAttachmentIds post workId flag = Normal [])
  ∧ (err_status error ≠ Some 404%Z → getAttachmentIds post workId flag = Throw error).
Proof.
  intros Hf Hw Hp.
  unfold getAttachmentIds, attachment_ids_try.
  rewrite (to_string_or_throw_Some _ _ Hf), (to_string_or_throw_Some _ _ Hw).
  simpl. rewrite Hp. simpl.
  split; intros Hs.
  - by rewrite bool_decide_eq_true_2.
  - by rewrite bool_decide_eq_false_2.
Qed.

Lemma attachment_ids_not_found_is_empty_witness :
  getAttachmentIds (failing_endpoint 404) (VNum (num_of_Z 149239)) (VNum (num_of_Z 3))
    = Normal []
  ∧ getAttachmentIds (failing_endpoint 403) (VNum (num_of_Z 149239)) (VNum (num_of_Z 3))
    = Throw (JsError (Some (js "ERR_BAD_REQUEST")) (Some 403%Z) (Some (js "Request failed"))).
Proof.
  split.
  - refine (proj1 (attachment_ids_not_found_is_empty (failing_endpoint 404)
                     (VNum (num_of_Z 149239)) (VNum (num_of_Z 3))
                     (js "3") (js "149239") _ _ _ _) _);
      reflexivity.
  - refine (proj2 (attachment_ids_not_found_is_empty (failing_endpoint 403)
                     (VNum (num_of_Z 149239)) (VNum (num_of_Z 3))
                     (js "3") (js "149239") _ _ _ _) _);
      [ reflexivity | reflexivity | reflexivity | discriminate ].
Defined.

End attachment_lookup.

(** ** Next scheduled update *)

Section next_update.
Import Js Metadata.

Lemma WeekDay_range (t : Z) : (0 ≤ WeekDay t < 7)%Z.
Proof. unfold WeekDay. apply Z.mod_pos_bound. lia. Qed.

Lemma getDay_range (z : zone) (d : date) : (0 ≤ getDay z d < 7)%Z.
Proof. apply WeekDay_range. Qed.

Lemma daysUntilMonday_cases (g : Z) :
  (0 ≤ g < 7)%Z →
  daysUntilMonday g = if (g =? 1)%Z then 7%Z else ((8 - g) mod 7)%Z.
Proof.
  intros Hg.
  assert (Hcases : (g = 0 ∨ g = 1 ∨ g = 2 ∨ g = 3 ∨ g = 4 ∨ g = 5 ∨ g = 6)%Z) by lia.
  destruct Hcases as [-> | [-> | [-> | [-> | [-> | [-> | ->]]]]]]; reflexivity.
Qed.

Lemma calculateNextUpdate_weekly (z : zone) (now : date) :
  calculateNextUpdate z now (js "weekly")
  = setHours z (add_days z now (daysUntilMonday (getDay z now))) 2.
Proof. reflexivity. Qed.

Lemma calculateNextUpdate_other (z : zone) (now : date) (frequency : jstring) :
  toLowerCase frequency ∉ [js "daily"; js "weekly"; js "bi-weekly"] →
  calculateNextUpdate z now frequency = setHours z (add_days z now 1) 2.
Proof.
  intros Hf. unfold calculateNextUpdate.
  repeat case_bool_decide; try reflexivity; exfalso; apply Hf;
    match goal with H : toLowerCase frequency = _ |- _ => rewrite H end;
    repeat ((by left) || right).
Qed.

(** Where the offset never changes, moving on by [n] days and setting the
    hour gives that hour of the local day [n] days on. *)
Lemma shift_fixed (z : zone) (offset : Z) (d : date) (n h : Z) :
  (∀ t isUTC, LocalTZA z t isUTC = offset) →
  (0 ≤ h < 24)%Z →
  LocalTime z (getTime (setHours z (add_days z d n) h))
  = MakeDate (Day (LocalTime z (getTime d)) + n) (h * 3600000).
Proof.
  intros Hz Hh. unfold setHours, add_days, LocalTime, UTC. cbn [getTime].
  rewrite !Hz. unfold MakeDate, Day, TimeWithinDay, msPerDay.
  remember (getTime d + offset)%Z as t eqn:Ht.
  replace ((t / 86400000 + n) * 86400000 + t mod 86400000 - offset + offset)%Z
    with (t + n * 86400000)%Z by (Z.div_mod_to_equations; lia).
  replace ((t + n * 86400000) / 86400000 * 86400000 + h * 3600000 - offset + offset)%Z
    with ((t + n * 86400000) / 86400000 * 86400000 + h * 3600000)%Z by lia.
  f_equal. f_equal. Z.div_mod_to_equations. lia.
Qed.

Lemma Day_MakeDate (day time : Z) :
  (0 ≤ time < msPerDay)%Z →
  Day (MakeDate day time) = day ∧ TimeWithinDay (MakeDate day time) = time.
Proof.
  unfold Day, TimeWithinDay, MakeDate, msPerDay. intros H.
  split; Z.div_mod_to_equations; lia.
Qed.

(** C7, as stated, fails where clocks are set forward over 02:00: in New
    York, asked on Saturday 7 March 2026 at noon, "daily" returns Sunday
    8 March at 03:00 local time, since 02:00 does not exist on that day. *)
Lemma next_update_skipped_hour :
  LocalTime new_york_spring
    (getTime (calculateNextUpdate new_york_spring
                (local_instant new_york_spring 20519 43200000) (js "daily")))
  = MakeDate 20520 10800000
  ∧ ¬ (∀ z now,
         TimeWithinDay (LocalTime z (getTime (calculateNextUpdate z now (js "daily"))))
         = two_am).
Proof.
  assert (H : LocalTime new_york_spring
                (getTime (calculateNextUpdate new_york_spring
                            (local_instant new_york_spring 20519 43200000)
                            (js "daily")))
              = MakeDate 20520 10800000) by (by vm_compute).
  split; [ exact H | ].
  intros Hall.
  specialize (Hall new_york_spring (local_instant new_york_spring 20519 43200000)).
  rewrite H in Hall. vm_compute in Hall. discriminate Hall.
Qed.

(** C7, amended: in a time zone whose offset from UTC never changes,
    [calculateNextUpdate] with "weekly" returns the first Monday after the
    current local day, at 02:00:00.000 local time, whatever the current day
    of the week is; it lies a full 7 days ahead exactly when the current day
    is a Monday, so from a Wednesday it is 5 days ahead.  "daily" gives the
    next day at 02:00, "bi-weekly" the day 14 days ahead at 02:00, and a
    frequency that is none of the three behaves like "daily". *)
Theorem next_update_schedule (z : zone) (now : date) :
  fixed_offset z →
  let local := λ d, LocalTime z (getTime d) in
  let weekly := calculateNextUpdate z now (js "weekly") in
  getDay z weekly = 1%Z ∧ TimeWithinDay (local weekly) = two_am
  ∧ (Day (local now) < Day (local weekly) ≤ Day (local now) + 7)%Z
  ∧ (Day (local weekly) = (Day (local now) + 7)%Z ↔ getDay z now = 1%Z)
  ∧ (getDay z now = 3%Z → Day (local weekly) = (Day (local now) + 5)%Z)
  ∧ local (calculateNextUpdate z now (js "daily"))
    = MakeDate (Day (local now) + 1) two_am
  ∧ local (calculateNextUpdate z now (js "bi-weekly"))
    = MakeDate (Day (local now) + 14) two_am
  ∧ (∀ frequency,
       toLowerCase frequency ∉ [js "daily"; js "weekly"; js "bi-weekly"] →
       calculateNextUpdate z now frequency = calculateNextUpdate z now (js "daily")).
Proof.
  intros [offset Hz] local weekly. subst local weekly. cbv beta.
  assert (H2 : (0 ≤ 2 < 24)%Z) by lia.
  assert (Ham : (0 ≤ two_am < msPerDay)%Z) by (by vm_compute).
  rewrite calculateNextUpdate_weekly.
  unfold getDay at 1. rewrite (shift_fixed z offset now _ 2 Hz H2).
  change (2 * 3600000)%Z with two_am.
  pose proof (getDay_range z now) as Hg.
  rewrite (daysUntilMonday_cases _ Hg).
  unfold WeekDay.
  destruct (Day_MakeDate (Day (LocalTime z (getTime now))
                          + (if (getDay z now =? 1)%Z then 7
                             else (8 - getDay z now) mod 7)) two_am Ham)
    as [-> ->].
  assert (Hgd : getDay z now = ((Day (LocalTime z (getTime now)) + 4) mod 7)%Z)
    by reflexivity.
  remember (Day (LocalTime z (getTime now))) as D eqn:HD.
  remember (getDay z now) as g eqn:Hgg.
  split_and!.
  - destruct (Z.eqb_spec g 1); Z.div_mod_to_equations; lia.
  - reflexivity.
  - destruct (Z.eqb_spec g 1); Z.div_mod_to_equations; lia.
  - destruct (Z.eqb_spec g 1); Z.div_mod_to_equations; lia.
  - destruct (Z.eqb_spec g 1); split; intros; Z.div_mod_to_equations; lia.
  - intros ->. reflexivity.
  - rewrite HD. exact (shift_fixed z offset now 1 2 Hz H2).
  - rewrite HD. exact (shift_fixed z offset now 14 2 Hz H2).
  - intros frequency Hf. by rewrite (calculateNextUpdate_other z now frequency Hf).
Qed.

Lemma next_update_schedule_witness :
  fixed_offset india
  ∧ getDay india (local_instant india 20761 40000000) = 3%Z
  ∧ LocalTime india
      (getTime (calculateNextUpdate india (local_instant india 20761 40000000)
                  (js "weekly")))
    = MakeDate 20766 two_am
  ∧ (toLowerCase (js "Monthly") ∉ [js "daily"; js "weekly"; js "bi-weekly"])
  ∧ calculateNextUpdate india (local_instant india 20761 40000000) (js "Monthly")
    = local_instant india 20762 two_am.
Proof.
  assert (Hz : fixed_offset india) by (by exists 19800000%Z).
  assert (Hw : getDay india (local_instant india 20761 40000000) = 3%Z) by reflexivity.
  assert (Hf : toLowerCase (js "Monthly") ∉ [js "daily"; js "weekly"; js "bi-weekly"]).
  { vm_compute. intros H.
    repeat (apply elem_of_cons in H as [H | H]; [ discriminate H | ]).
    by apply elem_of_nil in H. }
  pose proof (next_update_schedule india (local_instant india 20761 40000000) Hz)
    as (_ & _ & _ & _ & _ & _ & _ & Ho).
  split; [ exact Hz | ]. split; [ exact Hw | ]. split; [ by vm_compute | ].
  split; [ exact Hf | ].
  rewrite (Ho (js "Monthly") Hf). by vm_compute.
Defined.

End next_update.

(** ** Upload and existence probe *)

Section object_storage.
Import Js Num Value Storage.

Lemma probe_reads_probe_key (b : bucket) (workId : value) (phase : jstring)
    (attachmentId : value) :
  imageExistsInR2 None b workId phase attachmentId
  = inr (bool_decide (is_Some (b !! probe_key workId phase attachmentId))).
Proof.
  unfold imageExistsInR2, send_head. fold (probe_key workId phase attachmentId).
  destruct (b !! probe_key workId phase attachmentId) as [o | ] eqn:Hl.
  - rewrite bool_decide_eq_true_2; [ reflexivity | by eexists ].
  - rewrite bool_decide_eq_true_2 by reflexivity.
    rewrite bool_decide_eq_false_2; [ reflexivity | ].
    intros [o Ho]. discriminate Ho.
Qed.

(** An upload whose file name ends in [.jpg] (or has an empty extension) is
    found by the probe. *)
Lemma jpg_upload_is_found_by_probe (publicDomain : jstring) (b b' : bucket)
    (workId : value) (phase : jstring) (attachmentId : value)
    (imageBuffer : list N) (fileName : jstring) (r : upload_result) :
  file_extension fileName = js "jpg" →
  uploadImageToR2 publicDomain None b workId phase attachmentId imageBuffer fileName
    = (inr r, b') →
  imageExistsInR2 None b' workId phase attachmentId = inr true.
Proof.
  intros Hext Hup. rewrite probe_reads_probe_key.
  unfold uploadImageToR2 in Hup. rewrite Hext in Hup.
  fold (probe_key workId phase attachmentId) in Hup.
  destruct (toString workId), (toString attachmentId); simpl in Hup;
    try discriminate Hup.
  injection Hup as _ <-.
  rewrite bool_decide_eq_true_2; [ reflexivity | ].
  rewrite lookup_insert_eq. by eexists.
Qed.

(** C2 at a PNG attachment: the upload succeeds and stores the bytes under
    [works/149239/completed/7_original.png]; the probe for the same work,
    phase and attachment reads [works/149239/completed/7_original.jpg] and
    answers [false]. *)
Theorem png_upload_is_not_found_by_probe :
  ∃ r b,
    uploadImageToR2 (js "images.example.org") None ∅
      (VNum (num_of_Z 149239)) (js "completed") (VNum (num_of_Z 7))
      [0x89; 0x50; 0x4E; 0x47] (js "site-visit.png") = (inr r, b)
    ∧ r2Key r = js "works/149239/completed/7_original.png"
    ∧ imageExistsInR2 None b
        (VNum (num_of_Z 149239)) (js "completed") (VNum (num_of_Z 7)) = inr false.
Proof.
  eexists _, _. split; [ reflexivity | ]. split; [ reflexivity | ].
  rewrite probe_reads_probe_key.
  rewrite lookup_insert_ne by (vm_compute; discriminate).
  rewrite lookup_empty. rewrite bool_decide_eq_false_2; [ reflexivity | ].
  intros [o Ho]. discriminate Ho.
Qed.

End object_storage.

(** ** Download with retry *)

Section download_retry.
Import Js Num Value Extractor.

Lemma retryable_code_spec (error : js_error) :
  match err_code error with
  | Some c => bool_decide (c ∈ retryableErrors)
  | None => false
  end = true
  ↔ ∃ c, err_code error = Some c ∧ c ∈ retryableErrors.
Proof.
  destruct (err_code error) as [c | ]; split.
  - intros H%bool_decide_eq_true. by exists c.
  - intros (c' & [= <-] & Hin). by apply bool_decide_eq_true.
  - discriminate.
  - intros (c' & Hc & _). discriminate Hc.
Qed.

Lemma server_status_spec (error : js_error) :
  valid_status error →
  match err_status error with
  | Some st => (500 <=? st)%Z
  | None => false
  end = true
  ↔ http_5xx error.
Proof.
  intros Hv. unfold http_5xx.
  destruct (err_status error) as [st | ] eqn:Hst; split.
  - intros H. exists st. split; [ done | ]. specialize (Hv st Hst). lia.
  - intros (st' & [= <-] & H). lia.
  - discriminate.
  - intros (st' & H & _). discriminate H.
Qed.

Lemma isRetryableError_classes (error : js_error) :
  valid_status error →
  isRetryableError error = true
  ↔ network_class error ∨ http_5xx error ∨ http_429 error.
Proof.
  intros Hv. unfold isRetryableError, network_class, http_429.
  rewrite <- (server_status_spec error Hv), <- retryable_code_spec.
  destruct (match err_code error with
            | Some c => bool_decide (c ∈ retryableErrors) | None => false end);
    [ tauto | ].
  destruct (match err_status error with
            | Some st => (500 <=? st)%Z | None => false end);
    [ tauto | ].
  case_bool_decide as H4; [ tauto | ].
  destruct (message_includes error (js "timeout")); [ tauto | ].
  destruct (message_includes error (js "ECONNRESET")); [ tauto | ].
  split; [ discriminate | ].
  intros [ [ H | [ H | H ] ] | [ H | H ] ]; done.
Qed.

Lemma exponential_doubles (attempt : nat) :
  (exponential 1 == 2000)%Q
  ∧ (exponential (S (S attempt)) == 2 * exponential (S attempt))%Q.
Proof.
  unfold exponential. split; [ reflexivity | ].
  replace (Z.of_nat (S (S attempt)) - 1)%Z with (Z.succ (Z.of_nat (S attempt) - 1)) by lia.
  rewrite Z.pow_succ_r by lia.
  rewrite inject_Z_mult. ring.
Qed.

Lemma calculateDelay_bounds (random : Q) (attempt : nat) :
  (0 <= random)%Q → (random < 1)%Q →
  (calculateDelay random attempt <= 10000)%Q
  ∧ (calculateDelay random attempt <= exponential attempt * (11 # 10))%Q
  ∧ ((exponential attempt <= 10000)%Q →
     (exponential attempt <= calculateDelay random attempt)%Q).
Proof.
  intros H0 H1. unfold calculateDelay, baseDelay, maxDelay.
  fold (exponential attempt).
  assert (He : (0 <= exponential attempt)%Q).
  { unfold exponential. apply Qmult_le_0_compat; [ discriminate | ].
    change 0%Q with (inject_Z 0). rewrite <- Zle_Qle.
    apply Z.pow_nonneg. lia. }
  set (E := exponential attempt) in *.
  assert (Hj : (0 <= random * (1 # 10) * E)%Q) by nra.
  assert (Hj' : (random * (1 # 10) * E <= (1 # 10) * E)%Q) by nra.
  split; [ apply Q.le_min_r | ].
  split.
  - apply Qle_trans with (E + random * (1 # 10) * E)%Q; [ apply Q.le_min_l | lra ].
  - intros Hcap. apply Q.min_glb; lra.
Qed.

Lemma download_loop_unfold (post : nat → jstring → completion json)
    (bufferFrom : json → completion (list N)) (random : nat → Q)
    (b : jstring) (lastError : option js_error) (remaining attempt : nat) :
  download_loop post bufferFrom random (Normal b) lastError (S remaining) attempt
  = match download_try (post attempt b) bufferFrom with
    | Normal r => Run (Normal r) [] 1
    | Throw error =>
        if negb (isRetryableError error) then Run (Throw error) [] 1
        else if bool_decide (attempt = maxRetries) then Run (Throw error) [] 1
        else
          let rest := download_loop post bufferFrom random (Normal b) (Some error)
                        remaining (S attempt) in
          Run (outcome rest) (calculateDelay (random attempt) attempt :: sleeps rest)
            (1 + posts rest)
    end.
Proof. reflexivity. Qed.

(** C5: [downloadImageData] makes at most 3 attempts.  A failed attempt is
    followed by another one exactly when its error is retryable, and an
    error is retryable exactly when it is of network class, an HTTP 5xx or
    an HTTP 429; any other error is raised at once.  Before each retry it
    sleeps for the exponential delay (2 s for the first attempt, doubling
    with each further one) plus a jitter of at most 10%, never more than
    10 s.  When all 3 attempts fail, the error raised is that of the last
    attempt. *)
Theorem download_retry_policy
    (post : nat → jstring → completion json)
    (bufferFrom : json → completion (list N)) (random : nat → Q)
    (attachmentId : value) (b : jstring) :
  toString attachmentId = Some b →
  (∀ k, (0 <= random k)%Q ∧ (random k < 1)%Q) →
  let attempt := λ k, download_try (post k b) bufferFrom in
  let r := downloadImageData post bufferFrom random attachmentId in
  (∀ error, valid_status error →
     isRetryableError error = true
     ↔ network_class error ∨ http_5xx error ∨ http_429 error)
  ∧ (1 ≤ posts r ≤ 3)%nat
  ∧ length (sleeps r) = (posts r - 1)%nat
  ∧ (∀ k d, sleeps r !! k = Some d →
       (exponential (S k) <= d)%Q
       ∧ (d <= exponential (S k) * (11 # 10))%Q
       ∧ (d <= 10000)%Q)
  ∧ (∀ k, (exponential 1 == 2000)%Q
          ∧ (exponential (S (S k)) == 2 * exponential (S k))%Q)
  ∧ (∀ e, attempt 1%nat = Throw e → isRetryableError e = false →
       outcome r = Throw e ∧ posts r = 1%nat)
  ∧ (∀ e1, attempt 1%nat = Throw e1 → isRetryableError e1 = true →
       (2 ≤ posts r)%nat
       ∧ (∀ e, attempt 2%nat = Throw e → isRetryableError e = false →
            outcome r = Throw e ∧ posts r = 2%nat)
       ∧ (∀ e2, attempt 2%nat = Throw e2 → isRetryableError e2 = true →
            posts r = 3%nat ∧ outcome r = attempt 3%nat)).
Proof.
  intros Hb Hrandom attempt r.
  split; [ exact isRetryableError_classes | ].
  assert (Hdelay : ∀ k d, (k < 2)%nat →
            d = calculateDelay (random (S k)) (S k) →
            (exponential (S k) <= d)%Q
            ∧ (d <= exponential (S k) * (11 # 10))%Q ∧ (d <= 10000)%Q).
  { intros k d Hk ->.
    destruct (Hrandom (S k)) as [H0 H1].
    destruct (calculateDelay_bounds (random (S k)) (S k) H0 H1) as (Hcap & Hup & Hlow).
    split; [ | split; [ exact Hup | exact Hcap ] ].
    apply Hlow. destruct k as [ | [ | k ] ]; [ | | lia ]; by vm_compute. }
  assert (Hnil : ∀ k d, @nil Q !! k = Some d →
            (exponential (S k) <= d)%Q
            ∧ (d <= exponential (S k) * (11 # 10))%Q ∧ (d <= 10000)%Q).
  { intros k d Hk. by rewrite lookup_nil in Hk. }
  assert (Hone : ∀ k d, [calculateDelay (random 1%nat) 1] !! k = Some d →
            (exponential (S k) <= d)%Q
            ∧ (d <= exponential (S k) * (11 # 10))%Q ∧ (d <= 10000)%Q).
  { intros [ | k ] d Hk; simpl in Hk; [ | by rewrite lookup_nil in Hk ].
    injection Hk as <-. by apply Hdelay; [ lia | ]. }
  assert (Htwo : ∀ k d,
            [calculateDelay (random 1%nat) 1; calculateDelay (random 2%nat) 2] !! k = Some d →
            (exponential (S k) <= d)%Q
            ∧ (d <= exponential (S k) * (11 # 10))%Q ∧ (d <= 10000)%Q).
  { intros [ | [ | k ] ] d Hk; simpl in Hk;
      [ | | by rewrite lookup_nil in Hk ];
      injection Hk as <-; by apply Hdelay; [ lia | ]. }
  subst r attempt. unfold downloadImageData, maxRetries.
  rewrite (to_string_or_throw_Some _ _ Hb).
  rewrite download_loop_unfold.
  destruct (download_try (post 1%nat b) bufferFrom) as [r1 | e1] eqn:H1.
  { simpl. split_and!; [ lia | lia | reflexivity | exact Hnil
                       | exact exponential_doubles | discriminate | discriminate ]. }
  destruct (isRetryableError e1) eqn:R1; cbn [negb];
    [ rewrite bool_decide_eq_false_2 by (unfold maxRetries; lia); cbv zeta | ].
  2:{ simpl. split_and!; [ lia | lia | reflexivity | exact Hnil | exact exponential_doubles | | ].
      - intros e [= <-] _. done.
      - intros e [= <-] R. congruence. }
  rewrite download_loop_unfold.
  destruct (download_try (post 2%nat b) bufferFrom) as [r2 | e2] eqn:H2.
  { simpl. split_and!; [ lia | lia | reflexivity | exact Hone | exact exponential_doubles | | ].
    - intros e [= <-] R. congruence.
    - intros e _ _. split_and!; [ lia | discriminate | discriminate ]. }
  destruct (isRetryableError e2) eqn:R2; cbn [negb];
    [ rewrite bool_decide_eq_false_2 by (unfold maxRetries; lia); cbv zeta | ].
  2:{ simpl. split_and!; [ lia | lia | reflexivity | exact Hone | exact exponential_doubles | | ].
      - intros e [= <-] R. congruence.
      - intros e _ _. split_and!; [ lia | | ].
        + intros e' [= <-] _. done.
        + intros e' [= <-] R. congruence. }
  rewrite download_loop_unfold.
  assert (Hlast : ∀ o : run,
            posts o = 1%nat → sleeps o = [] →
            outcome o = download_try (post 3%nat b) bufferFrom →
            let r := Run (outcome o)
                       (calculateDelay (random 1%nat) 1%nat
                        :: calculateDelay (random 2%nat) 2%nat :: sleeps o)
                       (1 + (1 + posts o)) in
            (1 ≤ posts r ≤ 3)%nat
            ∧ length (sleeps r) = (posts r - 1)%nat
            ∧ (∀ k d, sleeps r !! k = Some d →
                 (exponential (S k) <= d)%Q
                 ∧ (d <= exponential (S k) * (11 # 10))%Q ∧ (d <= 10000)%Q)
            ∧ (∀ k, (exponential 1 == 2000)%Q
                    ∧ (exponential (S (S k)) == 2 * exponential (S k))%Q)
            ∧ (∀ e, Throw (A := image_data) e1 = Throw e → isRetryableError e = false →
                 outcome r = Throw e ∧ posts r = 1%nat)
            ∧ (∀ e1', Throw (A := image_data) e1 = Throw e1' → isRetryableError e1' = true →
                 (2 ≤ posts r)%nat
                 ∧ (∀ e, Throw (A := image_data) e2 = Throw e → isRetryableError e = false →
                      outcome r = Throw e ∧ posts r = 2%nat)
                 ∧ (∀ e2', Throw (A := image_data) e2 = Throw e2' → isRetryableError e2' = true →
                      posts r = 3%nat ∧ outcome r = download_try (post 3%nat b) bufferFrom))).
  { intros o Hp Hs Ho r. subst r. simpl. rewrite Hp, Hs.
    split_and!; [ lia | lia | reflexivity | exact Htwo | exact exponential_doubles | | ].
    - intros e [= <-] R. congruence.
    - intros e _ _. split_and!; [ lia | | ].
      + intros e' [= <-] R. congruence.
      + intros e' _ _. done. }
  destruct (download_try (post 3%nat b) bufferFrom) as [r3 | e3] eqn:H3.
  { by apply (Hlast (Run (Normal r3) [] 1)). }
  destruct (isRetryableError e3) eqn:R3; cbn [negb].
  - rewrite bool_decide_eq_true_2 by reflexivity.
    by apply (Hlast (Run (Throw e3) [] 1)).
  - by apply (Hlast (Run (Throw e3) [] 1)).
Qed.

Lemma download_retry_policy_witness :
  let r := downloadImageData flaky_endpoint no_buffer (λ _, 1 # 2)%Q
             (VNum (num_of_Z 42)) in
  toString (VNum (num_of_Z 42)) = Some (js "42")
  ∧ (∀ k : nat, (0 <= 1 # 2)%Q ∧ (1 # 2 < 1)%Q)
  ∧ posts r = 3%nat
  ∧ outcome r = Throw (JsError None (Some 429%Z)
                         (Some (js "Request failed with status code 429"))).
Proof.
  intros r.
  assert (Hb : toString (VNum (num_of_Z 42)) = Some (js "42")) by reflexivity.
  assert (Hr : ∀ k : nat, (0 <= 1 # 2)%Q ∧ (1 # 2 < 1)%Q).
  { intros _. split; [ discriminate | reflexivity ]. }
  split; [ exact Hb | ]. split; [ exact Hr | ].
  destruct (download_retry_policy flaky_endpoint no_buffer (λ _, 1 # 2)%Q
              (VNum (num_of_Z 42)) (js "42") Hb Hr)
    as (_ & _ & _ & _ & _ & _ & Hretry).
  destruct (Hretry _ eq_refl eq_refl) as (_ & _ & Hlast).
  exact (Hlast _ eq_refl eq_refl).
Defined.

End download_retry.

(** ** Completed and recommended works *)

Section deduplication.
Import Js Num Value Transformer.

Lemma parseIndianNumber_total (str : value) : is_Some (parseIndianNumber str).
Proof.
  unfold parseIndianNumber.
  destruct str as [ | | b | x | s ]; try (by eexists);
    cbn [toString mbind option_bind]; repeat case_match; by eexists.
Qed.

Lemma mapM_imap_total {A B} (f : nat → A → option B) (l : list A) :
  (∀ i x, is_Some (f i x)) → is_Some (mapM id (imap f l)).
Proof.
  intros Hf. apply mapM_is_Some, Forall_lookup.
  intros i y Hy. rewrite list_lookup_imap in Hy.
  destruct (l !! i) as [x | ]; [ | discriminate ].
  injection Hy as <-. apply Hf.
Qed.

Lemma mapM_imap_elem {A B} (f : nat → A → option B) (l : list A)
    (k : list B) (y : B) :
  mapM id (imap f l) = Some k → y ∈ k →
  ∃ i x, l !! i = Some x ∧ f i x = Some y.
Proof.
  intros Hm Hy. apply mapM_Some in Hm.
  apply list_elem_of_lookup in Hy as [j Hj].
  destruct (Forall2_lookup_r _ _ _ _ _ Hm Hj) as (o & Ho & Hoy).
  rewrite list_lookup_imap in Ho.
  destruct (l !! j) as [x | ] eqn:Hx; [ | discriminate ].
  injection Ho as <-. by exists j, x.
Qed.

Lemma lookup_filter_holds {A} (p : A → bool) (l : list A) (i : nat) (x : A) :
  List.filter p l !! i = Some x → p x = true.
Proof.
  intros Hx.
  assert (Hin : x ∈ List.filter p l) by (apply list_elem_of_lookup; eauto).
  apply list_elem_of_In, filter_In in Hin. tauto.
Qed.

Lemma completed_map_inv (house : jstring) (lsTerm : value) (index : nat)
    (record : raw_record) (c : completed_work) :
  completed_map house lsTerm index record = Some c →
  ∃ description amount,
    workDescription record = Some description
    ∧ parseIndianNumber (field record "ACTUAL_AMOUNT") = Some amount
    ∧ c = CompletedWork (serial record index) (field record "WORK_CATEGORY")
            (work_id record) (field record "STATE_NAME") (field record "IDA_NAME")
            description (field record "MP_NAME") (has_image record) amount
            house (term_of house lsTerm).
Proof.
  unfold completed_map. intros H.
  destruct (workDescription record) as [description | ]; [ | discriminate ].
  cbn [mbind option_bind] in H.
  destruct (parseIndianNumber _) as [amount | ]; [ | discriminate ].
  injection H as <-. by eexists _, _.
Qed.

Lemma recommended_map_inv (house : jstring) (lsTerm : value) (index : nat)
    (record : raw_record) (r : recommended_work) :
  recommended_map house lsTerm index record = Some r →
  ∃ description amount,
    workDescription record = Some description
    ∧ parseIndianNumber (field record "RECOMMENDED_AMOUNT") = Some amount
    ∧ r = RecommendedWork (serial record index) (field record "WORK_CATEGORY")
            (work_id record) (field record "STATE_NAME") (field record "IDA_NAME")
            (field record "MP_NAME") description (has_image record) amount
            house (term_of house lsTerm).
Proof.
  unfold recommended_map. intros H.
  destruct (workDescription record) as [description | ]; [ | discriminate ].
  cbn [mbind option_bind] in H.
  destruct (parseIndianNumber _) as [amount | ]; [ | discriminate ].
  injection H as <-. by eexists _, _.
Qed.

(** Every completed work has a truthy id. *)
Lemma completed_ids_truthy (apiData : list raw_record) (house : jstring)
    (lsTerm : value) (comp : list completed_work) (c : completed_work) :
  transformWorksCompleted apiData house lsTerm = Some comp →
  c ∈ comp → truthy (c_workId c) = true.
Proof.
  intros Ht Hc.
  destruct (mapM_imap_elem _ _ _ _ Ht Hc) as (i & record & Hrec & Hmap).
  apply lookup_filter_holds in Hrec.
  apply completed_map_inv in Hmap as (description & amount & _ & _ & ->).
  cbn [c_workId].
  unfold completed_filter in Hrec. unfold work_id.
  repeat case_match; try discriminate; try reflexivity.
  simpl in *. congruence.
Qed.

(** No recommended work carries an id held by the set it was filtered
    against. *)
Lemma recommended_ids_fresh (apiData : list raw_record) (house : jstring)
    (lsTerm : value) (completedWorkIds : gset number)
    (recs : list recommended_work) (r : recommended_work) :
  transformWorksRecommended apiData house lsTerm completedWorkIds = Some recs →
  r ∈ recs → set_has completedWorkIds (r_workId r) = false.
Proof.
  intros Ht Hr.
  destruct (mapM_imap_elem _ _ _ _ Ht Hr) as (i & record & Hrec & Hmap).
  apply lookup_filter_holds in Hrec.
  apply recommended_map_inv in Hmap as (description & amount & _ & _ & ->).
  cbn [r_workId].
  unfold recommended_filter in Hrec. unfold work_id.
  destruct (valid_names record); [ | discriminate ]. simpl in Hrec.
  destruct (truthy (parseInt (field record "WORK_RECOMMENDATION_DTL_ID")));
    [ | discriminate ].
  destruct (set_has completedWorkIds _); [ discriminate | reflexivity ].
Qed.

Lemma transform_house_parts (data : raw_works) (house : jstring)
    (lsTerm : value) (w : works) :
  transform_house data house lsTerm = Some w →
  transformWorksCompleted (works_completed data) house lsTerm = Some (completed w)
  ∧ transformWorksRecommended (works_recommended data) house lsTerm
      (set_of (List.filter truthy (c_workId <$> completed w)))
    = Some (recommended w).
Proof.
  unfold transform_house. intros H.
  destruct (transformAllocatedLimit _ _ _) as [alloc | ]; [ | discriminate ].
  cbn [mbind option_bind] in H.
  destruct (transformExpenditure _ _ _) as [spent | ]; [ | discriminate ].
  cbn [mbind option_bind] in H.
  destruct (transformWorksCompleted _ _ _) as [comp | ]; [ | discriminate ].
  cbn [mbind option_bind] in H.
  destruct (transformWorksRecommended _ _ _ _) as [recs | ] eqn:Hr; [ | discriminate ].
  cbn [mbind option_bind] in H. injection H as <-. by split.
Qed.

Lemma transform_house_dedup (data : raw_works) (house : jstring) (lsTerm : value)
    (w : works) :
  transform_house data house lsTerm = Some w →
  ∀ r, r ∈ recommended w → r_workId r ∉ c_workId <$> completed w.
Proof.
  intros Hw. apply transform_house_parts in Hw as [Hcomp Hrecs].
  intros r Hr Hin.
  apply list_elem_of_fmap in Hin as (c & Heq & Hc).
  pose proof (recommended_ids_fresh _ _ _ _ _ _ Hrecs Hr) as Hfresh.
  pose proof (completed_ids_truthy _ _ _ _ _ Hcomp Hc) as Htruthy.
  unfold set_has in Hfresh. apply bool_decide_eq_false in Hfresh.
  apply Hfresh. unfold set_of.
  apply elem_of_list_to_set, list_elem_of_fmap.
  exists (c_workId c). split; [ by rewrite Heq | ].
  apply list_elem_of_In, filter_In. split; [ | exact Htruthy ].
  apply list_elem_of_In, list_elem_of_fmap. by exists c.
Qed.

Lemma transformAllData_parts (apiData : api_data) (options : raw_record)
    (res : results) :
  transformAllData apiData options = Some res →
  transform_house (lok_sabha apiData) (js "Lok Sabha")
    (default_null (field options "lsTerm")) = Some (res_lok_sabha res)
  ∧ transform_house (rajya_sabha apiData) (js "Rajya Sabha") VNull
    = Some (res_rajya_sabha res).
Proof.
  unfold transformAllData. intros H. cbv zeta in H.
  destruct (transform_house (lok_sabha apiData) _ _) as [ls | ]; [ | discriminate ].
  cbn [mbind option_bind] in H.
  destruct (transform_house (rajya_sabha apiData) _ _) as [rs | ]; [ | discriminate ].
  cbn [mbind option_bind] in H. injection H as <-. by split.
Qed.

(** C1: in every transformed batch, of either chamber, no recommended work
    has a work id that occurs among the work ids of the completed works of
    the same batch. *)
Theorem recommended_ids_not_completed (apiData : api_data) (options : raw_record)
    (res : results) :
  transformAllData apiData options = Some res →
  (∀ r, r ∈ recommended (res_lok_sabha res) →
        r_workId r ∉ c_workId <$> completed (res_lok_sabha res))
  ∧ (∀ r, r ∈ recommended (res_rajya_sabha res) →
          r_workId r ∉ c_workId <$> completed (res_rajya_sabha res)).
Proof.
  intros H. apply transformAllData_parts in H as [Hls Hrs].
  split.
  - exact (transform_house_dedup _ _ _ _ Hls).
  - exact (transform_house_dedup _ _ _ _ Hrs).
Qed.

Lemma recommended_ids_not_completed_witness :
  ∃ res, transformAllData sample_batch ∅ = Some res
    ∧ r_workId <$> recommended (res_lok_sabha res) = [num_of_Z 8]
    ∧ c_workId <$> completed (res_lok_sabha res) = [num_of_Z 7]
    ∧ (∀ r, r ∈ recommended (res_lok_sabha res) →
            r_workId r ∉ c_workId <$> completed (res_lok_sabha res)).
Proof.
  assert (Hrun : ∃ res, transformAllData sample_batch ∅ = Some res
            ∧ r_workId <$> recommended (res_lok_sabha res) = [num_of_Z 8]
            ∧ c_workId <$> completed (res_lok_sabha res) = [num_of_Z 7]).
  { vm_compute. eexists. split; [ reflexivity | ]. split; reflexivity. }
  destruct Hrun as (res & Hres & Hr & Hc).
  exists res. split; [ exact Hres | ]. split; [ exact Hr | ]. split; [ exact Hc | ].
  exact (proj1 (recommended_ids_not_completed sample_batch ∅ res Hres)).
Defined.

End deduplication.

(** ** Number normalisation *)

Section normaliser.
Import Js Num Value Transformer.

Lemma remove_all_fusion (p q : N → bool) (s : jstring) :
  remove_all q (remove_all p s) = remove_all (λ c, p c || q c) s.
Proof.
  unfold remove_all. induction s as [ | c s IH ]; [ reflexivity | ].
  simpl. destruct (p c); simpl; [ exact IH | ].
  destruct (q c); simpl; by rewrite IH.
Qed.

Lemma remove_all_ext (p q : N → bool) (s : jstring) :
  (∀ c, p c = q c) → remove_all p s = remove_all q s.
Proof.
  intros H. unfold remove_all. apply filter_ext. intros c. by rewrite H.
Qed.

Lemma three_replaces_strip (s : jstring) :
  remove_all (λ c, c =? 0x2C)
    (remove_all space_class (remove_all (λ c, c =? 0x20B9) s))
  = strip s.
Proof.
  rewrite !remove_all_fusion. apply remove_all_ext.
  intros c. unfold strippable.
  by destruct (c =? 0x20B9), (space_class c), (c =? 0x2C).
Qed.

Lemma is_space_strippable (c : N) : is_space c = true → strippable c = true.
Proof.
  intros H. unfold strippable, space_class. rewrite H.
  by rewrite !orb_true_r.
Qed.

Lemma strip_trim_start (s : jstring) : strip (trim_start s) = strip s.
Proof.
  induction s as [ | c s IH ]; [ reflexivity | ].
  simpl. destruct (is_space c) eqn:Hc; [ | reflexivity ].
  rewrite IH. unfold strip, remove_all. simpl.
  by rewrite (is_space_strippable c Hc).
Qed.

Lemma strip_rev (s : jstring) : strip (rev s) = rev (strip s).
Proof. unfold strip, remove_all. by rewrite filter_rev. Qed.

Lemma strip_trim (s : jstring) : strip (trim s) = strip s.
Proof.
  unfold trim, trim_end.
  by rewrite strip_rev, strip_trim_start, strip_rev, rev_involutive, strip_trim_start.
Qed.

Lemma placeholder_strip_no_number (s : jstring) :
  placeholder s = true → normalise_stripped (strip s) = Some zero.
Proof.
  unfold placeholder, placeholders. intros H%bool_decide_eq_true.
  repeat (apply elem_of_cons in H as [-> | H]; [ by vm_compute | ]).
  by apply elem_of_nil in H.
Qed.

(** The normaliser only sees its text through [strip]. *)
Lemma parseIndianNumber_strip (s : jstring) :
  parseIndianNumber (VStr s) = normalise_stripped (strip s).
Proof.
  unfold parseIndianNumber. cbn [toString mbind option_bind ToString].
  destruct (trim s) as [ | c t ] eqn:Ht.
  - simpl. rewrite <- strip_trim, Ht. reflexivity.
  - cbn [to_boolean negb orb].
    destruct (placeholder (c :: t)) eqn:Hp.
    + rewrite <- strip_trim, Ht. by rewrite placeholder_strip_no_number.
    + rewrite three_replaces_strip. rewrite <- Ht, strip_trim. reflexivity.
Qed.

Lemma span_digits_app (ip tail : jstring) :
  all_digits ip = true → ends_run tail = true →
  span_digits (ip ++ tail) = (ip, tail).
Proof.
  intros Hip Htail. induction ip as [ | c ip IH ].
  - destruct tail as [ | c tail ]; [ reflexivity | ].
    simpl in *. by destruct (is_digit c).
  - simpl in *. apply andb_true_iff in Hip as [Hc Hip].
    by rewrite Hc, (IH Hip).
Qed.

Lemma numeric_run_here_integer (ip tail : jstring) :
  ip ≠ [] → all_digits ip = true →
  ends_run tail = true → no_fraction tail = true →
  numeric_run_here (ip ++ tail) = Some (ip, [], tail).
Proof.
  intros Hne Hip Htail Hfrac. unfold numeric_run_here.
  rewrite (span_digits_app ip tail Hip Htail).
  destruct ip as [ | c ip ]; [ done | ].
  destruct tail as [ | d tail ]; [ reflexivity | ].
  destruct (d =? 0x2E) eqn:Hd; [ | reflexivity ].
  destruct tail as [ | e tail ]; [ reflexivity | ].
  simpl in Hfrac. rewrite Hd in Hfrac. simpl in *.
  destruct (is_digit e); [ discriminate | reflexivity ].
Qed.

Lemma numeric_run_here_decimal (ip fp rest : jstring) :
  ip ≠ [] → all_digits ip = true →
  fp ≠ [] → all_digits fp = true → ends_run rest = true →
  numeric_run_here (ip ++ 0x2E :: fp ++ rest) = Some (ip, fp, rest).
Proof.
  intros Hne Hip Hnf Hfp Hrest. unfold numeric_run_here.
  rewrite (span_digits_app ip (0x2E :: fp ++ rest) Hip eq_refl).
  destruct ip as [ | c ip ]; [ done | ].
  rewrite N.eqb_refl.
  rewrite (span_digits_app fp rest Hfp Hrest).
  by destruct fp.
Qed.

Lemma numeric_run_here_no_digit (c : N) (t : jstring) :
  is_digit c = false → numeric_run_here (c :: t) = None.
Proof. intros Hc. unfold numeric_run_here. simpl. by rewrite Hc. Qed.

Lemma match_numeric_here (t : jstring) (m : jstring * jstring * jstring) :
  numeric_run_here t = Some m → match_numeric t = Some m.
Proof. intros H. destruct t; cbn [match_numeric]; by rewrite H. Qed.

Lemma match_numeric_skip (pre t : jstring) :
  no_digit pre = true → match_numeric (pre ++ t) = match_numeric t.
Proof.
  intros Hpre. induction pre as [ | c pre IH ]; [ reflexivity | ].
  simpl in Hpre. apply andb_true_iff in Hpre as [Hc Hpre].
  apply negb_true_iff in Hc.
  change ((c :: pre) ++ t) with (c :: (pre ++ t)).
  cbn [match_numeric]. rewrite (numeric_run_here_no_digit c _ Hc).
  by apply IH.
Qed.

Lemma match_numeric_no_digit (t : jstring) :
  no_digit t = true → match_numeric t = None.
Proof.
  intros H. rewrite <- (app_nil_r t). by rewrite (match_numeric_skip t [] H).
Qed.

(** A number never turns negative or NaN on its way through the normaliser. *)
Lemma round_fin_nonneg (d : dec) :
  round_fin false d = Inf false ∨ ∃ d', round_fin false d = Fin false d'.
Proof. unfold round_fin. repeat case_match; eauto. Qed.

Lemma scaled_finite_nonneg (ip fp rest : jstring) :
  ∃ d, scaled (parseFloat_run ip fp) rest = Fin false d.
Proof.
  unfold scaled, parseFloat_run, zero.
  destruct (round_fin_nonneg (dec_of_digits (map digit_val ip) (map digit_val fp)))
    as [ -> | [d ->] ].
  - repeat case_match; simpl in *; eauto; discriminate.
  - assert (H : ∀ k, ∃ d', (let x := mul_pow10 (Fin false d) k in
                            if isFinite x then x else Fin false dzero) = Fin false d').
    { intros k. cbn [mul_pow10].
      destruct (round_fin_nonneg (dec_scale (exact64 d) k)) as [ -> | [d' ->] ];
        simpl; eauto. }
    destruct (crore_suffix _); [ apply H | ].
    destruct (lakh_suffix _); [ apply H | ].
    simpl. eauto.
Qed.

Lemma normalise_stripped_finite_nonneg (t : jstring) :
  ∃ d, normalise_stripped t = Some (Fin false d).
Proof.
  unfold normalise_stripped.
  destruct (match_numeric t) as [ [ [ip fp] rest ] | ].
  - destruct (scaled_finite_nonneg ip fp rest) as [d ->]. eauto.
  - by exists dzero.
Qed.

(** A minus sign in front of the text changes nothing. *)
Lemma parseIndianNumber_minus (s : jstring) :
  parseIndianNumber (VStr (0x2D :: s)) = parseIndianNumber (VStr s).
Proof.
  rewrite !parseIndianNumber_strip.
  change (strip (0x2D :: s)) with ([0x2D] ++ strip s).
  unfold normalise_stripped. by rewrite match_numeric_skip.
Qed.

Lemma starts_with_app (p q s : jstring) :
  starts_with (p ++ q) s = true → starts_with p s = true.
Proof.
  revert s. induction p as [ | a p IH ]; intros s H; [ by destruct s | ].
  destruct s as [ | b s ]; [ discriminate | ].
  simpl in *. apply andb_true_iff in H as [-> H]. by apply IH.
Qed.

Lemma includes_app (s p q : jstring) :
  includes s (p ++ q) = true → includes s p = true.
Proof.
  induction s as [ | c s IH ]; simpl; intros H.
  - apply orb_true_iff in H as [H | H]; [ | discriminate ].
    apply starts_with_app in H. by rewrite H.
  - apply orb_true_iff in H as [H | H].
    + apply starts_with_app in H. by rewrite H.
    + rewrite (IH H). apply orb_true_r.
Qed.

Lemma crore_suffix_cr (suffix : jstring) :
  crore_suffix suffix = includes suffix (js "cr").
Proof.
  unfold crore_suffix.
  destruct (includes suffix (js "cr")) eqn:Hcr; [ reflexivity | ].
  destruct (includes suffix (js "crore")) eqn:H1.
  { apply (includes_app suffix (js "cr") (js "ore")) in H1. congruence. }
  destruct (includes suffix (js "crores")) eqn:H2; [ | reflexivity ].
  apply (includes_app suffix (js "cr") (js "ores")) in H2. congruence.
Qed.

Lemma lakh_suffix_lac_lakh (suffix : jstring) :
  lakh_suffix suffix = includes suffix (js "lac") || includes suffix (js "lakh").
Proof.
  unfold lakh_suffix.
  destruct (includes suffix (js "lac")); [ reflexivity | ].
  destruct (includes suffix (js "lakh")) eqn:Hl; [ reflexivity | ].
  destruct (includes suffix (js "lakhs")) eqn:H2; [ | reflexivity ].
  apply (includes_app suffix (js "lakh") (js "s")) in H2. congruence.
Qed.

Lemma no_digit_strip (s : jstring) : no_digit s = true → no_digit (strip s) = true.
Proof.
  unfold no_digit, strip, remove_all. rewrite !forallb_forall.
  intros H c Hc. apply filter_In in Hc as [Hc _]. by apply H.
Qed.

Lemma strip_idempotent (s : jstring) : strip (strip s) = strip s.
Proof.
  unfold strip, remove_all. induction s as [ | c s IH ]; [ reflexivity | ].
  simpl. destruct (strippable c) eqn:Hc; simpl; [ exact IH | ].
  by rewrite Hc, IH.
Qed.

Lemma dec_scale_value (d : dec) (k : Z) :
  (dec_value (dec_scale d k) == dec_value d * 10 ^ k)%Q.
Proof.
  unfold dec_scale, dec_value, is_zero.
  destruct d as [ [ | x ds ] n ]; cbn [digs pos].
  - simpl digits_value. change (inject_Z (Z.of_N 0)) with 0%Q. ring.
  - replace (n + k - Z.of_nat (length (x :: ds)))%Z
      with ((n - Z.of_nat (length (x :: ds))) + k)%Z by lia.
    rewrite Qpower_plus by discriminate. ring.
Qed.

(** *** Canonical results *)

Lemma drop_zeros_app (z : nat) (ds : list N) :
  head ds ≠ Some 0 → drop_zeros (repeat 0 z ++ ds) = ds.
Proof.
  intros Hh. induction z as [ | z IH ]; simpl; [ | exact IH ].
  destruct ds as [ | d ds ]; [ reflexivity | ].
  simpl. destruct (d =? 0) eqn:Hd; [ | reflexivity ].
  apply N.eqb_eq in Hd. subst d. by destruct Hh.
Qed.

Lemma rev_repeat {A} (x : A) (n : nat) : rev (repeat x n) = repeat x n.
Proof.
  induction n as [ | n IH ]; [ reflexivity | ].
  simpl. rewrite IH. clear IH.
  induction n as [ | n IH ]; [ reflexivity | ]. simpl. by rewrite IH.
Qed.

Lemma head_rev_last {A} (l : list A) : head (rev l) = last l.
Proof.
  induction l as [ | a l IH ] using rev_ind; [ reflexivity | ].
  by rewrite rev_app_distr, last_snoc.
Qed.

Lemma drop_zeros_end_app (ds : list N) (z : nat) :
  last ds ≠ Some 0 → drop_zeros_end (ds ++ repeat 0 z) = ds.
Proof.
  intros Hl. unfold drop_zeros_end.
  rewrite rev_app_distr, rev_repeat.
  rewrite drop_zeros_app; [ apply rev_involutive | ].
  by rewrite head_rev_last.
Qed.

(** The digits written [ip.fp], freed of the zeros around them. *)
Lemma dec_of_digits_canon (ip fp ds : list N) (z1 z2 : nat) :
  ip ++ fp = repeat 0 z1 ++ ds ++ repeat 0 z2 →
  ds ≠ [] → head ds ≠ Some 0 → last ds ≠ Some 0 →
  dec_of_digits ip fp = Dec ds (Z.of_nat (length ip) - Z.of_nat z1).
Proof.
  intros Heq Hne Hh Hl. unfold dec_of_digits. rewrite Heq.
  rewrite drop_zeros_app.
  2:{ destruct ds; [ done | exact Hh ]. }
  rewrite (drop_zeros_end_app ds z2 Hl).
  destruct ds as [ | d ds ]; [ done | ].
  f_equal. rewrite !length_app, repeat_length. lia.
Qed.

Lemma drop_zeros_head (l : list N) : head (drop_zeros l) ≠ Some 0.
Proof.
  induction l as [ | d l IH ]; [ done | ].
  simpl. destruct (d =? 0) eqn:Hd; [ exact IH | ].
  simpl. intros [= ->]. discriminate Hd.
Qed.

Lemma drop_zeros_suffix (l : list N) : ∃ z, l = repeat 0 z ++ drop_zeros l.
Proof.
  induction l as [ | d l [z IH] ]; [ by exists 0%nat | ].
  simpl. destruct (d =? 0) eqn:Hd; [ | by exists 0%nat ].
  apply N.eqb_eq in Hd. subst d. exists (S z). simpl. by rewrite <- IH.
Qed.

Lemma drop_zeros_end_prefix (l : list N) : ∃ z, l = drop_zeros_end l ++ repeat 0 z.
Proof.
  unfold drop_zeros_end. destruct (drop_zeros_suffix (rev l)) as [z Hz].
  exists z. apply (f_equal (@rev N)) in Hz.
  by rewrite rev_involutive, rev_app_distr, rev_repeat in Hz.
Qed.

Lemma drop_zeros_end_last (l : list N) : last (drop_zeros_end l) ≠ Some 0.
Proof.
  unfold drop_zeros_end. rewrite <- head_rev_last, rev_involutive.
  apply drop_zeros_head.
Qed.

Lemma canonical_dec_of_digits (ip fp : list N) :
  Forall (λ x, x < 10) (ip ++ fp) → canonical (dec_of_digits ip fp).
Proof.
  intros Hd. unfold dec_of_digits.
  destruct (drop_zeros_suffix (ip ++ fp)) as [z1 H1].
  destruct (drop_zeros_end_prefix (drop_zeros (ip ++ fp))) as [z2 H2].
  pose proof (drop_zeros_head (ip ++ fp)) as Hh.
  pose proof (drop_zeros_end_last (drop_zeros (ip ++ fp))) as Hl.
  destruct (drop_zeros_end (drop_zeros (ip ++ fp))) as [ | d m ];
    [ reflexivity | ].
  unfold canonical. simpl. split_and!.
  - rewrite H1, H2 in Hd.
    apply Forall_app in Hd as [_ Hd]. by apply Forall_app in Hd as [Hd _].
  - rewrite H2 in Hh. exact Hh.
  - exact Hl.
Qed.

Lemma span_digits_all_digits (s a b : jstring) :
  span_digits s = (a, b) → all_digits a = true.
Proof.
  revert a b. induction s as [ | c s IH ]; intros a b H; simpl in H.
  - by injection H as <- _.
  - destruct (is_digit c) eqn:Hc; [ | by injection H as <- _ ].
    destruct (span_digits s) as [a' b'].
    injection H as <- _. simpl. by rewrite Hc, (IH a' b').
Qed.

Lemma numeric_run_here_digits (t ip fp rest : jstring) :
  numeric_run_here t = Some (ip, fp, rest) →
  all_digits ip = true ∧ all_digits fp = true.
Proof.
  unfold numeric_run_here.
  destruct (span_digits t) as [a r] eqn:Ha.
  apply span_digits_all_digits in Ha.
  destruct a as [ | c a ]; [ discriminate | ].
  destruct r as [ | d r ]; [ by intros [= <- <- _] | ].
  destruct (d =? 0x2E); [ | by intros [= <- <- _] ].
  destruct (span_digits r) as [f r'] eqn:Hf.
  apply span_digits_all_digits in Hf.
  destruct f; by intros [= <- <- _].
Qed.

Lemma match_numeric_digits (t ip fp rest : jstring) :
  match_numeric t = Some (ip, fp, rest) →
  all_digits ip = true ∧ all_digits fp = true.
Proof.
  induction t as [ | c t IH ]; cbn [match_numeric].
  - destruct (numeric_run_here []) eqn:H; [ | discriminate ].
    intros [= ->]. by apply numeric_run_here_digits in H.
  - destruct (numeric_run_here (c :: t)) eqn:H; [ | exact IH ].
    intros [= ->]. by apply numeric_run_here_digits in H.
Qed.

Lemma digit_val_bound (s : jstring) :
  all_digits s = true → Forall (λ x, x < 10) (map digit_val s).
Proof.
  induction s as [ | c s IH ]; simpl; intros H; [ constructor | ].
  apply andb_true_iff in H as [Hc H]. constructor; [ | by apply IH ].
  unfold is_digit in Hc. apply andb_true_iff in Hc as [H1%N.leb_le H2%N.leb_le].
  unfold digit_val. lia.
Qed.

Lemma canonical_scale (d : dec) (k : Z) : canonical d → canonical (dec_scale d k).
Proof.
  unfold dec_scale, is_zero, canonical.
  destruct d as [ [ | x ds ] n ]; simpl; done.
Qed.

(** *** Rounding keeps canonical magnitudes and is idempotent *)

Lemma uint_digits_bound (u : Decimal.uint) : Forall (λ x, x < 10) (uint_digits u).
Proof. induction u; cbn [uint_digits]; constructor; (lia || assumption). Qed.

Lemma canonical_dec_of_N (n : N) : canonical (dec_of_N n).
Proof.
  unfold dec_of_N. apply canonical_dec_of_digits.
  rewrite app_nil_r. apply uint_digits_bound.
Qed.

Lemma canonical_b64_dec (v : b64) : canonical (b64_dec v).
Proof.
  unfold b64_dec. destruct (0 <=? expo v)%Z.
  - apply canonical_dec_of_N.
  - apply canonical_scale, canonical_dec_of_N.
Qed.

Lemma canonical_exact64 (d : dec) : canonical d → canonical (exact64 d).
Proof.
  intros Hc. unfold exact64. destruct (is_zero d); [ exact Hc | ].
  apply canonical_b64_dec.
Qed.

Lemma b64_eqb_eq (v w : b64) : b64_eqb v w = true → v = w.
Proof.
  destruct v as [m e], w as [m' e']. unfold b64_eqb. cbn [mant expo].
  intros [->%Z.eqb_eq ->%Z.eqb_eq]%andb_true_iff. reflexivity.
Qed.

(** A decimal is offered for a binary64 value only if it reads as it. *)
Lemma pick_spec (v : b64) (ds : list N) (n : Z) (k : nat) (c : dec) :
  pick v ds n k = Some c → round_trips v c = true ∧ canonical c.
Proof.
  unfold pick.
  assert (Hcan : ∀ s, canonical (candidate s k n)).
  { intros s. apply canonical_scale, canonical_dec_of_N. }
  destruct (round_trips v (candidate (first_digits k ds) k n)) eqn:Hlo;
    destruct (round_trips v (candidate (first_digits k ds + 1) k n)) eqn:Hhi;
    try discriminate.
  - destruct (beyond_half (drop k ds)); [ | by intros [= <-] .. ].
    destruct (N.even (first_digits k ds)); by intros [= <-].
  - by intros [= <-].
  - by intros [= <-].
Qed.

Lemma shortest_from_spec (v : b64) (ds : list N) (n : Z) (k fuel : nat) (c : dec) :
  shortest_from v ds n k fuel = Some c → round_trips v c = true ∧ canonical c.
Proof.
  revert k. induction fuel as [ | fuel IH ]; intros k; cbn [shortest_from];
    [ discriminate | ].
  destruct (pick v ds n k) as [c' | ] eqn:Hp; [ | apply IH ].
  intros [= <-]. by apply pick_spec in Hp.
Qed.

Lemma shortest_spec (v : b64) (c : dec) :
  shortest v = Some c → round_trips v c = true ∧ canonical c.
Proof. apply shortest_from_spec. Qed.

(** The printed decimal of a Number reads as that Number again. *)
Lemma binary64_fixed (d : dec) :
  canonical d → overflows d = false → underflows d = false →
  canonical (binary64 d) ∧ round_fin false (binary64 d) = Fin false (binary64 d).
Proof.
  intros Hc Ho Hu. unfold binary64.
  destruct (is_zero d) eqn:Hz.
  { split; [ exact Hc | ]. unfold round_fin, binary64. by rewrite Ho, Hu, Hz. }
  destruct (shortest (nearest64 d)) as [c | ] eqn:Hs.
  - change (default d (Some c)) with c.
    pose proof (shortest_spec _ _ Hs) as [Hrt Hcc]. split; [ exact Hcc | ].
    unfold round_trips in Hrt.
    apply andb_true_iff in Hrt as [Hrt Heq]. apply b64_eqb_eq in Heq.
    apply andb_true_iff in Hrt as [Hrt Hcu%negb_true_iff].
    apply andb_true_iff in Hrt as [Hcz%negb_true_iff Hco%negb_true_iff].
    unfold round_fin, binary64. by rewrite Hco, Hcu, Hcz, Heq, Hs.
  - change (default d None) with d.
    split; [ exact Hc | ]. unfold round_fin, binary64. by rewrite Ho, Hu, Hz, Hs.
Qed.

(** Rounding at work: 0.1 is printed as it was read although the Number
    nearest to it is not 0.1; 9007199254740993 lies midway between two
    Numbers and goes to the even one; 1.005 times 100000 and 1.15 times
    100000 fall just short of the decimal product, 0.1 times 10000000 does
    not; 5e-324 is the smallest Number above zero, 2e-324 rounds to zero,
    and 1.7976931348623158e308 still rounds to the largest Number. *)
Lemma binary64_examples :
  binary64 (Dec [1] 0) = Dec [1] 0
  ∧ exact64 (Dec [1] 0) = Dec [1; 0; 0; 0; 0; 0; 0; 0; 0; 0; 0; 0; 0; 0; 0; 0; 0; 5; 5; 5; 1; 1; 1; 5; 1; 2; 3; 1; 2; 5; 7; 8; 2; 7; 0; 2; 1; 1; 8; 1; 5; 8; 3; 4; 0; 4; 5; 4; 1; 0; 1; 5; 6; 2; 5] 0
  ∧ binary64 (Dec [9; 0; 0; 7; 1; 9; 9; 2; 5; 4; 7; 4; 0; 9; 9; 3] 16)
    = Dec [9; 0; 0; 7; 1; 9; 9; 2; 5; 4; 7; 4; 0; 9; 9; 2] 16
  ∧ mul_pow10 (Fin false (Dec [1; 0; 0; 5] 1)) 5
    = Fin false (Dec [1; 0; 0; 4; 9; 9; 9; 9; 9; 9; 9; 9; 9; 9; 9; 9; 9] 6)
  ∧ mul_pow10 (Fin false (Dec [1; 1; 5] 1)) 5
    = Fin false (Dec [1; 1; 4; 9; 9; 9; 9; 9; 9; 9; 9; 9; 9; 9; 9; 9; 9] 6)
  ∧ mul_pow10 (Fin false (Dec [1] 0)) 7 = Fin false (Dec [1] 7)
  ∧ round_fin false (Dec [5] (-323)) = Fin false (Dec [5] (-323))
  ∧ round_fin false (Dec [2] (-323)) = Fin false dzero
  ∧ round_fin false (Dec [1; 7; 9; 7; 6; 9; 3; 1; 3; 4; 8; 6; 2; 3; 1; 5; 8] 309)
    = Fin false (Dec [1; 7; 9; 7; 6; 9; 3; 1; 3; 4; 8; 6; 2; 3; 1; 5; 7] 309)
  ∧ round_fin false (Dec [1; 8] 309) = Inf false.
Proof. split_and!; by vm_compute. Qed.

Lemma binary64_reads (d : dec) : nearest64 (binary64 d) = nearest64 d.
Proof.
  unfold binary64. destruct (is_zero d); [ reflexivity | ].
  destruct (shortest (nearest64 d)) as [c | ] eqn:Hs; [ | reflexivity ].
  change (default d (Some c)) with c.
  apply shortest_spec in Hs as [Hrt _]. unfold round_trips in Hrt.
  apply andb_true_iff in Hrt as [_ Heq]. by apply b64_eqb_eq.
Qed.

(** A rounded magnitude that is not zero reads as the binary64 value
    nearest to the exact one. *)
Lemma round_fin_reads (s : bool) (d d' : dec) :
  round_fin s d = Fin s d' → is_zero d' = false → nearest64 d' = nearest64 d.
Proof.
  unfold round_fin.
  destruct (overflows d); [ discriminate | ].
  destruct (underflows d); intros [= <-]; [ discriminate | ].
  intros _. apply binary64_reads.
Qed.

Lemma round_fin_canonical (d d' : dec) :
  round_fin false d = Fin false d' → canonical d →
  canonical d' ∧ in_range d'.
Proof.
  unfold in_range. intros H Hc. unfold round_fin in H.
  destruct (overflows d) eqn:Ho; [ discriminate | ].
  destruct (underflows d) eqn:Hu; injection H as <-.
  - split; [ reflexivity | by vm_compute ].
  - by apply binary64_fixed.
Qed.

Lemma scaled_canonical (ip fp rest : jstring) (d : dec) :
  all_digits ip = true → all_digits fp = true →
  scaled (parseFloat_run ip fp) rest = Fin false d →
  canonical d ∧ in_range d.
Proof.
  intros Hip Hfp. unfold scaled, parseFloat_run.
  assert (Hc0 : canonical (dec_of_digits (map digit_val ip) (map digit_val fp))).
  { apply canonical_dec_of_digits, Forall_app. split; by apply digit_val_bound. }
  assert (Hz : canonical dzero ∧ in_range dzero) by (split; [ reflexivity | by vm_compute ]).
  destruct (round_fin false (dec_of_digits _ _)) as [ | sg | sg d0 ] eqn:Hr.
  - exfalso. revert Hr. unfold round_fin. repeat case_match; discriminate.
  - repeat case_match; simpl in *; try discriminate; by intros [= <-].
  - assert (Hsg : sg = false).
    { revert Hr. unfold round_fin. repeat case_match; by intros [= <- _]. }
    subst sg. apply round_fin_canonical in Hr as [Hc1 Hr1]; [ | exact Hc0 ].
    assert (Hk : ∀ k, finite_or_zero (mul_pow10 (Fin false d0) k) = Fin false d →
                      canonical d ∧ in_range d).
    { intros k. unfold finite_or_zero. cbn [mul_pow10].
      destruct (round_fin false (dec_scale (exact64 d0) k)) as [ | sg | sg d1 ] eqn:Hs;
        cbn [isFinite].
      - by intros [= <-].
      - by intros [= <-].
      - intros [= -> ->].
        apply (round_fin_canonical _ _ Hs).
        by apply canonical_scale, canonical_exact64. }
    destruct (crore_suffix _); [ apply Hk | ].
    destruct (lakh_suffix _); [ apply Hk | ].
    simpl. by intros [= <-].
Qed.

Lemma normalise_stripped_canonical (t : jstring) (d : dec) :
  normalise_stripped t = Some (Fin false d) → canonical d ∧ in_range d.
Proof.
  unfold normalise_stripped.
  destruct (match_numeric t) as [ [ [ip fp] rest ] | ] eqn:Hm.
  - apply match_numeric_digits in Hm as [Hip Hfp].
    intros [= H]. by apply (scaled_canonical ip fp rest).
  - intros [= <-]. split; [ reflexivity | by vm_compute ].
Qed.

(** *** Reading back a printed number *)

Lemma digit_char_digits (ds : list N) :
  Forall (λ x, x < 10) ds → all_digits (map digit_char ds) = true.
Proof.
  induction 1 as [ | d ds Hd _ IH ]; [ reflexivity | ].
  simpl. rewrite IH, andb_true_r.
  unfold is_digit, digit_char. apply andb_true_iff. split; apply N.leb_le; lia.
Qed.

Lemma digit_val_char (ds : list N) : map digit_val (map digit_char ds) = ds.
Proof.
  induction ds as [ | d ds IH ]; [ reflexivity | ].
  simpl. rewrite IH. f_equal. unfold digit_val, digit_char. lia.
Qed.

Lemma digit_not_strippable (c : N) :
  is_digit c || (c =? 0x2E) = true → strippable c = false.
Proof.
  intros H. apply orb_true_iff in H as [H | H%N.eqb_eq].
  - unfold is_digit in H. apply andb_true_iff in H as [H1%N.leb_le H2%N.leb_le].
    unfold strippable, space_class, is_space.
    repeat match goal with
           | |- context [ ?a =? ?b ] => rewrite (proj2 (N.eqb_neq a b)) by lia
           end.
    rewrite (proj2 (N.leb_gt 0x2000 c)) by lia. reflexivity.
  - by subst c.
Qed.

Lemma strip_plain_text (t : jstring) :
  forallb (λ c, is_digit c || (c =? 0x2E)) t = true → strip t = t.
Proof.
  induction t as [ | c t IH ]; [ reflexivity | ].
  simpl. intros H. apply andb_true_iff in H as [Hc H].
  unfold strip, remove_all. simpl.
  rewrite (digit_not_strippable c Hc). simpl. f_equal. by apply IH.
Qed.

Lemma all_digits_plain (s : jstring) :
  all_digits s = true → forallb (λ c, is_digit c || (c =? 0x2E)) s = true.
Proof.
  unfold all_digits. rewrite !forallb_forall. intros H c Hc.
  by rewrite (H c Hc).
Qed.

(** A numeral [ip] or [ip.fp] reads as the magnitude it denotes. *)
Lemma parse_numeral (ip fp : jstring) (d : dec) :
  ip ≠ [] → all_digits ip = true → all_digits fp = true →
  dec_of_digits (map digit_val ip) (map digit_val fp) = d → in_range d →
  parseIndianNumber
    (VStr (ip ++ match fp with [] => [] | _ => 0x2E :: fp end))
  = Some (Fin false d).
Proof.
  intros Hne Hip Hfp Hd Hr.
  rewrite parseIndianNumber_strip, strip_plain_text.
  2:{ rewrite forallb_app. apply andb_true_iff.
      split; [ by apply all_digits_plain | ].
      destruct fp; [ reflexivity | ].
      change (forallb _ (0x2E :: ?l)) with (forallb (λ c, is_digit c || (c =? 0x2E)) l).
      by apply all_digits_plain. }
  unfold normalise_stripped.
  assert (Hval : scaled (parseFloat_run ip fp) [] = Fin false d).
  { unfold parseFloat_run. rewrite Hd, Hr. reflexivity. }
  destruct fp as [ | c fp ].
  - rewrite (match_numeric_here _ _
               (numeric_run_here_integer ip [] Hne Hip eq_refl eq_refl)).
    by rewrite Hval.
  - rewrite <- (app_nil_r (c :: fp)) at 1.
    rewrite (match_numeric_here _ _
               (numeric_run_here_decimal ip (c :: fp) [] Hne Hip ltac:(done) Hfp eq_refl)).
    by rewrite Hval.
Qed.

(** What the normaliser returns in plain notation, it reads back. *)
Lemma parse_printed (d : dec) :
  canonical d → in_range d → plain d →
  parseIndianNumber (VStr (dec_to_string d)) = Some (Fin false d).
Proof.
  intros Hc Hr Hp. destruct d as [ds n].
  unfold canonical, plain, is_zero in Hc, Hp. cbn [digs pos] in Hc, Hp.
  unfold dec_to_string. cbn [digs pos].
  destruct ds as [ | x ds' ].
  { subst n. by vm_compute. }
  destruct Hp as [ Hp | Hp ]; [ discriminate | ].
  destruct Hc as (Hd & Hh & Hl).
  assert (Hne : x :: ds' ≠ []) by done.
  remember (x :: ds') as ds eqn:Hds. clear Hds x ds'.
  remember (Z.of_nat (length ds)) as k eqn:Hk.
  assert (Hlen : (0 < length ds)%nat) by (destruct ds; [ done | simpl; lia ]).
  assert (Hcs : all_digits (map digit_char ds) = true) by by apply digit_char_digits.
  destruct ((k <=? n)%Z && (n <=? 21)%Z) eqn:HA.
  { apply andb_true_iff in HA as [HA%Z.leb_le _].
    rewrite <- (app_nil_r (map digit_char ds ++ repeat 0x30 (Z.to_nat (n - k)))).
    apply (parse_numeral (map digit_char ds ++ repeat 0x30 (Z.to_nat (n - k))) []).
    - by destruct ds.
    - unfold all_digits in *. rewrite forallb_app, Hcs. simpl.
      apply forallb_forall. intros c Hin. by apply repeat_spec in Hin as ->.
    - reflexivity.
    - rewrite map_app, digit_val_char, map_repeat.
      change (digit_val 0x30) with 0.
      rewrite (dec_of_digits_canon _ [] ds 0 (Z.to_nat (n - k))); try done.
      + f_equal. rewrite length_app, repeat_length. lia.
      + by rewrite app_nil_r.
    - exact Hr. }
  destruct ((0 <? n)%Z && (n <=? 21)%Z) eqn:HB.
  { apply andb_true_iff in HB as [HB%Z.ltb_lt _].
    assert (Hnk : (n < k)%Z).
    { apply andb_false_iff in HA as [HA%Z.leb_gt | HA%Z.leb_gt]; lia. }
    assert (Hdrop : drop (Z.to_nat n) (map digit_char ds) ≠ []).
    { intros H. apply (f_equal length) in H.
      rewrite length_drop, length_map in H. simpl in H. lia. }
    pose proof (parse_numeral (take (Z.to_nat n) (map digit_char ds))
                  (drop (Z.to_nat n) (map digit_char ds)) (Dec ds n)) as H.
    destruct (drop (Z.to_nat n) (map digit_char ds)) as [ | c r ] eqn:Hdr; [ done | ].
    rewrite <- Hdr in *. apply H; clear H.
    - intros H. apply (f_equal length) in H.
      rewrite length_take, length_map in H. simpl in H. lia.
    - rewrite <- (take_drop (Z.to_nat n) (map digit_char ds)) in Hcs.
      unfold all_digits in *. rewrite forallb_app in Hcs.
      by apply andb_true_iff in Hcs as [? _].
    - rewrite <- (take_drop (Z.to_nat n) (map digit_char ds)) in Hcs.
      unfold all_digits in *. rewrite forallb_app in Hcs.
      by apply andb_true_iff in Hcs as [_ ?].
    - rewrite (dec_of_digits_canon _ _ ds 0 0); try done.
      + f_equal. rewrite length_map, length_take, length_map. lia.
      + rewrite <- map_app, take_drop, digit_val_char. by rewrite app_nil_r.
    - exact Hr. }
  destruct ((-6 <? n)%Z && (n <=? 0)%Z) eqn:HC.
  { apply andb_true_iff in HC as [_ HC%Z.leb_le].
    pose proof (parse_numeral [0x30] (repeat 0x30 (Z.to_nat (- n)) ++ map digit_char ds)
                  (Dec ds n)) as H.
    destruct (repeat 0x30 (Z.to_nat (- n)) ++ map digit_char ds) as [ | c r ] eqn:Hfp.
    { apply (f_equal length) in Hfp.
      rewrite length_app, length_map in Hfp. simpl in Hfp. lia. }
    rewrite <- Hfp in *. apply H; clear H.
    - done.
    - reflexivity.
    - unfold all_digits in *. rewrite forallb_app, Hcs, andb_true_r.
      apply forallb_forall. intros c' Hin. by apply repeat_spec in Hin as ->.
    - rewrite map_app, digit_val_char, map_repeat.
      change (digit_val 0x30) with 0.
      rewrite (dec_of_digits_canon _ _ ds (S (Z.to_nat (- n))) 0); try done.
      + f_equal. simpl length. lia.
      + by rewrite app_nil_r.
    - exact Hr. }
  exfalso.
  apply andb_false_iff in HA as [HA%Z.leb_gt | HA%Z.leb_gt];
    apply andb_false_iff in HB as [HB%Z.ltb_ge | HB%Z.leb_gt];
    apply andb_false_iff in HC as [HC%Z.ltb_ge | HC%Z.leb_gt]; lia.
Qed.

(** C10: whatever value it is given, [parseIndianNumber] returns a finite
    number that is not negative.  A minus sign in front of the text is
    dropped (the text "-5" and the number -5 both give 5), and a number
    that is not finite collapses to 0 (a numeral of 310 digits reads as
    Infinity and gives 0). *)
Theorem parseIndianNumber_finite_nonneg (str : value) :
  (∃ d, parseIndianNumber str = Some (Fin false d))
  ∧ (∀ s, parseIndianNumber (VStr (0x2D :: s)) = parseIndianNumber (VStr s))
  ∧ parseIndianNumber (VStr (js "-5")) = Some (num_of_Z 5)
  ∧ parseIndianNumber (VNum (num_of_Z (-5))) = Some (num_of_Z 5)
  ∧ parseFloat_run huge_numeral [] = Inf false
  ∧ parseIndianNumber (VStr huge_numeral) = Some zero.
Proof.
  split_and!; [ | exact parseIndianNumber_minus | by vm_compute .. ].
  destruct str as [ | | b | x | s ].
  - by exists dzero.
  - by exists dzero.
  - change (parseIndianNumber (VBool b))
      with (parseIndianNumber (VStr (ToString (VBool b)))).
    rewrite parseIndianNumber_strip. apply normalise_stripped_finite_nonneg.
  - change (parseIndianNumber (VNum x))
      with (parseIndianNumber (VStr (number_to_string x))).
    rewrite parseIndianNumber_strip. apply normalise_stripped_finite_nonneg.
  - rewrite parseIndianNumber_strip. apply normalise_stripped_finite_nonneg.
Qed.

(** C4, as stated, fails in two ways.  The products are binary64
    products, not exact ones: "1.005 lakh" gives 100499.99999999999, not
    100500.  And the unit is looked for anywhere in the text after the
    number, "cr" first: an amount in lakh followed by a remark with "cr" in
    it, as in "5 lakh (concrete road)", is multiplied by 10,000,000, not by
    100,000. *)
Lemma normaliser_scaling_not_exact :
  parseIndianNumber (VStr (js "1.005 lakh"))
  = Some (Fin false (Dec [1; 0; 0; 4; 9; 9; 9; 9; 9; 9; 9; 9; 9; 9; 9; 9; 9] 6))
  ∧ number_to_string
      (Fin false (Dec [1; 0; 0; 4; 9; 9; 9; 9; 9; 9; 9; 9; 9; 9; 9; 9; 9] 6))
    = js "100499.99999999999"
  ∧ parseIndianNumber (VStr (js "5 lakh (concrete road)")) = Some (num_of_Z 50000000)
  ∧ ¬ (∀ ip fp d,
         all_digits ip = true → all_digits fp = true →
         parseIndianNumber (VStr (ip ++ 0x2E :: fp ++ js " lakh")) = Some (Fin false d) →
         (dec_value d
          == dec_value (dec_of_digits (map digit_val ip) (map digit_val fp)) * 100000)%Q)
  ∧ ¬ (∀ ip rest d,
         all_digits ip = true →
         starts_with (js "lakh") (toLowerCase (strip rest)) = true →
         parseIndianNumber (VStr (ip ++ rest)) = Some (Fin false d) →
         (dec_value d == dec_value (dec_of_digits (map digit_val ip) []) * 100000)%Q).
Proof.
  assert (H1 : parseIndianNumber (VStr (js "1.005 lakh"))
               = Some (Fin false
                         (Dec [1; 0; 0; 4; 9; 9; 9; 9; 9; 9; 9; 9; 9; 9; 9; 9; 9] 6)))
    by (by vm_compute).
  assert (H2 : parseIndianNumber (VStr (js "5 lakh (concrete road)"))
               = Some (num_of_Z 50000000)) by (by vm_compute).
  split; [ exact H1 | ]. split; [ by vm_compute | ]. split; [ exact H2 | ].
  split.
  - intros Hall.
    specialize (Hall (js "1") (js "005") _ eq_refl eq_refl H1).
    vm_compute in Hall. discriminate Hall.
  - intros Hall.
    specialize (Hall (js "5") (js " lakh (concrete road)") _ eq_refl eq_refl H2).
    vm_compute in Hall. discriminate Hall.
Qed.

(** C4, amended: the normaliser never fails; it reads its text with the
    rupee sign, the Unicode white space and the thousands separators
    deleted; it takes the first run of digits, with a fraction if one
    follows, as the number: the Number nearest to that numeral; it
    multiplies the number by 10,000,000 when the text after the run has "cr"
    (so "cr", "crore", "crores") anywhere in it, in any letter case, and by
    100,000 when that text has "lac" or "lakh" (so "lakhs") in it and no
    "cr"; the product is the Number nearest to the exact product; it
    answers 0 for [null] and [undefined], for an empty text, for "-", "N/A",
    "null", "undefined" and "--", and for a text without a digit.  So
    "₹1,23,456" gives 123456, "2.5 Cr" gives 25000000, "1 lakh" gives 100000
    and "--" gives 0. *)
Theorem parseIndianNumber_spec :
  (∀ str, is_Some (parseIndianNumber str))
  ∧ (∀ s, parseIndianNumber (VStr s) = parseIndianNumber (VStr (strip s)))
  ∧ (∀ s pre ip rest,
       strip s = pre ++ ip ++ rest →
       no_digit pre = true → ip ≠ [] → all_digits ip = true →
       ends_run rest = true → no_fraction rest = true →
       parseIndianNumber (VStr s) = Some (scaled (parseFloat_run ip []) rest))
  ∧ (∀ s pre ip fp rest,
       strip s = pre ++ ip ++ 0x2E :: fp ++ rest →
       no_digit pre = true → ip ≠ [] → all_digits ip = true →
       fp ≠ [] → all_digits fp = true → ends_run rest = true →
       parseIndianNumber (VStr s) = Some (scaled (parseFloat_run ip fp) rest))
  ∧ (∀ num rest,
       scaled num rest
       = if includes (toLowerCase rest) (js "cr")
         then finite_or_zero (mul_pow10 num 7)
         else if includes (toLowerCase rest) (js "lac")
                 || includes (toLowerCase rest) (js "lakh")
         then finite_or_zero (mul_pow10 num 5)
         else finite_or_zero num)
  ∧ (∀ ip fp d,
       parseFloat_run ip fp = Fin false d → is_zero d = false →
       nearest64 d = nearest64 (dec_of_digits (map digit_val ip) (map digit_val fp)))
  ∧ (∀ s d k d',
       mul_pow10 (Fin s d) k = Fin s d' → is_zero d' = false →
       nearest64 d' = nearest64 (dec_scale (exact64 d) k))
  ∧ (∀ d, (dec_value (dec_scale d 7) == dec_value d * 10000000)%Q
          ∧ (dec_value (dec_scale d 5) == dec_value d * 100000)%Q)
  ∧ parseIndianNumber VNull = Some zero
  ∧ parseIndianNumber VUndefined = Some zero
  ∧ (∀ s, trim s = [] ∨ trim s ∈ placeholders ∨ no_digit s = true →
          parseIndianNumber (VStr s) = Some zero)
  ∧ parseIndianNumber (VStr (js "₹1,23,456")) = Some (num_of_Z 123456)
  ∧ parseIndianNumber (VStr (js "2.5 Cr")) = Some (num_of_Z 25000000)
  ∧ parseIndianNumber (VStr (js "1 lakh")) = Some (num_of_Z 100000)
  ∧ parseIndianNumber (VStr (js "--")) = Some (num_of_Z 0).
Proof.
  split_and!;
    [ exact parseIndianNumber_total | | | | | | | | reflexivity | reflexivity |
    | by vm_compute .. ].
  - intros s. by rewrite !parseIndianNumber_strip, strip_idempotent.
  - intros s pre ip rest Hs Hpre Hne Hip Hrest Hfrac.
    rewrite parseIndianNumber_strip, Hs. unfold normalise_stripped.
    rewrite (match_numeric_skip pre _ Hpre).
    by rewrite (match_numeric_here _ _
                  (numeric_run_here_integer ip rest Hne Hip Hrest Hfrac)).
  - intros s pre ip fp rest Hs Hpre Hne Hip Hnf Hfp Hrest.
    rewrite parseIndianNumber_strip, Hs. unfold normalise_stripped.
    rewrite (match_numeric_skip pre _ Hpre).
    by rewrite (match_numeric_here _ _
                  (numeric_run_here_decimal ip fp rest Hne Hip Hnf Hfp Hrest)).
  - intros num rest. unfold scaled, finite_or_zero.
    rewrite crore_suffix_cr, lakh_suffix_lac_lakh.
    by repeat case_match.
  - intros ip fp d. unfold parseFloat_run. apply round_fin_reads.
  - intros s d k d'. cbn [mul_pow10]. apply round_fin_reads.
  - intros d. split; apply dec_scale_value.
  - intros s [ H | [ H | H ] ].
    + unfold parseIndianNumber. cbn [toString mbind option_bind ToString].
      by rewrite H.
    + unfold parseIndianNumber. cbn [toString mbind option_bind ToString].
      unfold placeholder. rewrite (bool_decide_eq_true_2 _ H).
      by rewrite orb_true_r.
    + rewrite parseIndianNumber_strip. unfold normalise_stripped.
      by rewrite (match_numeric_no_digit _ (no_digit_strip s H)).
Qed.

Lemma parseIndianNumber_spec_witness :
  strip (js "Rs. 1,500 crore (approx)") = js "Rs." ++ js "1500" ++ js "crore(approx)"
  ∧ parseIndianNumber (VStr (js "Rs. 1,500 crore (approx)")) = Some (num_of_Z 15000000000)
  ∧ strip (js "₹ 12.75 Lakhs") = [] ++ js "12" ++ 0x2E :: js "75" ++ js "Lakhs"
  ∧ parseIndianNumber (VStr (js "₹ 12.75 Lakhs")) = Some (num_of_Z 1275000)
  ∧ trim (js "  N/A ") ∈ placeholders
  ∧ parseIndianNumber (VStr (js "  N/A ")) = Some zero.
Proof.
  destruct parseIndianNumber_spec
    as (_ & _ & Hint & Hdec & _ & _ & _ & _ & _ & _ & Hzero & _).
  assert (Hna : trim (js "  N/A ") ∈ placeholders).
  { vm_compute. right. left. }
  split; [ reflexivity | ].
  split.
  { refine (Hint (js "Rs. 1,500 crore (approx)") (js "Rs.") (js "1500")
              (js "crore(approx)") _ _ _ _ _ _);
      [ reflexivity | reflexivity | discriminate | reflexivity .. ]. }
  split; [ reflexivity | ].
  split.
  { refine (Hdec (js "₹ 12.75 Lakhs") [] (js "12") (js "75") (js "Lakhs")
              _ _ _ _ _ _ _);
      [ reflexivity | reflexivity | discriminate | reflexivity
      | discriminate | reflexivity | reflexivity ]. }
  split; [ exact Hna | ].
  exact (Hzero (js "  N/A ") (or_intror (or_introl Hna))).
Defined.

(** C8, as stated, fails: "0.0000001" is normalised to the number 1e-7,
    whose decimal string is "1e-7", and that string is normalised to 1. *)
Lemma normaliser_not_idempotent :
  ¬ ∀ s x, parseIndianNumber (VStr s) = Some x →
           parseIndianNumber (VStr (number_to_string x)) = Some x.
Proof.
  intros H. specialize (H (js "0.0000001") _ eq_refl).
  vm_compute in H. discriminate H.
Qed.

(** C8, amended: when the number the normaliser returns for a text is 0 or
    lies between 0.000001 and 10^21 (the latter excluded), where the decimal
    string of a Number is in plain notation, the normaliser applied to that
    decimal string returns the same number. *)
Theorem normaliser_idempotent_on_plain (s : jstring) (d : dec) :
  parseIndianNumber (VStr s) = Some (Fin false d) → plain d →
  parseIndianNumber (VStr (number_to_string (Fin false d))) = Some (Fin false d).
Proof.
  intros Hs Hp. rewrite parseIndianNumber_strip in Hs.
  apply normalise_stripped_canonical in Hs as [Hc Hr].
  change (number_to_string (Fin false d)) with (dec_to_string d).
  by apply parse_printed.
Qed.

Lemma normaliser_idempotent_on_plain_witness :
  parseIndianNumber (VStr (js "2.5 Cr")) = Some (Fin false (Dec [2; 5] 8))
  ∧ plain (Dec [2; 5] 8)
  ∧ number_to_string (Fin false (Dec [2; 5] 8)) = js "25000000"
  ∧ parseIndianNumber (VStr (js "25000000")) = Some (Fin false (Dec [2; 5] 8)).
Proof.
  assert (Hp : plain (Dec [2; 5] 8)) by (right; simpl; lia).
  split; [ reflexivity | ]. split; [ exact Hp | ]. split; [ reflexivity | ].
  exact (normaliser_idempotent_on_plain (js "2.5 Cr") (Dec [2; 5] 8) eq_refl Hp).
Defined.

End normaliser.


(** ** Rows of the transformed batch *)

Section transformer_rows.
Import Js Num Value Transformer.

Lemma mapM_imap_lookup_r {A B} (f : nat → A → option B) (l : list A)
    (k : list B) (i : nat) (y : B) :
  mapM id (imap f l) = Some k → k !! i = Some y →
  ∃ x, l !! i = Some x ∧ f i x = Some y.
Proof.
  intros Hm Hy. apply mapM_Some in Hm.
  destruct (Forall2_lookup_r _ _ _ _ _ Hm Hy) as (o & Ho & Hoy).
  rewrite list_lookup_imap in Ho.
  destruct (l !! i) as [x | ]; [ | discriminate ].
  injection Ho as <-. by exists x.
Qed.

Lemma mapM_imap_lookup_l {A B} (f : nat → A → option B) (l : list A)
    (k : list B) (i : nat) (x : A) :
  mapM id (imap f l) = Some k → l !! i = Some x →
  ∃ y, k !! i = Some y ∧ f i x = Some y.
Proof.
  intros Hm Hx. apply mapM_Some in Hm.
  assert (Hi : imap f l !! i = Some (f i x)) by by rewrite list_lookup_imap, Hx.
  destruct (Forall2_lookup_l _ _ _ _ _ Hm Hi) as (y & Hy & Hfy).
  by exists y.
Qed.

Lemma positive_spec (x : number) :
  truthy x = true → leb_zero x = false → positive x.
Proof.
  destruct x as [ | s | s d ]; simpl; try discriminate.
  - by intros _ ->.
  - intros Hz%negb_true_iff Hs. rewrite Hz, orb_false_r in Hs. by subst s.
Qed.

Lemma positive_truthy (x : number) : positive x → truthy x = true.
Proof.
  destruct x as [ | [ | ] | [ | ] d ]; simpl; try done. by intros ->.
Qed.

Lemma completed_filter_id (record : raw_record) :
  completed_filter record = true → positive (work_id record).
Proof.
  unfold completed_filter, work_id. intros H.
  destruct (valid_names record); [ | discriminate ]. simpl in H.
  destruct (negb (to_boolean (field record "ACTUAL_END_DATE"))
            || negb (to_boolean (field record "ACTUAL_AMOUNT"))); [ discriminate | ].
  destruct (truthy (parseInt (field record "WORK_RECOMMENDATION_DTL_ID"))) eqn:Ht;
    [ | discriminate ].
  simpl in H.
  destruct (leb_zero (parseInt (field record "WORK_RECOMMENDATION_DTL_ID"))) eqn:Hl;
    [ discriminate | ].
  by apply positive_spec.
Qed.

Lemma recommended_filter_id (ids : gset number) (record : raw_record) :
  recommended_filter ids record = true → positive (work_id record).
Proof.
  unfold recommended_filter, work_id. intros H.
  destruct (valid_names record); [ | discriminate ]. simpl in H.
  destruct (truthy (parseInt (field record "WORK_RECOMMENDATION_DTL_ID"))) eqn:Ht;
    [ | discriminate ].
  destruct (set_has ids _); [ discriminate | ].
  destruct (leb_zero (parseInt (field record "WORK_RECOMMENDATION_DTL_ID"))) eqn:Hl;
    [ discriminate | ].
  by apply positive_spec.
Qed.

(** X1: every completed work and every recommended work that leaves the
    transformer has a work id above zero; ids that are missing, not numeric,
    zero or negative never reach the output. *)
Theorem work_ids_positive (apiData : list raw_record) (house : jstring)
    (lsTerm : value) (ids : gset number) :
  (∀ comp c, transformWorksCompleted apiData house lsTerm = Some comp →
             c ∈ comp → positive (c_workId c))
  ∧ (∀ recs r, transformWorksRecommended apiData house lsTerm ids = Some recs →
               r ∈ recs → positive (r_workId r)).
Proof.
  split.
  - intros comp c Ht Hc.
    destruct (mapM_imap_elem _ _ _ _ Ht Hc) as (i & record & Hrec & Hmap).
    apply lookup_filter_holds in Hrec.
    apply completed_map_inv in Hmap as (description & amount & _ & _ & ->).
    by apply completed_filter_id.
  - intros recs r Ht Hr.
    destruct (mapM_imap_elem _ _ _ _ Ht Hr) as (i & record & Hrec & Hmap).
    apply lookup_filter_holds in Hrec.
    apply recommended_map_inv in Hmap as (description & amount & _ & _ & ->).
    by apply (recommended_filter_id ids).
Qed.

Lemma work_ids_positive_witness :
  ∃ comp c,
    transformWorksCompleted (works_completed (lok_sabha sample_batch))
      (js "Lok Sabha") VNull = Some comp
    ∧ c ∈ comp ∧ positive (c_workId c).
Proof.
  eexists _, _.
  assert (Ht : transformWorksCompleted (works_completed (lok_sabha sample_batch))
                 (js "Lok Sabha") VNull
               = Some [CompletedWork (VNum (num_of_Z 1)) VUndefined (num_of_Z 7)
                         (VStr (js "Bihar")) VUndefined
                         (js "No description available") (VStr (js "A. Kumar"))
                         false (num_of_Z 123456) (js "Lok Sabha") VNull])
    by (vm_compute; reflexivity).
  split; [ exact Ht | ].
  assert (Hc : CompletedWork (VNum (num_of_Z 1)) VUndefined (num_of_Z 7)
                 (VStr (js "Bihar")) VUndefined
                 (js "No description available") (VStr (js "A. Kumar"))
                 false (num_of_Z 123456) (js "Lok Sabha") VNull
               ∈ [CompletedWork (VNum (num_of_Z 1)) VUndefined (num_of_Z 7)
                    (VStr (js "Bihar")) VUndefined
                    (js "No description available") (VStr (js "A. Kumar"))
                    false (num_of_Z 123456) (js "Lok Sabha") VNull]) by left.
  split; [ exact Hc | ].
  exact (proj1 (work_ids_positive (works_completed (lok_sabha sample_batch))
                  (js "Lok Sabha") VNull ∅) _ _ Ht Hc).
Defined.

Lemma valid_names_spec (record : raw_record) :
  valid_names record = true →
  (2 ≤ length (name_text (field record "STATE_NAME")))%nat
  ∧ (2 ≤ length (name_text (field record "MP_NAME")))%nat
  ∧ includes (toLowerCase (name_text (field record "STATE_NAME"))) (js "total") = false
  ∧ includes (toLowerCase (name_text (field record "MP_NAME"))) (js "total") = false.
Proof.
  unfold valid_names.
  fold (name_text (field record "STATE_NAME")) (name_text (field record "MP_NAME")).
  destruct (name_text (field record "STATE_NAME")) as [ | a [ | b s ] ] eqn:Hs;
    try discriminate;
    destruct (name_text (field record "MP_NAME")) as [ | a' [ | b' m ] ] eqn:Hm;
    try discriminate.
  cbn [to_boolean negb orb length Nat.leb].
  destruct (includes (toLowerCase (a :: b :: s)) (js "total")); [ discriminate | ].
  destruct (includes (toLowerCase (a' :: b' :: m)) (js "total")); [ discriminate | ].
  intros _. simpl. split_and!; (lia || reflexivity).
Qed.

Lemma completed_filter_names (record : raw_record) :
  completed_filter record = true → valid_names record = true.
Proof. unfold completed_filter. by destruct (valid_names record). Qed.

Lemma recommended_filter_names (ids : gset number) (record : raw_record) :
  recommended_filter ids record = true → valid_names record = true.
Proof. unfold recommended_filter. by destruct (valid_names record). Qed.

(** X2: in each of the four transformations, every record that is put out
    has a state name and an MP name of at least two characters (after
    trimming), neither of which contains "total" in any letter case: rows
    of totals and rows without names are never put out. *)
Theorem output_names_valid (apiData : list raw_record) (house : jstring)
    (lsTerm : value) (ids : gset number) :
  let good := λ state mp,
    (2 ≤ length (name_text state))%nat ∧ (2 ≤ length (name_text mp))%nat
    ∧ includes (toLowerCase (name_text state)) (js "total") = false
    ∧ includes (toLowerCase (name_text mp)) (js "total") = false in
  (∀ out a, transformAllocatedLimit apiData house lsTerm = Some out →
            a ∈ out → good (a_state a) (a_mpName a))
  ∧ (∀ out e, transformExpenditure apiData house lsTerm = Some out →
              e ∈ out → good (e_state e) (e_mpName e))
  ∧ (∀ out c, transformWorksCompleted apiData house lsTerm = Some out →
              c ∈ out → good (c_state c) (c_mpName c))
  ∧ (∀ out r, transformWorksRecommended apiData house lsTerm ids = Some out →
              r ∈ out → good (r_state r) (r_mpName r)).
Proof.
  intros good. subst good. cbv beta. split_and!.
  - intros out a Ht Ha.
    destruct (mapM_imap_elem _ _ _ _ Ht Ha) as (i & record & Hrec & Hmap).
    apply lookup_filter_holds in Hrec. unfold allocation_map in Hmap.
    destruct (parseIndianNumber _); [ | discriminate ].
    injection Hmap as <-. by apply valid_names_spec.
  - intros out e Ht He.
    destruct (mapM_imap_elem _ _ _ _ Ht He) as (i & record & Hrec & Hmap).
    apply lookup_filter_holds in Hrec. unfold expenditure_map in Hmap.
    destruct (cleanText _); [ | discriminate ]. cbn [mbind option_bind] in Hmap.
    destruct (parseIndianNumber _); [ | discriminate ].
    injection Hmap as <-. by apply valid_names_spec.
  - intros out c Ht Hc.
    destruct (mapM_imap_elem _ _ _ _ Ht Hc) as (i & record & Hrec & Hmap).
    apply lookup_filter_holds, completed_filter_names in Hrec.
    apply completed_map_inv in Hmap as (description & amount & _ & _ & ->).
    by apply valid_names_spec.
  - intros out r Ht Hr.
    destruct (mapM_imap_elem _ _ _ _ Ht Hr) as (i & record & Hrec & Hmap).
    apply lookup_filter_holds, recommended_filter_names in Hrec.
    apply recommended_map_inv in Hmap as (description & amount & _ & _ & ->).
    by apply valid_names_spec.
Qed.

Lemma output_names_valid_witness :
  ∃ out a,
    transformAllocatedLimit (works_completed (lok_sabha sample_batch))
      (js "Lok Sabha") VNull = Some out
    ∧ a ∈ out
    ∧ includes (toLowerCase (name_text (a_state a))) (js "total") = false.
Proof.
  eexists _, _.
  assert (Ht : transformAllocatedLimit (works_completed (lok_sabha sample_batch))
                 (js "Lok Sabha") VNull
               = Some [Allocation (VNum (num_of_Z 1)) (VStr (js "Bihar"))
                         (VStr (js "A. Kumar")) zero (js "Lok Sabha") VNull])
    by (vm_compute; reflexivity).
  split; [ exact Ht | ].
  assert (Ha : Allocation (VNum (num_of_Z 1)) (VStr (js "Bihar"))
                 (VStr (js "A. Kumar")) zero (js "Lok Sabha") VNull
               ∈ [Allocation (VNum (num_of_Z 1)) (VStr (js "Bihar"))
                    (VStr (js "A. Kumar")) zero (js "Lok Sabha") VNull]) by left.
  split; [ exact Ha | ].
  exact (proj1 (proj2 (proj2 (proj1
           (output_names_valid (works_completed (lok_sabha sample_batch))
              (js "Lok Sabha") VNull ∅) _ _ Ht Ha)))).
Defined.

(** X3: a completed work is numbered by the row it was made from: a row
    without a serial number of its own gets its position among the rows that
    are kept, counted from 1, not its position in the upstream list; a row
    with a serial number keeps it, whatever numbers the rows around it
    get. *)
Theorem serial_numbers_by_kept_position (apiData : list raw_record)
    (house : jstring) (lsTerm : value) (comp : list completed_work) :
  transformWorksCompleted apiData house lsTerm = Some comp →
  length comp = length (List.filter completed_filter apiData)
  ∧ ∀ i c, comp !! i = Some c →
      ∃ record,
        List.filter completed_filter apiData !! i = Some record
        ∧ c_workId c = work_id record
        ∧ (to_boolean (field record "Sno") = false →
           c_srNo c = VNum (num_of_Z (Z.of_nat i + 1)))
        ∧ (to_boolean (field record "Sno") = true →
           c_srNo c = field record "Sno").
Proof.
  intros Ht. split.
  - pose proof Ht as Hm. apply mapM_Some, Forall2_length in Hm.
    rewrite length_imap in Hm. by rewrite Hm.
  - intros i c Hc.
    destruct (mapM_imap_lookup_r _ _ _ _ _ Ht Hc) as (record & Hrec & Hmap).
    exists record. split; [ exact Hrec | ].
    apply completed_map_inv in Hmap as (description & amount & _ & _ & ->).
    cbn [c_workId c_srNo]. unfold serial, or_else.
    split; [ reflexivity | ]. split; intros ->; reflexivity.
Qed.

Lemma serial_numbers_by_kept_position_witness :
  let rows := [ sample_row VNull [];
                <["Sno" := VNum (num_of_Z 10)]>
                  (sample_row (VNum (num_of_Z 7))
                     [ ("ACTUAL_END_DATE", VStr (js "15-Aug-2025"));
                       ("ACTUAL_AMOUNT", VStr (js "₹1,23,456")) ]);
                sample_row (VNum (num_of_Z 8))
                  [ ("ACTUAL_END_DATE", VStr (js "16-Aug-2025"));
                    ("ACTUAL_AMOUNT", VStr (js "1 lakh")) ] ] in
  ∃ comp,
    transformWorksCompleted rows (js "Lok Sabha") VNull = Some comp
    ∧ c_srNo <$> comp = [VNum (num_of_Z 10); VNum (num_of_Z 2)]
    ∧ length comp = length (List.filter completed_filter rows).
Proof.
  intros rows.
  assert (Hrun : ∃ comp, transformWorksCompleted rows (js "Lok Sabha") VNull = Some comp
                         ∧ c_srNo <$> comp = [VNum (num_of_Z 10); VNum (num_of_Z 2)]).
  { vm_compute. eexists. split; reflexivity. }
  destruct Hrun as (comp & Ht & Hs).
  exists comp. split; [ exact Ht | ]. split; [ exact Hs | ].
  exact (proj1 (serial_numbers_by_kept_position rows (js "Lok Sabha") VNull comp Ht)).
Defined.

Lemma completed_terms (apiData : list raw_record) (house : jstring)
    (lsTerm : value) (comp : list completed_work) (c : completed_work) :
  transformWorksCompleted apiData house lsTerm = Some comp → c ∈ comp →
  c_house c = house ∧ c_lsTerm c = term_of house (default_null lsTerm).
Proof.
  intros Ht Hc.
  destruct (mapM_imap_elem _ _ _ _ Ht Hc) as (i & record & _ & Hmap).
  by apply completed_map_inv in Hmap as (description & amount & _ & _ & ->).
Qed.

Lemma recommended_terms (apiData : list raw_record) (house : jstring)
    (lsTerm : value) (ids : gset number) (recs : list recommended_work)
    (r : recommended_work) :
  transformWorksRecommended apiData house lsTerm ids = Some recs → r ∈ recs →
  r_house r = house ∧ r_lsTerm r = term_of house (default_null lsTerm).
Proof.
  intros Ht Hr.
  destruct (mapM_imap_elem _ _ _ _ Ht Hr) as (i & record & _ & Hmap).
  by apply recommended_map_inv in Hmap as (description & amount & _ & _ & ->).
Qed.

Lemma allocation_terms (apiData : list raw_record) (house : jstring)
    (lsTerm : value) (out : list allocation_record) (a : allocation_record) :
  transformAllocatedLimit apiData house lsTerm = Some out → a ∈ out →
  a_house a = house ∧ a_lsTerm a = term_of house (default_null lsTerm).
Proof.
  intros Ht Ha.
  destruct (mapM_imap_elem _ _ _ _ Ht Ha) as (i & record & _ & Hmap).
  unfold allocation_map in Hmap.
  destruct (parseIndianNumber _); [ | discriminate ].
  by injection Hmap as <-.
Qed.

Lemma expenditure_terms (apiData : list raw_record) (house : jstring)
    (lsTerm : value) (out : list expenditure_record) (e : expenditure_record) :
  transformExpenditure apiData house lsTerm = Some out → e ∈ out →
  e_house e = house ∧ e_lsTerm e = term_of house (default_null lsTerm).
Proof.
  intros Ht He.
  destruct (mapM_imap_elem _ _ _ _ Ht He) as (i & record & _ & Hmap).
  unfold expenditure_map in Hmap.
  destruct (cleanText _); [ | discriminate ]. cbn [mbind option_bind] in Hmap.
  destruct (parseIndianNumber _); [ | discriminate ].
  by injection Hmap as <-.
Qed.

Lemma transform_house_money (data : raw_works) (house : jstring)
    (lsTerm : value) (w : works) :
  transform_house data house lsTerm = Some w →
  transformAllocatedLimit (allocated_limit data) house lsTerm = Some (allocations w)
  ∧ transformExpenditure (expenditure data) house lsTerm = Some (expenditures w).
Proof.
  unfold transform_house. intros H.
  destruct (transformAllocatedLimit _ _ _) as [alloc | ]; [ | discriminate ].
  cbn [mbind option_bind] in H.
  destruct (transformExpenditure _ _ _) as [spent | ]; [ | discriminate ].
  cbn [mbind option_bind] in H.
  destruct (transformWorksCompleted _ _ _) as [comp | ]; [ | discriminate ].
  cbn [mbind option_bind] in H.
  destruct (transformWorksRecommended _ _ _ _) as [recs | ]; [ | discriminate ].
  cbn [mbind option_bind] in H. injection H as <-. by split.
Qed.

Lemma default_null_defined (v : value) :
  default_null v ≠ VUndefined ∧ default_null (default_null v) = default_null v.
Proof. by destruct v. Qed.

(** X4: in the batch made by [transformAllData], every Rajya Sabha record
    (allocation, expenditure, completed or recommended work) carries the
    house "Rajya Sabha" and a [null] term, whatever term the options give,
    and every Lok Sabha record carries the house "Lok Sabha" and the term
    of the options; when the options give no term, or [undefined], that
    term is [null], so no record carries [undefined]. *)
Theorem terms_by_chamber (apiData : api_data) (options : raw_record)
    (res : results) :
  transformAllData apiData options = Some res →
  let term := match field options "lsTerm" with
              | VUndefined => VNull
              | given => given
              end in
  let rs := res_rajya_sabha res in
  let ls := res_lok_sabha res in
  ((∀ a, a ∈ allocations rs → a_house a = js "Rajya Sabha" ∧ a_lsTerm a = VNull)
   ∧ (∀ e, e ∈ expenditures rs → e_house e = js "Rajya Sabha" ∧ e_lsTerm e = VNull)
   ∧ (∀ c, c ∈ completed rs → c_house c = js "Rajya Sabha" ∧ c_lsTerm c = VNull)
   ∧ (∀ r, r ∈ recommended rs → r_house r = js "Rajya Sabha" ∧ r_lsTerm r = VNull))
  ∧ ((∀ a, a ∈ allocations ls → a_house a = js "Lok Sabha" ∧ a_lsTerm a = term)
     ∧ (∀ e, e ∈ expenditures ls → e_house e = js "Lok Sabha" ∧ e_lsTerm e = term)
     ∧ (∀ c, c ∈ completed ls → c_house c = js "Lok Sabha" ∧ c_lsTerm c = term)
     ∧ (∀ r, r ∈ recommended ls → r_house r = js "Lok Sabha" ∧ r_lsTerm r = term))
  ∧ term ≠ VUndefined.
Proof.
  intros H term rs ls.
  assert (Hterm : term = default_null (field options "lsTerm")).
  { subst term. by destruct (field options "lsTerm"). }
  clearbody term. subst term.
  apply transformAllData_parts in H as [Hls Hrs]. fold ls in Hls. fold rs in Hrs.
  pose proof (transform_house_parts _ _ _ _ Hls) as [Hlc Hlr].
  pose proof (transform_house_money _ _ _ _ Hls) as [Hla Hle].
  pose proof (transform_house_parts _ _ _ _ Hrs) as [Hrc Hrr].
  pose proof (transform_house_money _ _ _ _ Hrs) as [Hra Hre].
  pose proof (default_null_defined (field options "lsTerm")) as [Hdef Hidem].
  assert (Hl : term_of (js "Lok Sabha")
                 (default_null (default_null (field options "lsTerm")))
               = default_null (field options "lsTerm")).
  { rewrite Hidem. reflexivity. }
  assert (Hr : term_of (js "Rajya Sabha") (default_null VNull) = VNull)
    by reflexivity.
  split_and!; [ .. | exact Hdef ].
  - intros a Ha. rewrite <- Hr. exact (allocation_terms _ _ _ _ _ Hra Ha).
  - intros e He. rewrite <- Hr. exact (expenditure_terms _ _ _ _ _ Hre He).
  - intros c Hc. rewrite <- Hr. exact (completed_terms _ _ _ _ _ Hrc Hc).
  - intros r Hr'. rewrite <- Hr. exact (recommended_terms _ _ _ _ _ _ Hrr Hr').
  - intros a Ha. rewrite <- Hl. exact (allocation_terms _ _ _ _ _ Hla Ha).
  - intros e He. rewrite <- Hl. exact (expenditure_terms _ _ _ _ _ Hle He).
  - intros c Hc. rewrite <- Hl. exact (completed_terms _ _ _ _ _ Hlc Hc).
  - intros r Hr'. rewrite <- Hl. exact (recommended_terms _ _ _ _ _ _ Hlr Hr').
Qed.

Lemma terms_by_chamber_witness :
  ∃ res res',
    transformAllData sample_batch (term_options (VStr (js "17"))) = Some res
    ∧ c_lsTerm <$> completed (res_lok_sabha res) = [VStr (js "17")]
    ∧ transformAllData sample_batch (term_options VUndefined) = Some res'
    ∧ (∀ c, c ∈ completed (res_lok_sabha res') →
            c_house c = js "Lok Sabha" ∧ c_lsTerm c = VNull).
Proof.
  assert (Hrun : ∃ res0, transformAllData sample_batch (term_options (VStr (js "17")))
                         = Some res0
            ∧ c_lsTerm <$> completed (res_lok_sabha res0) = [VStr (js "17")]).
  { vm_compute. eexists. split; reflexivity. }
  assert (Hrun' : ∃ res0, transformAllData sample_batch (term_options VUndefined)
                          = Some res0).
  { vm_compute. eexists. reflexivity. }
  destruct Hrun as (res & Hres & Hterms). destruct Hrun' as (res' & Hres').
  exists res, res'. split; [ exact Hres | ]. split; [ exact Hterms | ].
  split; [ exact Hres' | ].
  exact (proj1 (proj2 (proj2 (proj1 (proj2
           (terms_by_chamber sample_batch (term_options VUndefined) res' Hres')))))).
Defined.

Lemma set_key_truthy (x : number) : truthy x = true → set_key x = x.
Proof.
  destruct x as [ | s | [ | ] d ]; try reflexivity.
  simpl. by intros ->%negb_true_iff.
Qed.

(** X5: the de-duplication drops nothing else.  A recommended row with
    valid names, a work id above zero, a recommendation date and an amount
    has its work id among the recommended works put out exactly when that id
    is not the id of a completed work of the batch. *)
Theorem recommended_kept_unless_completed (data : raw_works) (house : jstring)
    (lsTerm : value) (w : works) (record : raw_record) :
  transform_house data house lsTerm = Some w →
  record ∈ works_recommended data →
  valid_names record = true →
  positive (work_id record) →
  to_boolean (field record "RECOMMENDATION_DATE") = true →
  to_boolean (field record "RECOMMENDED_AMOUNT") = true →
  work_id record ∈ r_workId <$> recommended w
  ↔ work_id record ∉ c_workId <$> completed w.
Proof.
  intros Hw Hin Hnames Hpos Hdate Hamount.
  pose proof (transform_house_dedup _ _ _ _ Hw) as Hfresh.
  split.
  - intros Hout. apply list_elem_of_fmap in Hout as (r & Heq & Hr).
    rewrite Heq. by apply Hfresh.
  - intros Hnot.
    apply transform_house_parts in Hw as [Hcomp Hrecs].
    set (ids := set_of (List.filter truthy (c_workId <$> completed w))) in *.
    assert (Htruthy : truthy (parseInt (field record "WORK_RECOMMENDATION_DTL_ID")) = true).
    { unfold work_id in Hpos.
      destruct (truthy (parseInt _)) eqn:Ht; [ reflexivity | ].
      by vm_compute in Hpos. }
    assert (Hid : work_id record = parseInt (field record "WORK_RECOMMENDATION_DTL_ID")).
    { unfold work_id. by rewrite Htruthy. }
    assert (Hpass : recommended_filter ids record = true).
    { unfold recommended_filter. rewrite Hnames, Htruthy, Hdate, Hamount.
      cbn [negb orb]. rewrite <- Hid.
      assert (Hhas : set_has ids (work_id record) = false).
      { unfold set_has. apply bool_decide_eq_false. intros Hmem.
        unfold ids, set_of in Hmem.
        apply elem_of_list_to_set, list_elem_of_fmap in Hmem as (y & Hy & Hyin).
        apply list_elem_of_In, filter_In in Hyin as [Hyin Hyt].
        rewrite (set_key_truthy _ Hyt) in Hy.
        rewrite set_key_truthy in Hy by by apply positive_truthy.
        apply Hnot. rewrite Hy. by apply list_elem_of_In. }
      rewrite Hhas.
      assert (Hle : leb_zero (work_id record) = false).
      { destruct (work_id record) as [ | [ | ] | [ | ] d ]; simpl in *; try done. }
      by rewrite Hle. }
    assert (Hkept : record ∈ List.filter (recommended_filter ids) (works_recommended data)).
    { apply list_elem_of_In, filter_In. split; [ by apply list_elem_of_In | exact Hpass ]. }
    apply list_elem_of_lookup in Hkept as [i Hi].
    destruct (mapM_imap_lookup_l _ _ _ _ _ Hrecs Hi) as (r & Hr & Hmap).
    apply recommended_map_inv in Hmap as (description & amount & _ & _ & ->).
    apply list_elem_of_fmap.
    eexists. split; [ | apply list_elem_of_lookup; eauto ]. reflexivity.
Qed.

Lemma recommended_kept_unless_completed_witness :
  let record := sample_row (VNum (num_of_Z 8))
                  [ ("RECOMMENDATION_DATE", VStr (js "02-Jan-2025"));
                    ("RECOMMENDED_AMOUNT", VStr (js "1 lakh")) ] in
  ∃ w,
    transform_house (lok_sabha sample_batch) (js "Lok Sabha") VNull = Some w
    ∧ record ∈ works_recommended (lok_sabha sample_batch)
    ∧ valid_names record = true
    ∧ positive (work_id record)
    ∧ to_boolean (field record "RECOMMENDATION_DATE") = true
    ∧ to_boolean (field record "RECOMMENDED_AMOUNT") = true
    ∧ (work_id record ∈ r_workId <$> recommended w
       ↔ work_id record ∉ c_workId <$> completed w).
Proof.
  intros record.
  assert (Hrun : ∃ w, transform_house (lok_sabha sample_batch) (js "Lok Sabha") VNull
                      = Some w).
  { vm_compute. eexists. reflexivity. }
  destruct Hrun as (w & Hw). exists w.
  assert (Hin : record ∈ works_recommended (lok_sabha sample_batch)).
  { right. left. }
  assert (Hn : valid_names record = true) by (by vm_compute).
  assert (Hp : positive (work_id record)) by (by vm_compute).
  assert (Hd : to_boolean (field record "RECOMMENDATION_DATE") = true) by (by vm_compute).
  assert (Ha : to_boolean (field record "RECOMMENDED_AMOUNT") = true) by (by vm_compute).
  split_and!; try assumption.
  exact (recommended_kept_unless_completed (lok_sabha sample_batch) (js "Lok Sabha")
           VNull w record Hw Hin Hn Hp Hd Ha).
Defined.

(** *** Text cleaning *)

Lemma starts_with_extend (p s t : jstring) :
  starts_with p s = true → starts_with p (s ++ t) = true.
Proof.
  revert s. induction p as [ | a p IH ]; intros s H; [ by destruct s | ].
  destruct s as [ | b s ]; [ discriminate | ].
  simpl in *. apply andb_true_iff in H as [-> H]. by apply IH.
Qed.

Lemma includes_cons (c : N) (s p : jstring) :
  includes (c :: s) p = starts_with p (c :: s) || includes s p.
Proof. reflexivity. Qed.

Lemma includes_in_suffix (a b p : jstring) :
  includes b p = true → includes (a ++ b) p = true.
Proof.
  intros H. induction a as [ | c a IH ]; [ exact H | ].
  change ((c :: a) ++ b) with (c :: (a ++ b)).
  rewrite includes_cons, IH. apply orb_true_r.
Qed.

Lemma includes_in_prefix (a b p : jstring) :
  includes a p = true → includes (a ++ b) p = true.
Proof.
  induction a as [ | c a IH ]; intros H.
  - simpl in H. apply orb_true_iff in H as [H | H]; [ | discriminate ].
    destruct p; [ by destruct b | discriminate ].
  - change ((c :: a) ++ b) with (c :: (a ++ b)).
    rewrite includes_cons in *. apply orb_true_iff in H as [H | H].
    + pose proof (starts_with_extend p (c :: a) b H) as H'.
      change ((c :: a) ++ b) with (c :: (a ++ b)) in H'. by rewrite H'.
    + rewrite (IH H). apply orb_true_r.
Qed.

Lemma trim_start_suffix (s : jstring) : ∃ w, s = w ++ trim_start s.
Proof.
  induction s as [ | c s [w IH] ]; [ by exists [] | ].
  simpl. destruct (is_space c); [ | by exists [] ].
  exists (c :: w). simpl. by rewrite <- IH.
Qed.

Lemma trim_end_prefix (s : jstring) : ∃ w, s = trim_end s ++ w.
Proof.
  unfold trim_end. destruct (trim_start_suffix (rev s)) as [w Hw].
  exists (rev w). apply (f_equal (@rev N)) in Hw.
  by rewrite rev_involutive, rev_app_distr in Hw.
Qed.

(** Trimming only takes characters away at the two ends. *)
Lemma trim_middle (s : jstring) : ∃ a b, s = a ++ trim s ++ b.
Proof.
  unfold trim. destruct (trim_start_suffix s) as [a Ha].
  destruct (trim_end_prefix (trim_start s)) as [b Hb].
  exists a, b. by rewrite <- Hb.
Qed.

Lemma includes_trim (s p : jstring) :
  includes (trim s) p = true → includes s p = true.
Proof.
  intros H. destruct (trim_middle s) as (a & b & Hs). rewrite Hs.
  by apply includes_in_suffix, includes_in_prefix.
Qed.

Lemma no_marks_after_short_run (k : nat) (c : N) (t : jstring) :
  (k < 3)%nat → (c =? 0x3F) = false → includes t (js "???") = false →
  includes (repeat 0x3F k ++ c :: t) (js "???") = false.
Proof.
  intros Hk Hc Ht.
  destruct k as [ | [ | [ | k ] ] ]; [ | | | lia ];
    cbn [repeat app]; rewrite !includes_cons, Ht;
    change (js "???") with [0x3F; 0x3F; 0x3F]; cbn [starts_with];
    rewrite ?N.eqb_refl, ?Hc; cbn [andb orb];
    rewrite ?(N.eqb_sym 0x3F c), ?Hc; reflexivity.
Qed.

Lemma kept_marks_short (pending : nat) :
  ∃ k, (k < 3)%nat ∧ kept_marks pending = repeat 0x3F k.
Proof.
  unfold kept_marks. destruct (pending <? 3)%nat eqn:H.
  - exists pending. split; [ by apply Nat.ltb_lt | reflexivity ].
  - exists 0%nat. split; [ lia | reflexivity ].
Qed.

Lemma remove_mark_runs_clean (pending : nat) (s : jstring) :
  includes (remove_mark_runs pending s) (js "???") = false.
Proof.
  revert pending. induction s as [ | c s IH ]; intros pending; simpl.
  - destruct (kept_marks_short pending) as (k & Hk & ->).
    destruct k as [ | [ | [ | k ] ] ]; [ reflexivity .. | lia ].
  - destruct (c =? 0x3F) eqn:Hc; [ apply IH | ].
    destruct (kept_marks_short pending) as (k & Hk & ->).
    by apply no_marks_after_short_run.
Qed.

Lemma includes_suffix_false (a b p : jstring) :
  includes (a ++ b) p = false → includes b p = false.
Proof.
  intros H. destruct (includes b p) eqn:Hb; [ | reflexivity ].
  by rewrite (includes_in_suffix a b p Hb) in H.
Qed.

Lemma long_run_includes (k : nat) (s : jstring) :
  (3 ≤ k)%nat → includes (repeat 0x3F k ++ s) (js "???") = true.
Proof.
  intros Hk. destruct k as [ | [ | [ | k ] ] ]; try lia. reflexivity.
Qed.

Lemma remove_mark_runs_id (pending : nat) (s : jstring) :
  includes (repeat 0x3F pending ++ s) (js "???") = false →
  remove_mark_runs pending s = repeat 0x3F pending ++ s.
Proof.
  revert pending. induction s as [ | c s IH ]; intros pending H.
  - simpl. unfold kept_marks. destruct (pending <? 3)%nat eqn:Hp.
    + by rewrite app_nil_r.
    + apply Nat.ltb_ge in Hp. by rewrite long_run_includes in H.
  - simpl. destruct (c =? 0x3F) eqn:Hc.
    + apply N.eqb_eq in Hc. subst c.
      rewrite IH.
      * change (repeat 0x3F (S pending)) with (0x3F :: repeat 0x3F pending).
        by rewrite (repeat_cons pending), <- app_assoc.
      * change (repeat 0x3F (S pending)) with (0x3F :: repeat 0x3F pending).
        by rewrite (repeat_cons pending), <- app_assoc.
    + unfold kept_marks. destruct (pending <? 3)%nat eqn:Hp.
      * f_equal. f_equal.
        apply (IH 0%nat). simpl.
        apply (includes_suffix_false (repeat 0x3F pending ++ [c])).
        by rewrite <- app_assoc.
      * apply Nat.ltb_ge in Hp. by rewrite long_run_includes in H.
Qed.

(** X6: the text that [cleanText] returns never contains three question
    marks in a row, and a text that had none to begin with is only trimmed. *)
Theorem cleanText_question_marks (s t : jstring) :
  cleanText (VStr s) = Some t →
  includes t (js "???") = false
  ∧ (includes s (js "???") = false → t = trim s).
Proof.
  unfold cleanText. destruct (negb (to_boolean (VStr s))) eqn:Hb.
  - intros [= <-]. split; [ reflexivity | ]. intros _.
    destruct s; [ reflexivity | discriminate Hb ].
  - intros [= <-]. split.
    + apply not_true_is_false. intros H%includes_trim.
      by rewrite remove_mark_runs_clean in H.
    + intros H. by rewrite (remove_mark_runs_id 0 s H).
Qed.

Lemma cleanText_question_marks_witness :
  cleanText (VStr (js " Road ???? repair?? ")) = Some (js "Road  repair??")
  ∧ includes (js "Road  repair??") (js "???") = false.
Proof.
  assert (H : cleanText (VStr (js " Road ???? repair?? ")) = Some (js "Road  repair??"))
    by reflexivity.
  split; [ exact H | ].
  exact (proj1 (cleanText_question_marks _ _ H)).
Defined.

Lemma cleanText_is_Some (v : value) :
  is_Some (cleanText v) ↔ to_boolean v = false ∨ ∃ s, v = VStr s.
Proof.
  unfold cleanText. split.
  - destruct (to_boolean v) eqn:Hb; [ | by left ].
    cbn [negb]. destruct v; intros [t Ht]; try discriminate Ht.
    right. by eexists.
  - intros [ -> | [s ->] ]; [ by eexists | ].
    destruct (negb (to_boolean (VStr s))); by eexists.
Qed.

Lemma cleanText_empty_or_text (v : value) (t : jstring) :
  cleanText v = Some t → to_boolean (VStr t) = false → t = [].
Proof. intros _. by destruct t. Qed.

Lemma workDescription_chosen (record : raw_record) (d : jstring) :
  workDescription record = Some d →
  d ≠ []
  ∧ ∃ a, cleanText (field record "WORK_DESCRIPTION") = Some a
      ∧ match a with
        | _ :: _ => d = a
        | [] =>
            ∃ b, cleanText (field record "ACTIVITY_NAME") = Some b
              ∧ match b with
                | _ :: _ => d = b
                | [] => d = js "No description available"
                end
        end.
Proof.
  unfold workDescription. intros H.
  destruct (cleanText (field record "WORK_DESCRIPTION")) as [ [ | c a ] | ];
    cbn [mbind option_bind to_boolean] in H; [ | | discriminate ].
  - destruct (cleanText (field record "ACTIVITY_NAME")) as [ [ | c b ] | ];
      cbn [mbind option_bind to_boolean] in H; [ | | discriminate ].
    + injection H as <-. split; [ done | ].
      exists []. split; [ reflexivity | ]. exists []. by split.
    + injection H as <-. split; [ done | ].
      exists []. split; [ reflexivity | ]. exists (c :: b). by split.
  - injection H as <-. split; [ done | ]. exists (c :: a). by split.
Qed.

(** X7: the description of every completed and every recommended work put
    out is never empty, and it is chosen from the row the work was made
    from in this order: the cleaned [WORK_DESCRIPTION] if that is not empty,
    else the cleaned [ACTIVITY_NAME] if that is not empty, else the text
    "No description available". *)
Theorem workDescription_never_empty (apiData : list raw_record)
    (house : jstring) (lsTerm : value) (ids : gset number) :
  let chosen := λ (record : raw_record) (d : jstring),
    ∃ a, cleanText (field record "WORK_DESCRIPTION") = Some a
      ∧ match a with
        | _ :: _ => d = a
        | [] =>
            ∃ b, cleanText (field record "ACTIVITY_NAME") = Some b
              ∧ match b with
                | _ :: _ => d = b
                | [] => d = js "No description available"
                end
        end in
  (∀ comp i c,
     transformWorksCompleted apiData house lsTerm = Some comp →
     comp !! i = Some c →
     c_workDescription c ≠ []
     ∧ ∃ record, List.filter completed_filter apiData !! i = Some record
                 ∧ chosen record (c_workDescription c))
  ∧ (∀ recs i r,
       transformWorksRecommended apiData house lsTerm ids = Some recs →
       recs !! i = Some r →
       r_workDescription r ≠ []
       ∧ ∃ record, List.filter (recommended_filter ids) apiData !! i = Some record
                   ∧ chosen record (r_workDescription r)).
Proof.
  intros chosen. subst chosen. cbv beta. split.
  - intros comp i c Ht Hc.
    destruct (mapM_imap_lookup_r _ _ _ _ _ Ht Hc) as (record & Hrec & Hmap).
    apply completed_map_inv in Hmap as (description & amount & Hd & _ & ->).
    cbn [c_workDescription].
    destruct (workDescription_chosen _ _ Hd) as [Hne Hch].
    split; [ exact Hne | ]. exists record. by split.
  - intros recs i r Ht Hr.
    destruct (mapM_imap_lookup_r _ _ _ _ _ Ht Hr) as (record & Hrec & Hmap).
    apply recommended_map_inv in Hmap as (description & amount & Hd & _ & ->).
    cbn [r_workDescription].
    destruct (workDescription_chosen _ _ Hd) as [Hne Hch].
    split; [ exact Hne | ]. exists record. by split.
Qed.

Lemma workDescription_never_empty_witness :
  let rows := [ <["WORK_DESCRIPTION" := VStr (js " ????? ")]>
                  (<["ACTIVITY_NAME" := VStr (js "Road ??? work")]>
                     (sample_row (VNum (num_of_Z 7))
                        [ ("ACTUAL_END_DATE", VStr (js "15-Aug-2025"));
                          ("ACTUAL_AMOUNT", VStr (js "₹1,23,456")) ])) ] in
  ∃ comp c,
    transformWorksCompleted rows (js "Lok Sabha") VNull = Some comp
    ∧ comp !! 0%nat = Some c
    ∧ c_workDescription c = js "Road  work"
    ∧ c_workDescription c ≠ [].
Proof.
  intros rows.
  assert (Hrun : ∃ comp c, transformWorksCompleted rows (js "Lok Sabha") VNull = Some comp
                           ∧ comp !! 0%nat = Some c
                           ∧ c_workDescription c = js "Road  work").
  { vm_compute. eexists _, _. split; [ reflexivity | ]. split; reflexivity. }
  destruct Hrun as (comp & c & Ht & Hc & Hd).
  exists comp, c. split; [ exact Ht | ]. split; [ exact Hc | ]. split; [ exact Hd | ].
  exact (proj1 (proj1 (workDescription_never_empty rows (js "Lok Sabha") VNull ∅)
                  comp 0%nat c Ht Hc)).
Defined.

(** X8: [transformExpenditure] succeeds exactly when the [ACTIVITY_NAME] of
    every row it keeps is a string or is falsy (a number other than zero, or
    [true], makes [cleanText] raise a TypeError and with it the whole
    transformation).  In the records it puts out the work id is never NaN
    (it is 0 when upstream has no number) and the payment status is never
    empty. *)
Theorem transformExpenditure_outcome (apiData : list raw_record)
    (house : jstring) (lsTerm : value) :
  (is_Some (transformExpenditure apiData house lsTerm)
   ↔ ∀ record, record ∈ apiData → valid_names record = true →
       to_boolean (field record "ACTIVITY_NAME") = false
       ∨ ∃ s, field record "ACTIVITY_NAME" = VStr s)
  ∧ (∀ out e, transformExpenditure apiData house lsTerm = Some out → e ∈ out →
       e_workId e ≠ NaN ∧ to_boolean (e_paymentStatus e) = true).
Proof.
  split.
  - unfold transformExpenditure. rewrite mapM_is_Some, Forall_lookup. split.
    + intros H record Hin Hv.
      assert (Hk : record ∈ List.filter valid_names apiData).
      { apply list_elem_of_In, filter_In. split; [ by apply list_elem_of_In | done ]. }
      apply list_elem_of_lookup in Hk as [i Hi].
      specialize (H i (expenditure_map house (default_null lsTerm) i record)).
      rewrite list_lookup_imap, Hi in H. specialize (H eq_refl).
      apply cleanText_is_Some.
      destruct H as [e He]. unfold expenditure_map in He.
      destruct (cleanText (field record "ACTIVITY_NAME")); [ by eexists | discriminate ].
    + intros H i o Ho. rewrite list_lookup_imap in Ho.
      destruct (List.filter valid_names apiData !! i) as [record | ] eqn:Hi;
        [ | discriminate ].
      injection Ho as <-.
      assert (Hk : record ∈ List.filter valid_names apiData)
        by (apply list_elem_of_lookup; eauto).
      apply list_elem_of_In, filter_In in Hk as [Hin Hv].
      apply list_elem_of_In in Hin.
      destruct (proj2 (cleanText_is_Some _) (H record Hin Hv)) as [t Ht].
      unfold expenditure_map, compose. rewrite Ht. cbn [mbind option_bind].
      destruct (parseIndianNumber_total
                  (or_else (field record "FUND_DISBURSED_AMT")
                           (field record "EXPENDITURE_AMOUNT"))) as [a ->].
      by eexists.
  - intros out e Ht He.
    destruct (mapM_imap_elem _ _ _ _ Ht He) as (i & record & _ & Hmap).
    unfold expenditure_map in Hmap.
    destruct (cleanText _); [ | discriminate ]. cbn [mbind option_bind] in Hmap.
    destruct (parseIndianNumber _); [ | discriminate ].
    injection Hmap as <-. simpl. split.
    + unfold work_id.
      destruct (parseInt (field record "WORK_RECOMMENDATION_DTL_ID"))
        as [ | s | s d ]; simpl; try done.
      destruct (negb (is_zero d)); done.
    + unfold or_else. repeat case_match; done.
Qed.

Lemma transformExpenditure_outcome_witness :
  transformExpenditure [described_row (VStr (js "Road ??? work"))] (js "Rajya Sabha") VNull
  = Some [Expenditure (VNum (num_of_Z 1)) (VStr (js "Bihar")) (num_of_Z 9)
            (js "Road  work") VNull VUndefined (VStr (js "A. Kumar"))
            (VStr (js "N/A")) (num_of_Z 500000) (js "Rajya Sabha") VNull]
  ∧ transformExpenditure [described_row (VNum (num_of_Z 12))] (js "Rajya Sabha") VNull
    = None
  ∧ to_boolean (VStr (js "N/A")) = true.
Proof.
  assert (H : transformExpenditure [described_row (VStr (js "Road ??? work"))]
                (js "Rajya Sabha") VNull
              = Some [Expenditure (VNum (num_of_Z 1)) (VStr (js "Bihar")) (num_of_Z 9)
                        (js "Road  work") VNull VUndefined (VStr (js "A. Kumar"))
                        (VStr (js "N/A")) (num_of_Z 500000) (js "Rajya Sabha") VNull])
    by (vm_compute; reflexivity).
  split; [ exact H | ]. split; [ by vm_compute | ].
  exact (proj2 (proj2 (transformExpenditure_outcome _ _ _) _ _ H
                  ltac:(left))).
Defined.

End transformer_rows.

(** ** Session persistence *)

Section session_persistence.
Import Js Num Value ApiClient.

(** X9: a session that [saveSession] wrote is taken over by a client
    that is created, without cookies of its own, less than four hours
    later: it then holds the saved cookies and token and keeps the file.  From
    four hours on the file is deleted and the client starts without
    cookies. *)
Theorem saved_session_reloads_within_lifetime (w : world) (c : client)
    (cookies : jstring) (t : Z) :
  sessionCookies c = Some cookies →
  disk_writable w = true →
  now_ms w ≠ 0%Z →
  let disk := sessionFile (saveSession w c) in
  ((t - now_ms w < session_lifetime)%Z →
     new_client t disk None = Client (Some cookies) (csrfToken c) disk)
  ∧ ((session_lifetime ≤ t - now_ms w)%Z →
     new_client t disk None = Client None [] None).
Proof.
  intros Hc Hd Hn disk. subst disk.
  unfold saveSession. rewrite Hc, Hd.
  unfold new_client, loadSession, session_lifetime.
  cbn [sessionFile sessionCookies csrfToken file_timestamp file_cookies
       file_csrfToken snd].
  rewrite (proj2 (Z.eqb_neq (now_ms w) 0) Hn). cbn [negb andb].
  split; intros Ht.
  - by rewrite (proj2 (Z.ltb_lt _ _)) by lia.
  - by rewrite (proj2 (Z.ltb_ge _ _)) by lia.
Qed.

Lemma saved_session_reloads_within_lifetime_witness :
  let w := World RequestTimeout 1762120000000 true (Resolved 1%nat) in
  let c := Client (Some (js "JSESSIONID=abc")) (js "tok") None in
  sessionCookies c = Some (js "JSESSIONID=abc")
  ∧ disk_writable w = true
  ∧ now_ms w ≠ 0%Z
  ∧ (1762120000000 + 3600000 - now_ms w < session_lifetime)%Z
  ∧ sessionCookies
      (new_client (1762120000000 + 3600000) (sessionFile (saveSession w c)) None)
    = Some (js "JSESSIONID=abc")
  ∧ (session_lifetime ≤ 1762120000000 + 14400000 - now_ms w)%Z
  ∧ new_client (1762120000000 + 14400000) (sessionFile (saveSession w c)) None
    = Client None [] None.
Proof.
  intros w c.
  assert (Hn : now_ms w ≠ 0%Z) by discriminate.
  assert (H1 : (1762120000000 + 3600000 - now_ms w < session_lifetime)%Z) by reflexivity.
  assert (H2 : (session_lifetime ≤ 1762120000000 + 14400000 - now_ms w)%Z)
    by (vm_compute; discriminate).
  destruct (saved_session_reloads_within_lifetime w c (js "JSESSIONID=abc")
              (1762120000000 + 3600000) eq_refl eq_refl Hn) as [Hyoung _].
  destruct (saved_session_reloads_within_lifetime w c (js "JSESSIONID=abc")
              (1762120000000 + 14400000) eq_refl eq_refl Hn) as [_ Hold].
  split; [ reflexivity | ]. split; [ reflexivity | ]. split; [ exact Hn | ].
  split; [ exact H1 | ]. split; [ by rewrite (Hyoung H1) | ].
  split; [ exact H2 | exact (Hold H2) ].
Defined.

End session_persistence.

(** ** Report responses *)

Section report_responses.
Import Js Num Value ApiClient Extractor Fetch.

Lemma settle_raw_array (parse : parser) (rawData v : json) :
  settle_raw parse rawData = Resolved v → ∃ rows, v = JArr rows.
Proof.
  unfold settle_raw. destruct rawData; try discriminate.
  - destruct (parse s) as [ m | [ ] ]; try discriminate.
    intros [= <-]. by eexists.
  - intros [= <-]. by eexists.
Qed.

(** X10: whatever the body and whatever the parser makes of it, when the
    promise of [fetchData] is resolved, it is resolved with an array. *)
Theorem unwrap_resolves_arrays (parse : parser) (keyParam data : jstring) (v : json) :
  unwrap parse keyParam data = Resolved v → ∃ rows, v = JArr rows.
Proof.
  unfold unwrap. destruct (parse data) as [ m | response ]; [ discriminate | ].
  destruct response; try (by apply settle_raw_array).
  - destruct (parse s) as [ m | [ ] ]; try (by apply settle_raw_array).
    intros [= <-]. by eexists.
  - intros [= <-]. by eexists.
Qed.

Lemma unwrap_resolves_arrays_witness :
  unwrap sample_parse (js "Total%20Works%20Completed") (js "{wrapped}")
  = Resolved (JArr [JNum (num_of_Z 1)])
  ∧ ∃ rows, JArr [JNum (num_of_Z 1)] = JArr rows.
Proof.
  assert (H : unwrap sample_parse (js "Total%20Works%20Completed") (js "{wrapped}")
              = Resolved (JArr [JNum (num_of_Z 1)])) by (by vm_compute).
  split; [ exact H | ].
  exact (unwrap_resolves_arrays _ _ _ _ H).
Defined.

Lemma unwrap_object (parse : parser) (keyParam data : jstring)
    (fields : list (string * json)) :
  parse data = inr (JObj fields) →
  unwrap parse keyParam data
  = settle_raw parse (select_raw (JObj fields) (decode_spaces keyParam)).
Proof. unfold unwrap. by intros ->. Qed.

(** X11: when the response is an object that has the key asked for, with a
    truthy value, that value decides alone, whatever other keys there are: an
    array is the result as it is, and a string that holds an encoded array is
    decoded a second time. *)
Theorem exact_key_decides (parse : parser) (keyParam data : jstring)
    (fields : list (string * json)) (rows : list json) :
  parse data = inr (JObj fields) →
  (field_by_key (decode_spaces keyParam) fields = JArr rows →
   unwrap parse keyParam data = Resolved (JArr rows))
  ∧ (∀ t, field_by_key (decode_spaces keyParam) fields = JStr t → t ≠ [] →
          parse t = inr (JArr rows) →
          unwrap parse keyParam data = Resolved (JArr rows)).
Proof.
  intros Hp. rewrite (unwrap_object _ _ _ _ Hp). unfold select_raw.
  cbn [json_truthy get_key andb]. split.
  - intros ->. reflexivity.
  - intros t -> Ht Hrows. destruct t as [ | c t ]; [ done | ].
    cbn [json_truthy settle_raw]. by rewrite Hrows.
Qed.

Lemma exact_key_decides_witness :
  sample_parse (js "{exact}")
  = inr (JObj [ ("total", JArr []);
                ("Total Works Completed", JStr (js "[rows]")) ])
  ∧ unwrap sample_parse (js "Total%20Works%20Completed") (js "{exact}")
    = Resolved (JArr [JNum (num_of_Z 1)]).
Proof.
  assert (Hp : sample_parse (js "{exact}")
               = inr (JObj [ ("total", JArr []);
                             ("Total Works Completed", JStr (js "[rows]")) ]))
    by (by vm_compute).
  split; [ exact Hp | ].
  refine (proj2 (exact_key_decides sample_parse (js "Total%20Works%20Completed")
                   (js "{exact}") _ [JNum (num_of_Z 1)] Hp) (js "[rows]") _ _ _);
    [ by vm_compute | discriminate | by vm_compute ].
Defined.

Lemma starts_with_refl (s : jstring) : starts_with s s = true.
Proof. induction s as [ | c s IH ]; [ reflexivity | ]. simpl. by rewrite N.eqb_refl. Qed.

Lemma includes_refl (s : jstring) : includes s s = true.
Proof. destruct s; simpl; [ reflexivity | ]. by rewrite N.eqb_refl, starts_with_refl. Qed.

Lemma key_matches_refl (key : jstring) : key_matches key key = true.
Proof. unfold key_matches. by rewrite includes_refl. Qed.

Lemma find_first {A} (p : A → bool) (pre post : list A) (x : A) :
  (∀ y, y ∈ pre → p y = false) → p x = true →
  List.find p (pre ++ x :: post) = Some x.
Proof.
  intros Hpre Hx. induction pre as [ | y pre IH ]; simpl; [ by rewrite Hx | ].
  rewrite (Hpre y) by left. apply IH. intros z Hz. apply Hpre. by right.
Qed.

Lemma find_none {A} (p : A → bool) (l : list A) :
  (∀ y, y ∈ l → p y = false) → List.find p l = None.
Proof.
  intros H. induction l as [ | y l IH ]; [ reflexivity | ].
  simpl. rewrite (H y) by left. apply IH. intros z Hz. apply H. by right.
Qed.

Lemma field_by_key_first (key : jstring) (pre post : list (string * json))
    (k : string) (v : json) :
  js k = key → (∀ kv, kv ∈ pre → js kv.1 ≠ key) →
  field_by_key key (pre ++ (k, v) :: post) = v.
Proof.
  intros Hk Hpre. induction pre as [ | [k' v'] pre IH ]; simpl.
  - by rewrite bool_decide_eq_true_2.
  - rewrite bool_decide_eq_false_2 by (apply (Hpre (k', v')); left).
    apply IH. intros kv Hkv. apply Hpre. by right.
Qed.

(** X12: when the key asked for is absent (or its value falsy), the value
    taken is that of the first key, in the order of the response, that
    contains the key asked for or is contained in it, letter case aside; it
    is then treated as the value of the exact key would be. *)
Theorem first_loose_key_wins (parse : parser) (keyParam data : jstring)
    (pre post : list (string * json)) (k : string) (v : json) :
  parse data = inr (JObj (pre ++ (k, v) :: post)) →
  json_truthy (field_by_key (decode_spaces keyParam) (pre ++ (k, v) :: post)) = false →
  (∀ kv, kv ∈ pre → key_matches (decode_spaces keyParam) (js kv.1) = false) →
  key_matches (decode_spaces keyParam) (js k) = true →
  unwrap parse keyParam data = settle_raw parse v.
Proof.
  intros Hp Hexact Hpre Hk. rewrite (unwrap_object _ _ _ _ Hp).
  unfold select_raw. cbn [json_truthy get_key andb object_keys].
  rewrite Hexact. rewrite fmap_app, fmap_cons. cbn [fst].
  rewrite (find_first _ _ _ (js k)); [ | | exact Hk ].
  - f_equal. apply field_by_key_first; [ reflexivity | ].
    intros kv Hkv Heq. specialize (Hpre kv Hkv). rewrite Heq in Hpre. congruence.
  - intros y Hy. apply list_elem_of_fmap in Hy as (kv & -> & Hkv). by apply Hpre.
Qed.

Lemma first_loose_key_wins_witness :
  unwrap sample_parse (js "Total%20Works%20Completed") (js "{wrapped}")
  = Resolved (JArr [JNum (num_of_Z 1)])
  ∧ unwrap sample_parse (js "Total%20Works%20Completed") (js "{shadowed}")
    = Rejected no_matching_key.
Proof.
  split.
  - refine (first_loose_key_wins sample_parse (js "Total%20Works%20Completed")
              (js "{wrapped}") [("status", JStr (js "ok"))] []
              "TOTAL WORKS COMPLETED (ALL)" (JStr (js "[rows]")) _ _ _ _);
      [ by vm_compute | by vm_compute | | by vm_compute ].
    intros kv Hkv. apply elem_of_cons in Hkv as [-> | Hkv]; [ by vm_compute | ].
    by apply elem_of_nil in Hkv.
  - refine (first_loose_key_wins sample_parse (js "Total%20Works%20Completed")
              (js "{shadowed}") [] [("total works completed", JStr (js "[rows]"))]
              "" JNull _ _ _ _);
      [ by vm_compute | by vm_compute | | by vm_compute ].
    intros kv Hkv. by apply elem_of_nil in Hkv.
Defined.

Lemma field_by_key_found (key : jstring) (fields : list (string * json)) :
  field_by_key key fields ≠ JUndefined → key ∈ (λ kv, js kv.1) <$> fields.
Proof.
  induction fields as [ | [k v] fields IH ]; simpl; [ done | ].
  case_bool_decide as Hk; [ intros _; rewrite <- Hk; left | ].
  intros H. right. by apply IH.
Qed.

Lemma unit_by_key_found (key : jstring) (i : nat) (s : jstring) :
  unit_by_key key i s ≠ JUndefined →
  key ∈ imap (λ j _, index_key (i + j)) s.
Proof.
  revert i. induction s as [ | c s IH ]; intros i; simpl; [ done | ].
  case_bool_decide as Hk.
  - intros _. rewrite Nat.add_0_r, <- Hk. left.
  - intros H. right. apply IH in H.
    erewrite imap_ext; [ exact H | ].
    intros j x _. simpl. f_equal. lia.
Qed.

Lemma get_key_found (response : json) (key : jstring) :
  json_truthy (get_key response key) = true → key ∈ object_keys response.
Proof.
  destruct response; simpl; try discriminate.
  - intros H. apply (unit_by_key_found key 0 s).
    intros Hu. by rewrite Hu in H.
  - intros H. apply field_by_key_found. intros Hu. by rewrite Hu in H.
Qed.

(** X13: a response that is no array, holds no encoded array, and has no
    key that matches the key asked for, even loosely, is rejected with "No
    matching data key found in API response"; so are [null], numbers and
    booleans, which have no keys at all. *)
Theorem unmatched_response_rejected (parse : parser) (keyParam data : jstring)
    (response : json) :
  parse data = inr response →
  (∀ rows, response ≠ JArr rows) →
  (∀ t rows, response = JStr t → parse t ≠ inr (JArr rows)) →
  (∀ key, key ∈ object_keys response →
          key_matches (decode_spaces keyParam) key = false) →
  unwrap parse keyParam data = Rejected no_matching_key.
Proof.
  intros Hp Harr Hstr Hkeys. unfold unwrap. rewrite Hp.
  assert (Hsel : select_raw response (decode_spaces keyParam) = JNull).
  { unfold select_raw.
    destruct (json_truthy (get_key response (decode_spaces keyParam))) eqn:He.
    - apply get_key_found, Hkeys in He. by rewrite key_matches_refl in He.
    - rewrite andb_false_r. destruct (json_truthy response); [ | reflexivity ].
      by rewrite (find_none _ _ Hkeys). }
  destruct response; try (by rewrite Hsel).
  - destruct (parse s) as [ m | r ] eqn:Hs; [ by rewrite Hsel | ].
    destruct r; try (by rewrite Hsel).
    by destruct (Hstr s items eq_refl).
  - by destruct (Harr items).
Qed.

Lemma unmatched_response_rejected_witness :
  sample_parse (js "{}") = inr (JObj [])
  ∧ unwrap sample_parse (js "Allocated%20Limit") (js "{}") = Rejected no_matching_key.
Proof.
  assert (Hp : sample_parse (js "{}") = inr (JObj [])) by (by vm_compute).
  split; [ exact Hp | ].
  refine (unmatched_response_rejected sample_parse (js "Allocated%20Limit") (js "{}")
            (JObj []) Hp _ _ _).
  - discriminate.
  - discriminate.
  - intros key Hk. by apply elem_of_nil in Hk.
Defined.

End report_responses.

(** ** Session checks *)

Section session_checks.
Import Js Num Value ApiClient Extractor Fetch.

Lemma makeQuickTestCall_true (parse : parser) (e : quick_event) :
  makeQuickTestCall parse e = Resolved true
  ↔ ∃ data response,
      e = QuickEnd 200 data ∧ parse data = inr response
      ∧ ((∃ items, response = JArr items) ∨ (∃ fields, response = JObj fields)).
Proof.
  unfold makeQuickTestCall. split.
  - destruct e as [ status data | | | ]; try discriminate.
    destruct (status =? 200)%Z eqn:Hs; [ | discriminate ].
    apply Z.eqb_eq in Hs. subst status.
    destruct (parse data) as [ m | response ] eqn:Hp; [ discriminate | ].
    intros H. exists data, response. split; [ reflexivity | ]. split; [ exact Hp | ].
    destruct (json_truthy response) eqn:Ht; [ | discriminate H ].
    cbn [andb] in H. case_bool_decide as Hty; [ | discriminate H ].
    destruct response; try (by vm_compute in Hty); try discriminate Ht.
    + left. by eexists.
    + right. by eexists.
  - intros (data & response & -> & Hp & [ [items ->] | [fields ->] ]);
      simpl; by rewrite Hp.
Qed.

Lemma makeQuickTestCall_resolves (parse : parser) (e : quick_event) :
  ∃ b, makeQuickTestCall parse e = Resolved b.
Proof.
  unfold makeQuickTestCall. destruct e; try (by eexists).
  destruct (statusCode =? 200)%Z; [ | by eexists ].
  destruct (parse data); [ by eexists | ].
  destruct (_ && _); by eexists.
Qed.

(** X14: [validateSession] answers [true] exactly when the client has
    cookies and the test request ends with status 200 and a body that parses
    to an object or an array; in every other case (no cookies, another
    status, a body that does not parse or parses to [null], a number, a
    string or a boolean, an error, a timeout) it answers [false]; it never
    fails. *)
Theorem validateSession_answers (parse : parser) (e : quick_event) (c : client) :
  (validateSession parse e c = Resolved true
   ↔ has_cookies c = true
     ∧ ∃ data response,
         e = QuickEnd 200 data ∧ parse data = inr response
         ∧ ((∃ items, response = JArr items) ∨ (∃ fields, response = JObj fields)))
  ∧ (validateSession parse e c = Resolved true
     ∨ validateSession parse e c = Resolved false).
Proof.
  unfold validateSession. destruct (has_cookies c); cbn [negb].
  - destruct (makeQuickTestCall_resolves parse e) as [b Hb].
    rewrite <- makeQuickTestCall_true, Hb. split.
    + split; [ by intros [= ->] | by intros [_ [= ->]] ].
    + destruct b; [ by left | by right ].
  - split; [ | by right ]. split; [ discriminate | by intros [? _] ].
Qed.

Lemma initializeSession_resolves (w : world) (c : client) :
  ∃ b, (initializeSession w c).1 = Resolved b.
Proof.
  unfold initializeSession.
  destruct (portal w) as [ status [ [ | h t ] | ] | | | ]; try (by eexists).
  destruct (to_boolean _); by eexists.
Qed.

Lemma initializeSession_true (w : world) (c : client) :
  (initializeSession w c).1 = Resolved true →
  ∃ status headers,
    portal w = ResponseEnd status (Some headers)
    ∧ extract_cookies headers ≠ [] ∧ testSession w = true.
Proof.
  unfold initializeSession.
  destruct (portal w) as [ status [ [ | h t ] | ] | | | ]; try discriminate.
  destruct (extract_cookies (h :: t)) as [ | x k ] eqn:Hk; [ discriminate | ].
  cbn [to_boolean fst]. intros [= Ht].
  exists status, (h :: t). rewrite Hk. by split_and!.
Qed.

(** X15: [ensureValidSession] never fails.  When the stored session
    validates it answers [true] and leaves the client and the session file as
    they are, without any bootstrap; it answers [true] otherwise only if the
    portal returned cookies and the test fetch with them returned rows. *)
Theorem ensureValidSession_outcome (parse : parser) (e : quick_event)
    (w : world) (c : client) :
  (∃ b, (ensureValidSession parse e w c).1 = Resolved b)
  ∧ (validateSession parse e c = Resolved true →
     ensureValidSession parse e w c = (Resolved true, c))
  ∧ ((ensureValidSession parse e w c).1 = Resolved true →
     validateSession parse e c = Resolved true
     ∨ ∃ status headers,
         portal w = ResponseEnd status (Some headers)
         ∧ extract_cookies headers ≠ [] ∧ testSession w = true).
Proof.
  unfold ensureValidSession.
  destruct (proj2 (validateSession_answers parse e c)) as [ -> | -> ].
  - split_and!; [ by eexists | done | by left ].
  - cbv beta iota.
    split_and!; [ apply (initializeSession_resolves w c) | discriminate | ].
    intros H. right. by apply (initializeSession_true w c).
Qed.

Lemma ensureValidSession_outcome_witness :
  let c := Client (Some (js "JSESSIONID=abc")) [] None in
  validateSession sample_parse (QuickEnd 200 (js "{}")) c = Resolved true
  ∧ ensureValidSession sample_parse (QuickEnd 200 (js "{}"))
      (a_world RequestTimeout) c = (Resolved true, c).
Proof.
  intros c.
  assert (H : validateSession sample_parse (QuickEnd 200 (js "{}")) c = Resolved true)
    by (by vm_compute).
  split; [ exact H | ].
  exact (proj1 (proj2 (ensureValidSession_outcome sample_parse (QuickEnd 200 (js "{}"))
                         (a_world RequestTimeout) c)) H).
Defined.

(** X16: when the portal answers with at least one [name=value] cookie,
    [initializeSession] takes the cookies over and writes the session file
    (cookies, token, current time) before it tests them; it resolves to the
    outcome of the test fetch, so a bootstrap that resolves to [false] has
    replaced the stored session all the same. *)
Theorem bootstrap_replaces_session (w : world) (c : client) (status : Z)
    (headers : list jstring) :
  portal w = ResponseEnd status (Some headers) →
  extract_cookies headers ≠ [] →
  initializeSession w c
  = (Resolved (testSession w),
     Client (Some (extract_cookies headers)) (csrfToken c)
       (if disk_writable w
        then Some (SessionFile (extract_cookies headers) (csrfToken c) (now_ms w))
        else sessionFile c)).
Proof.
  intros Hp Hk. unfold initializeSession. rewrite Hp.
  destruct headers as [ | h t ]; [ done | ].
  destruct (extract_cookies (h :: t)) as [ | x k ] eqn:He; [ done | ].
  cbn [to_boolean]. unfold saveSession. cbn [sessionCookies csrfToken sessionFile].
  by destruct (disk_writable w).
Qed.

Lemma bootstrap_replaces_session_witness :
  let w := World (ResponseEnd 200 (Some [js "JSESSIONID=abc; Path=/; HttpOnly"]))
             1762120000000 true (Rejected (js "socket hang up")) in
  portal w = ResponseEnd 200 (Some [js "JSESSIONID=abc; Path=/; HttpOnly"])
  ∧ extract_cookies [js "JSESSIONID=abc; Path=/; HttpOnly"] ≠ []
  ∧ initializeSession w fresh_client
    = (Resolved false,
       Client (Some (js "JSESSIONID=abc")) []
         (Some (SessionFile (js "JSESSIONID=abc") [] 1762120000000))).
Proof.
  intros w.
  assert (Hk : extract_cookies [js "JSESSIONID=abc; Path=/; HttpOnly"] ≠ [])
    by (vm_compute; discriminate).
  split; [ reflexivity | ]. split; [ exact Hk | ].
  exact (bootstrap_replaces_session w fresh_client 200 _ eq_refl Hk).
Defined.

Lemma before_semicolon_app (nv attrs : jstring) :
  Forall (λ c, c ≠ 0x3B) nv → attrs = [] ∨ (∃ r, attrs = 0x3B :: r) →
  before_semicolon (nv ++ attrs) = nv.
Proof.
  intros Hnv Hattrs. induction Hnv as [ | c nv Hc _ IH ].
  - destruct Hattrs as [ -> | [r ->] ]; reflexivity.
  - simpl. rewrite (proj2 (N.eqb_neq c 0x3B) Hc). by rewrite IH.
Qed.

(** X17: of every [Set-Cookie] header only the text before its first
    semicolon is kept, so no attribute ([Path], [HttpOnly], ...) reaches the
    session cookies; the kept [name=value] pairs are joined by "; " in the
    order of the headers, and a header whose first part has no "=" adds
    nothing. *)
Theorem extract_cookies_pairs (pairs : list (jstring * jstring)) :
  (∀ p, p ∈ pairs →
        Forall (λ c, c ≠ 0x3B) p.1 ∧ includes p.1 (js "=") = true
        ∧ (p.2 = [] ∨ ∃ r, p.2 = 0x3B :: r)) →
  extract_cookies ((λ p, p.1 ++ p.2) <$> pairs) = join_cookies (fst <$> pairs)
  ∧ (∀ h, includes (before_semicolon h) (js "=") = false →
          extract_cookies (h :: ((λ p, p.1 ++ p.2) <$> pairs))
          = join_cookies (fst <$> pairs)).
Proof.
  intros Hp.
  assert (Hkept : List.filter (λ cookie, includes cookie (js "="))
                    (before_semicolon <$> ((λ p, p.1 ++ p.2) <$> pairs))
                  = fst <$> pairs).
  { induction pairs as [ | p pairs IH ]; [ reflexivity | ].
    destruct (Hp p) as (Hnv & Heq & Hattrs); [ left | ].
    rewrite !fmap_cons. cbn [List.filter].
    rewrite (before_semicolon_app _ _ Hnv Hattrs), Heq.
    f_equal. apply IH. intros q Hq. apply Hp. by right. }
  split.
  - unfold extract_cookies. by rewrite Hkept.
  - intros h Hh. unfold extract_cookies. rewrite fmap_cons. cbn [List.filter].
    by rewrite Hh, Hkept.
Qed.

Lemma extract_cookies_pairs_witness :
  extract_cookies [ js "a=1; Path=/"; js "b=2" ] = js "a=1; b=2".
Proof.
  refine (proj1 (extract_cookies_pairs
                   [ (js "a=1", js "; Path=/"); (js "b=2", []) ] _)).
  intros p Hp.
  apply elem_of_cons in Hp as [-> | Hp].
  { split_and!; [ | by vm_compute | right; by eexists ].
    vm_compute. repeat constructor; discriminate. }
  apply elem_of_cons in Hp as [-> | Hp].
  { split_and!; [ | by vm_compute | by left ].
    vm_compute. repeat constructor; discriminate. }
  by apply elem_of_nil in Hp.
Defined.

End session_checks.

(** ** Fetch cycle *)

Section fetch_cycle.
Import Js Num Value ApiClient Extractor Fetch.

Lemma house_requests (fetch : request → settled (list json))
    (house : jstring) (lsTerm : value) (r : request) :
  r ∈ (fetchAllDataForHouse fetch house lsTerm).2
  ↔ ∃ kind, kind ∈ report_kinds ∧ r = (house, kind, lsTerm).
Proof.
  unfold fetchAllDataForHouse, report_kinds. cbn [snd]. split.
  - intros H.
    repeat (apply elem_of_cons in H as [-> | H];
            [ eexists; split; [ | reflexivity ]; vm_compute;
              repeat ((by left) || right) | ]).
    by apply elem_of_nil in H.
  - intros (kind & Hk & ->). vm_compute in Hk.
    repeat (apply elem_of_cons in Hk as [-> | Hk];
            [ repeat ((by left) || right) | ]).
    by apply elem_of_nil in Hk.
Qed.

(** X18: without a session [fetchAllData] fails before any request is
    made.  With a session it never fails, whatever requests fail; it asks for
    all four reports of Rajya Sabha on every option, and for those of a Lok
    Sabha term exactly when the option, lower-cased, is that term or "both"
    (an option such as "19" fetches no Lok Sabha data at all); a missing
    option counts as "both". *)
Theorem fetch_cycle_requests (fetch : request → settled (list json))
    (termOption : value) :
  let option := toLowerCase (ToString (or_else termOption (VStr (js "both")))) in
  let run := fetchAllData true fetch termOption in
  fetchAllData false fetch termOption
  = (Rejected (js "Failed to establish session for data fetch"), [])
  ∧ (∃ d, run.1 = Resolved d ∧ lsTermOption d = option)
  ∧ (∀ house kind term, (house, kind, term) ∈ run.2 →
       kind ∈ report_kinds
       ∧ (house = js "rajya_sabha" ∨ house = js "lok_sabha"))
  ∧ (∀ kind, kind ∈ report_kinds → (js "rajya_sabha", kind, VStr (js "18")) ∈ run.2)
  ∧ (∀ kind term, kind ∈ report_kinds →
       (js "lok_sabha", kind, VStr term) ∈ run.2
       ↔ (term = js "18" ∧ (option = js "18" ∨ option = js "both"))
         ∨ (term = js "17" ∧ (option = js "17" ∨ option = js "both"))).
Proof.
  intros option run. subst run. unfold fetchAllData. cbn [negb].
  fold option.
  set (ls18 := fetchAllDataForHouse fetch (js "lok_sabha") (VStr (js "18"))).
  set (ls17 := fetchAllDataForHouse fetch (js "lok_sabha") (VStr (js "17"))).
  set (rs := fetchAllDataForHouse fetch (js "rajya_sabha") (VStr (js "18"))).
  assert (H18 : ∀ r, r ∈ ls18.2 ↔ ∃ kind, kind ∈ report_kinds
                       ∧ r = (js "lok_sabha", kind, VStr (js "18")))
    by (intros r; apply house_requests).
  assert (H17 : ∀ r, r ∈ ls17.2 ↔ ∃ kind, kind ∈ report_kinds
                       ∧ r = (js "lok_sabha", kind, VStr (js "17")))
    by (intros r; apply house_requests).
  assert (Hrs : ∀ r, r ∈ rs.2 ↔ ∃ kind, kind ∈ report_kinds
                       ∧ r = (js "rajya_sabha", kind, VStr (js "18")))
    by (intros r; apply house_requests).
  destruct ls18 as [d18 q18], ls17 as [d17 q17], rs as [drs qrs]. cbn [snd] in *.
  assert (Hne : js "18" ≠ js "17" ∧ js "18" ≠ js "both" ∧ js "17" ≠ js "both"
                ∧ js "lok_sabha" ≠ js "rajya_sabha") by (split_and!; discriminate).
  destruct Hne as (Hne1 & Hne2 & Hne3 & Hne4).
  split; [ reflexivity | ].
  destruct (bool_decide (option = js "18")) eqn:E18;
    destruct (bool_decide (option = js "both")) eqn:Eb;
    destruct (bool_decide (option = js "17")) eqn:E17;
    try apply bool_decide_eq_true in E18; try apply bool_decide_eq_true in Eb;
    try apply bool_decide_eq_true in E17;
    try apply bool_decide_eq_false in E18; try apply bool_decide_eq_false in Eb;
    try apply bool_decide_eq_false in E17;
    try congruence;
    cbn [orb fst snd];
    (split; [ eexists; split; reflexivity | ]);
    (split; [ intros house kind term Hin;
              rewrite ?elem_of_app, ?H18, ?H17, ?Hrs, ?elem_of_nil in Hin;
              destruct_or?; try done;
              destruct Hin as (k & Hk & [= -> -> ->]); split; auto | ]);
    (split; [ intros kind Hk; rewrite ?elem_of_app, ?H18, ?H17, ?Hrs;
              repeat right; eauto | ]);
    intros kind term Hk; rewrite ?elem_of_app, ?H18, ?H17, ?Hrs, ?elem_of_nil;
    (split;
     [ intros Hin; destruct_or?; try done;
       destruct Hin as (k & _ & [= <- ->]); try congruence; tauto
     | intros [ [-> Ho] | [-> Ho] ]; destruct_or?; try congruence;
       first [ left; eauto; fail | right; left; eauto; fail | eauto ] ]).
Qed.

End fetch_cycle.

(** ** Images of a work *)

Section work_images_props.
Import Js Num Value Extractor.

Lemma getAttachmentIds_normal (post : jstring → jstring → completion json)
    (workId flag : value) (f w : jstring) (data : json) :
  toString flag = Some f → toString workId = Some w → post f w = Normal data →
  getAttachmentIds post workId flag
  = match
      match data with
      | JArr (result :: _) =>
          do name <- get_prop result "FILE_NAME";
          if is_string name (js "N/A") then Normal []
          else
            do ids <- get_prop result "ATTACH_ID";
            match name, ids with
            | JArr names, JArr ids =>
                Normal (imap (λ index n,
                          Descriptor n (default JUndefined (ids !! index))) names)
            | _, _ => Normal [Descriptor name ids]
            end
      | _ => Normal []
      end
    with
    | Normal r => Normal r
    | Throw error =>
        if bool_decide (err_status error = Some 404%Z) then Normal [] else Throw error
    end.
Proof.
  intros Hf Hw Hp. unfold getAttachmentIds, attachment_ids_try.
  rewrite (to_string_or_throw_Some _ _ Hf), (to_string_or_throw_Some _ _ Hw).
  cbn [bind]. rewrite Hp. reflexivity.
Qed.

(** X19: of a successful answer of the attachment-id endpoint only the
    first element is read.  An answer that is no array or an empty one, and
    one whose [FILE_NAME] is "N/A", give no descriptor.  When [FILE_NAME] and
    [ATTACH_ID] are both arrays there is one descriptor per file name, in
    order, the i-th name with the i-th id: ids beyond the names are dropped
    and names without an id get [undefined].  Any other [FILE_NAME] gives a
    single descriptor. *)
Theorem attachment_descriptors (post : jstring → jstring → completion json)
    (workId flag : value) (f w : jstring) (data : json) :
  toString flag = Some f → toString workId = Some w → post f w = Normal data →
  ((∀ first rest, data ≠ JArr (first :: rest)) →
   getAttachmentIds post workId flag = Normal [])
  ∧ (∀ fields rest, data = JArr (JObj fields :: rest) →
       assoc "FILE_NAME" fields = JStr (js "N/A") →
       getAttachmentIds post workId flag = Normal [])
  ∧ (∀ fields rest names ids, data = JArr (JObj fields :: rest) →
       assoc "FILE_NAME" fields = JArr names → assoc "ATTACH_ID" fields = JArr ids →
       ∃ ds, getAttachmentIds post workId flag = Normal ds
             ∧ length ds = length names
             ∧ ∀ i n, names !! i = Some n →
                 ds !! i = Some (Descriptor n (default JUndefined (ids !! i))))
  ∧ (∀ fields rest name, data = JArr (JObj fields :: rest) →
       assoc "FILE_NAME" fields = JStr name → name ≠ js "N/A" →
       getAttachmentIds post workId flag
       = Normal [Descriptor (JStr name) (assoc "ATTACH_ID" fields)]).
Proof.
  intros Hf Hw Hp. rewrite (getAttachmentIds_normal _ _ _ _ _ _ Hf Hw Hp).
  split_and!.
  - intros Hno. destruct data as [ | | | | | [ | first rest ] | ]; try reflexivity.
    by destruct (Hno first rest).
  - intros fields rest -> Hn. cbn [get_prop bind]. rewrite Hn. reflexivity.
  - intros fields rest names ids -> Hn Hi. cbn [get_prop bind]. rewrite Hn, Hi.
    cbn [is_string]. eexists. split; [ reflexivity | ].
    split; [ by rewrite length_imap | ].
    intros i n Hin. by rewrite list_lookup_imap, Hin.
  - intros fields rest name -> Hn Hne. cbn [get_prop bind]. rewrite Hn.
    cbn [is_string]. rewrite bool_decide_eq_false_2 by done.
    by destruct (assoc "ATTACH_ID" fields).
Qed.

Lemma attachment_descriptors_witness :
  getAttachmentIds half_endpoint (VNum (num_of_Z 149239)) (VNum (num_of_Z 1))
  = Normal [ Descriptor (JStr (js "a.jpg")) (JNum (num_of_Z 11));
             Descriptor (JStr (js "b.jpg")) JUndefined ].
Proof.
  destruct (attachment_descriptors half_endpoint (VNum (num_of_Z 149239))
              (VNum (num_of_Z 1)) (js "1") (js "149239") _ eq_refl eq_refl eq_refl)
    as (_ & _ & Hzip & _).
  destruct (Hzip _ _ _ _ eq_refl eq_refl eq_refl) as (ds & Hds & _).
  rewrite Hds. vm_compute in Hds. by injection Hds as <-.
Defined.

(** X20: [getWorkImages] never fails, and the total it reports is the
    number of descriptors it returns.  For a completed work only the
    completed list is filled, for a recommended work only the recommended
    one.  For any other collection both phases are asked for, and if the
    request for the completed phase fails, the recommended images already
    found are dropped as well. *)
Theorem work_images_consistent (post : jstring → jstring → completion json)
    (workId collection : value) :
  ∃ r, getWorkImages post workId collection = Normal r
    ∧ wi_total r = (length (wi_recommended r) + length (wi_completed r))%nat
    ∧ (collection = VStr (js "works_completed") → wi_recommended r = [])
    ∧ (collection = VStr (js "works_recommended") → wi_completed r = [])
    ∧ (collection ≠ VStr (js "works_completed") →
       collection ≠ VStr (js "works_recommended") →
       ∀ error, getAttachmentIds post workId (VNum (num_of_Z 3)) = Throw error →
                r = WorkImages [] [] 0).
Proof.
  assert (Hne : VStr (js "works_completed") ≠ VStr (js "works_recommended"))
    by (by vm_compute).
  unfold getWorkImages.
  case_bool_decide as Hc.
  { destruct (getAttachmentIds post workId (VNum (num_of_Z 3))) as [ a | e ];
      cbn [bind]; eexists; (split; [ reflexivity | ]);
      cbn [wi_total wi_recommended wi_completed length];
      (split_and!;
       [ lia | reflexivity
       | intros Hr; destruct Hne; by rewrite <- Hc, <- Hr
       | intros Hn; by destruct Hn ]). }
  case_bool_decide as Hr.
  { destruct (getAttachmentIds post workId (VNum (num_of_Z 1))) as [ a | e ];
      cbn [bind]; eexists; (split; [ reflexivity | ]);
      cbn [wi_total wi_recommended wi_completed length];
      (split_and!;
       [ lia | intros Hn; by destruct Hc | reflexivity
       | intros _ Hn; by destruct Hn ]). }
  destruct (getAttachmentIds post workId (VNum (num_of_Z 1))) as [ a | e ];
    cbn [bind];
    destruct (getAttachmentIds post workId (VNum (num_of_Z 3))) as [ b | e' ];
    cbn [bind]; eexists; (split; [ reflexivity | ]);
    cbn [wi_total wi_recommended wi_completed length];
    (split_and!;
     [ lia | intros Hn; by destruct Hc | intros Hn; by destruct Hr
     | intros _ _ error Herr; first [ discriminate Herr | reflexivity ] ]).
Qed.

Lemma work_images_consistent_witness :
  VUndefined ≠ VStr (js "works_completed")
  ∧ VUndefined ≠ VStr (js "works_recommended")
  ∧ getAttachmentIds half_endpoint (VNum (num_of_Z 149239)) (VNum (num_of_Z 3))
    = Throw (JsError None (Some 500%Z) (Some (js "Request failed with status code 500")))
  ∧ getWorkImages half_endpoint (VNum (num_of_Z 149239)) VUndefined
    = Normal (WorkImages [] [] 0).
Proof.
  assert (H1 : VUndefined ≠ VStr (js "works_completed")) by discriminate.
  assert (H2 : VUndefined ≠ VStr (js "works_recommended")) by discriminate.
  assert (H3 : getAttachmentIds half_endpoint (VNum (num_of_Z 149239)) (VNum (num_of_Z 3))
               = Throw (JsError None (Some 500%Z)
                          (Some (js "Request failed with status code 500"))))
    by (by vm_compute).
  split; [ exact H1 | ]. split; [ exact H2 | ]. split; [ exact H3 | ].
  destruct (work_images_consistent half_endpoint (VNum (num_of_Z 149239)) VUndefined)
    as (r & Hr & _ & _ & _ & Hdrop).
  rewrite Hr. f_equal. exact (Hdrop H1 H2 _ H3).
Defined.

(** X21: a response body that is neither a string nor an array whose
    first element has a truthy [URL] is an error of the response format:
    [downloadImageData] raises it after that one request, without a retry
    and without a pause. *)
Theorem invalid_body_not_retried (post : nat → jstring → completion json)
    (bufferFrom : json → completion (list N)) (random : nat → Q)
    (attachmentId : value) (b : jstring) (data : json) :
  toString attachmentId = Some b →
  post 1%nat b = Normal data →
  match data with
  | JStr _ => False
  | JArr (first :: _) =>
      ∃ url, get_prop first "URL" = Normal url ∧ json_truthy url = false
  | _ => True
  end →
  downloadImageData post bufferFrom random attachmentId
  = Run (Throw invalid_format) [] 1.
Proof.
  intros Hb Hp Hdata. unfold downloadImageData, maxRetries.
  rewrite (to_string_or_throw_Some _ _ Hb), download_loop_unfold.
  assert (Htry : download_try (post 1%nat b) bufferFrom = Throw invalid_format).
  { unfold download_try. rewrite Hp. cbn [bind].
    destruct data as [ | | | | | [ | first rest ] | ]; try done.
    destruct Hdata as (url & Hurl & Hfalsy). rewrite Hurl. cbn [bind].
    by rewrite Hfalsy. }
  rewrite Htry. reflexivity.
Qed.

Lemma invalid_body_not_retried_witness :
  downloadImageData (λ _ _, Normal (JArr [])) no_buffer (λ _, 0%Q) (VNum (num_of_Z 42))
  = Run (Throw invalid_format) [] 1.
Proof.
  exact (invalid_body_not_retried (λ _ _, Normal (JArr [])) no_buffer (λ _, 0%Q)
           (VNum (num_of_Z 42)) (js "42") (JArr []) eq_refl eq_refl I).
Defined.

End work_images_props.

(** ** Uploads and the existence probe *)

Section upload_and_probe.
Import Js Num Value Storage.

Lemma last_segment_spec (s acc : jstring) :
  0x2E ∉ acc →
  (0x2E ∉ last_segment acc s)
  ∧ (∃ p, acc ++ s = p ++ last_segment acc s).
Proof.
  revert acc. induction s as [ | c r IH ]; intros acc Hacc; cbn [last_segment].
  - split; [ exact Hacc | ]. exists []. by rewrite app_nil_r.
  - destruct (c =? 0x2E) eqn:Hc.
    + apply N.eqb_eq in Hc as ->.
      destruct (IH [] (not_elem_of_nil _)) as (Hno & p & Hp).
      split; [ exact Hno | ]. exists (acc ++ [0x2E] ++ p).
      change ([] ++ r) with r in Hp.
      rewrite <- ?app_assoc. by rewrite <- Hp.
    + apply N.eqb_neq in Hc.
      destruct (IH (acc ++ [c])) as (Hno & p & Hp).
      { intros [H | H]%elem_of_app; [ by apply Hacc | ].
        apply list_elem_of_singleton in H. by apply Hc. }
      split; [ exact Hno | ]. exists p. rewrite <- Hp. by rewrite <- app_assoc.
Qed.

Lemma last_segment_no_dot (s acc : jstring) :
  0x2E ∉ s → last_segment acc s = acc ++ s.
Proof.
  revert acc. induction s as [ | c r IH ]; intros acc Hs; cbn [last_segment].
  - by rewrite app_nil_r.
  - apply not_elem_of_cons in Hs as [Hc Hr].
    destruct (c =? 0x2E) eqn:Hcb.
    + apply N.eqb_eq in Hcb. by destruct Hc.
    + rewrite (IH _ Hr). by rewrite <- app_assoc.
Qed.

Lemma to_boolean_VStr (s : jstring) :
  to_boolean (VStr s) = negb (bool_decide (s = [])).
Proof. by destruct s. Qed.

(** X22: the extension that [uploadImageToR2] puts into the key and the
    content type is never empty and holds no dot.  It is the text after the
    last dot of the file name; a name without a dot is its own extension,
    and only a name that is empty or ends in a dot gets the default
    [jpg]. *)
Theorem file_extension_shape (fileName : jstring) :
  file_extension fileName ≠ []
  ∧ (0x2E ∉ file_extension fileName)
  ∧ ((∃ p, (fileName = p ++ file_extension fileName)
           ∧ (p = [] ∨ last p = Some 0x2E))
     ∨ (file_extension fileName = js "jpg"
        ∧ (fileName = [] ∨ last fileName = Some 0x2E)))
  ∧ (0x2E ∉ fileName → fileName ≠ [] → file_extension fileName = fileName).
Proof.
  assert (Hshape : ∀ s acc, 0x2E ∉ acc →
            ∃ p, (acc ++ s = p ++ last_segment acc s)
                 ∧ (p = [] ∨ last p = Some 0x2E)).
  { induction s as [ | c r IH ]; intros acc Hacc; cbn [last_segment].
    - exists []. split; [ by rewrite app_nil_r | by left ].
    - destruct (c =? 0x2E) eqn:Hc.
      + apply N.eqb_eq in Hc as ->.
        destruct (IH [] (not_elem_of_nil _)) as (p & Hp & Hlast).
        change ([] ++ r) with r in Hp. exists (acc ++ [0x2E] ++ p). split.
        * rewrite <- ?app_assoc. by rewrite <- Hp.
        * right. destruct Hlast as [-> | Hlast].
          -- rewrite app_nil_r. by rewrite last_snoc.
          -- rewrite !last_app, Hlast. reflexivity.
      + apply N.eqb_neq in Hc.
        destruct (IH (acc ++ [c])) as (p & Hp & Hlast).
        { intros [H | H]%elem_of_app; [ by apply Hacc | ].
          apply list_elem_of_singleton in H. by apply Hc. }
        exists p. split; [ | exact Hlast ]. rewrite <- Hp. by rewrite <- app_assoc. }
  destruct (last_segment_spec fileName [] (not_elem_of_nil _))
    as (Hno & _).
  destruct (Hshape fileName [] (not_elem_of_nil _)) as (p & Hp & Hlast).
  change ([] ++ fileName) with fileName in Hp.
  unfold file_extension. rewrite to_boolean_VStr.
  case_bool_decide as He; cbn [negb].
  - split_and!.
    + by vm_compute.
    + vm_compute. intros H. repeat (apply elem_of_cons in H as [H | H];
        [ discriminate H | ]). by apply elem_of_nil in H.
    + right. split; [ reflexivity | ].
      rewrite He, app_nil_r in Hp. subst p. destruct Hlast; [ by left | by right ].
    + intros Hdot Hne. rewrite (last_segment_no_dot fileName [] Hdot) in He.
      by destruct Hne.
  - split_and!; [ exact He | exact Hno | left; by exists p | ].
    intros Hdot _. by rewrite (last_segment_no_dot fileName [] Hdot).
Qed.

Lemma file_extension_shape_witness :
  file_extension (js "site.visit.PNG") = js "PNG"
  ∧ file_extension (js "photo") = js "photo".
Proof.
  split; [ by vm_compute | ].
  apply (proj2 (proj2 (proj2 (file_extension_shape (js "photo"))))).
  - vm_compute. intros H. repeat (apply elem_of_cons in H as [H | H];
      [ discriminate H | ]). by apply elem_of_nil in H.
  - by vm_compute.
Defined.

(** X23: an upload that succeeds on a bucket where the probe's key was
    free is found by [imageExistsInR2] afterwards exactly when the file's
    extension is [jpg]: for every other extension the image is stored and
    the probe still answers [false]. *)
Theorem upload_found_iff_jpg (publicDomain : jstring) (b b' : bucket)
    (workId : value) (phase : jstring) (attachmentId : value)
    (imageBuffer : list N) (fileName : jstring) (r : upload_result) :
  b !! probe_key workId phase attachmentId = None →
  uploadImageToR2 publicDomain None b workId phase attachmentId imageBuffer fileName
    = (inr r, b') →
  (file_extension fileName = js "jpg" →
   imageExistsInR2 None b' workId phase attachmentId = inr true)
  ∧ (file_extension fileName ≠ js "jpg" →
     imageExistsInR2 None b' workId phase attachmentId = inr false
     ∧ is_Some (b' !! r2Key r)).
Proof.
  intros Hfree Hup.
  unfold uploadImageToR2, send_put in Hup.
  destruct (toString workId), (toString attachmentId);
    cbv beta iota zeta in Hup; try discriminate Hup.
  remember (js "works/" ++ ToString workId ++ js "/" ++ phase ++ js "/"
            ++ ToString attachmentId ++ js "_original." ++ file_extension fileName)
    as key eqn:Hkey.
  remember (js "https://" ++ publicDomain ++ js "/" ++ key) as url.
  remember (js "image/" ++ file_extension fileName) as contentType.
  injection Hup as <- <-. cbn [r2Key].
  rewrite probe_reads_probe_key. split.
  { intros Hext. rewrite Hext in Hkey.
    change (js "_original." ++ js "jpg") with (js "_original.jpg") in Hkey.
    fold (probe_key workId phase attachmentId) in Hkey. subst key.
    rewrite bool_decide_eq_true_2; [ reflexivity | ].
    rewrite lookup_insert_eq. by eexists. }
  intros Hext. split.
  - rewrite lookup_insert_ne.
    + rewrite Hfree. rewrite bool_decide_eq_false_2; [ reflexivity | ].
      intros [o Ho]. discriminate Ho.
    + rewrite Hkey. unfold probe_key. intros Heq.
      change (js "_original.jpg") with (js "_original." ++ js "jpg") in Heq.
      do 7 (apply app_inv_head in Heq). exact (Hext Heq).
  - rewrite lookup_insert_eq. by eexists.
Qed.

Lemma upload_found_iff_jpg_witness :
  imageExistsInR2 None
    (uploadImageToR2 (js "images.example.org") None ∅ (VNum (num_of_Z 149239))
       (js "completed") (VNum (num_of_Z 7)) [0xFF; 0xD8] (js "photo.jpg")).2
    (VNum (num_of_Z 149239)) (js "completed") (VNum (num_of_Z 7)) = inr true.
Proof.
  refine (proj1 (upload_found_iff_jpg (js "images.example.org") ∅ _
                   (VNum (num_of_Z 149239)) (js "completed") (VNum (num_of_Z 7))
                   [0xFF; 0xD8] (js "photo.jpg") _ _ _) _).
  - apply lookup_empty.
  - reflexivity.
  - by vm_compute.
Defined.

Lemma thumb_key_not_probe_key (workId workId' : value) (phase phase' : jstring)
    (attachmentId attachmentId' : value) :
  js "works/" ++ ToString workId ++ js "/" ++ phase ++ js "/"
    ++ ToString attachmentId ++ js "_thumb.webp"
  ≠ probe_key workId' phase' attachmentId'.
Proof.
  unfold probe_key. intros Heq. apply (f_equal last) in Heq.
  rewrite !last_app in Heq. vm_compute in Heq. discriminate Heq.
Qed.

(** X24: [uploadThumbnailToR2] never raises: a failure of the store, a
    work id or attachment id without [toString], and disabled thumbnails all
    end in [null], the bucket untouched.  When it stores a thumbnail, the
    answer of the existence probe stays what it was, for every work, phase
    and attachment: a thumbnail is never taken for the image. *)
Theorem thumbnail_upload_invisible_to_probe (enableThumbnails : bool)
    (publicDomain : jstring) (fault : option s3_error) (b : bucket)
    (workId : value) (phase : jstring) (attachmentId : value)
    (thumbnailBuffer : list N) :
  let out := uploadThumbnailToR2 enableThumbnails publicDomain fault b
               workId phase attachmentId thumbnailBuffer in
  (out.1 = None → out.2 = b)
  ∧ (is_Some out.1 ↔
     enableThumbnails = true ∧ fault = None
     ∧ is_Some (toString workId) ∧ is_Some (toString attachmentId))
  ∧ (∀ r, out.1 = Some r →
       (∃ o, out.2 !! r2Key r = Some o ∧ obj_body o = thumbnailBuffer)
       ∧ size r = length thumbnailBuffer)
  ∧ (∀ probeFault workId' phase' attachmentId',
       imageExistsInR2 probeFault out.2 workId' phase' attachmentId'
       = imageExistsInR2 probeFault b workId' phase' attachmentId').
Proof.
  cbv zeta. unfold uploadThumbnailToR2.
  destruct enableThumbnails; cbn [negb].
  2: { split_and!; try done.
       - split; [ by intros [? ?] | by intros (? & _) ].
       }
  destruct (toString workId) as [ w | ] eqn:Hw.
  2: { split_and!; try done.
       split; [ by intros [? ?] | intros (_ & _ & [? ?] & _); done ]. }
  destruct (toString attachmentId) as [ a | ] eqn:Ha.
  2: { split_and!; try done.
       split; [ by intros [? ?] | intros (_ & _ & _ & [? ?]); done ]. }
  destruct fault as [ e | ]; cbn [send_put fst snd].
  { split_and!; try done.
    split; [ by intros [? ?] | intros (_ & ? & _); done ]. }
  split_and!.
  - intros H. discriminate H.
  - split; [ intros _; split_and!; by eauto | by eauto ].
  - intros r Hr. injection Hr as <-. cbn [r2Key size]. split; [ | reflexivity ].
    eexists. split; [ apply lookup_insert_eq | reflexivity ].
  - intros probeFault workId' phase' attachmentId'.
    unfold imageExistsInR2, send_head.
    fold (probe_key workId' phase' attachmentId').
    destruct probeFault; [ reflexivity | ].
    rewrite lookup_insert_ne by apply thumb_key_not_probe_key. reflexivity.
Qed.

End upload_and_probe.

(** ** The sync record *)

Section sync_record.
Import Js Num Value Metadata.

Lemma in_text_not_tomorrow (x : jstring) : js "in " ++ x ≠ js "tomorrow".
Proof.
  intros H. apply (f_equal head) in H. vm_compute in H. discriminate H.
Qed.

(** X25: [formatNextUpdateInfo] says "tomorrow" exactly when the next
    update lies at least 23.5 hours and less than 36 hours ahead.  Closer
    than 23.5 hours, and for any instant in the past, it says "in h hours"
    with [h] the hours rounded to the nearest whole number, below 24 and
    possibly zero or negative; from 36 hours on it says "in d days" with
    [d] the rounded days, at least 2. *)
Theorem next_update_info_cases (now nextUpdate : date) :
  let diff := (getTime nextUpdate - getTime now)%Z in
  (Z.abs diff < 2 ^ 52)%Z →
  (formatNextUpdateInfo now nextUpdate = js "tomorrow"
   ↔ (84600000 ≤ diff < 129600000)%Z)
  ∧ ((diff < 84600000)%Z →
     ∃ h, (h < 24)%Z
          ∧ (3600000 * h - 1800000 ≤ diff < 3600000 * h + 1800000)%Z
          ∧ formatNextUpdateInfo now nextUpdate
            = js "in " ++ number_to_string (num_of_Z h) ++ js " hours")
  ∧ ((129600000 ≤ diff)%Z →
     ∃ d, (2 ≤ d)%Z
          ∧ (86400000 * d - 43200000 ≤ diff < 86400000 * d + 43200000)%Z
          ∧ formatNextUpdateInfo now nextUpdate
            = js "in " ++ number_to_string (num_of_Z d) ++ js " days").
Proof.
  intros diff _. unfold formatNextUpdateInfo. fold diff.
  remember (round_div diff (1000 * 60 * 60)) as h eqn:Hh.
  remember (round_div diff (1000 * 60 * 60 * 24)) as d eqn:Hd.
  assert (Hhb : (3600000 * h - 1800000 ≤ diff < 3600000 * h + 1800000)%Z).
  { rewrite Hh. unfold round_div. Z.div_mod_to_equations. lia. }
  assert (Hdb : (86400000 * d - 43200000 ≤ diff < 86400000 * d + 43200000)%Z).
  { rewrite Hd. unfold round_div. Z.div_mod_to_equations. lia. }
  destruct (Z.ltb_spec h 24) as [Hlt | Hge].
  { split_and!.
    - split; [ intros H; by apply in_text_not_tomorrow in H | lia ].
    - intros _. exists h. split; [ exact Hlt | split; [ exact Hhb | reflexivity ] ].
    - lia. }
  destruct (Z.eqb_spec d 1) as [Hone | Hne].
  { split_and!.
    - split; [ lia | done ].
    - lia.
    - lia. }
  split_and!.
  - split; [ intros H; by apply in_text_not_tomorrow in H | lia ].
  - lia.
  - intros Hfar. exists d. split; [ lia | split; [ exact Hdb | reflexivity ] ].
Qed.

Lemma next_update_info_cases_witness :
  formatNextUpdateInfo (local_instant india 20761 3600000)
    (local_instant india 20762 7200000) = js "tomorrow"
  ∧ formatNextUpdateInfo (local_instant india 20761 40000000)
      (local_instant india 20762 7200000) = js "in 15 hours".
Proof.
  assert (H1 : (Z.abs (getTime (local_instant india 20762 7200000)
                       - getTime (local_instant india 20761 3600000))
                < 2 ^ 52)%Z) by (by vm_compute).
  split.
  - apply (proj1 (next_update_info_cases _ _ H1)). vm_compute. by split.
  - by vm_compute.
Defined.

Lemma daysUntilMonday_range (g : Z) :
  (0 ≤ g < 7)%Z → (1 ≤ daysUntilMonday g ≤ 7)%Z.
Proof.
  intros Hg.
  assert (Hcases : (g = 0 ∨ g = 1 ∨ g = 2 ∨ g = 3 ∨ g = 4 ∨ g = 5 ∨ g = 6)%Z) by lia.
  destruct Hcases as [-> | [-> | [-> | [-> | [-> | [-> | ->]]]]]];
    vm_compute; split; discriminate.
Qed.

(** Where the offset never changes, the next update is 02:00 local time of
    a day from 1 to 14 days after the current local day, the next day
    unless the frequency is weekly or bi-weekly. *)
Lemma calculateNextUpdate_ahead (z : zone) (offset : Z) (now : date)
    (frequency : jstring) :
  (∀ t isUTC, LocalTZA z t isUTC = offset) →
  ∃ k, (1 ≤ k ≤ 14)%Z
       ∧ (getTime (calculateNextUpdate z now frequency) + offset
          = (Day (getTime now + offset) + k) * 86400000 + 7200000)%Z
       ∧ (toLowerCase frequency ∉ [js "weekly"; js "bi-weekly"] → k = 1%Z).
Proof.
  intros Hz.
  assert (H2 : (0 ≤ 2 < 24)%Z) by lia.
  assert (Hshift : ∀ n,
            (getTime (setHours z (add_days z now n) 2) + offset
             = (Day (getTime now + offset) + n) * 86400000 + 7200000)%Z).
  { intros n. pose proof (shift_fixed z offset now n 2 Hz H2) as H.
    unfold LocalTime in H. rewrite !Hz in H. exact H. }
  unfold calculateNextUpdate.
  repeat case_bool_decide.
  - exists 1%Z. split; [ lia | ]. split; [ apply Hshift | done ].
  - exists (daysUntilMonday (getDay z now)). split; [ | split; [ apply Hshift | ] ].
    + pose proof (daysUntilMonday_range _ (getDay_range z now)). lia.
    + intros Hf. exfalso. apply Hf.
      match goal with H : toLowerCase frequency = _ |- _ => rewrite H end. by left.
  - exists 14%Z. split; [ lia | ]. split; [ apply Hshift | ].
    intros Hf. exfalso. apply Hf.
    match goal with H : toLowerCase frequency = _ |- _ => rewrite H end.
    right. by left.
  - exists 1%Z. split; [ lia | ]. split; [ apply Hshift | done ].
Qed.

(** X26: in a time zone whose offset never changes, when the update
    frequency is neither weekly nor bi-weekly, the text stored by a sync is
    "tomorrow" only if the sync read the clock at or before 02:30 local
    time of its day; a sync later in the day stores "in h hours" with [h]
    between 2 and 23, although the update is due on the next calendar
    day. *)
Theorem daily_sync_info (z : zone) (cal : calendar)
    (UPDATE_FREQUENCY : option jstring)
    (db : list metadata) (syncStats : gmap string value)
    (now nowNext nowInfo : date) :
  fixed_offset z →
  toLowerCase (update_frequency UPDATE_FREQUENCY) ∉ [js "weekly"; js "bi-weekly"] →
  Day (LocalTime z (getTime nowInfo)) = Day (LocalTime z (getTime nowNext)) →
  let info := nextUpdateInfo
                (updateDataSyncMetadata z cal UPDATE_FREQUENCY db syncStats
                   now nowNext nowInfo).1 in
  let clock := TimeWithinDay (LocalTime z (getTime nowInfo)) in
  (info = js "tomorrow" ↔ (clock ≤ 9000000)%Z)
  ∧ ((9000000 < clock)%Z →
     ∃ h, (2 ≤ h ≤ 23)%Z
          ∧ info = js "in " ++ number_to_string (num_of_Z h) ++ js " hours").
Proof.
  intros [offset Hz] Hf Hday info clock. subst info clock.
  unfold updateDataSyncMetadata. cbn [fst nextUpdateInfo].
  destruct (calculateNextUpdate_ahead z offset nowNext
              (update_frequency UPDATE_FREQUENCY) Hz) as (k & _ & Hnext & Hk).
  rewrite (Hk Hf) in Hnext. clear Hk.
  remember (calculateNextUpdate z nowNext (update_frequency UPDATE_FREQUENCY))
    as next eqn:Hn. clear Hn.
  unfold LocalTime in *. rewrite !Hz in *.
  unfold Day, TimeWithinDay, msPerDay in *.
  assert (Hdiff : (getTime next - getTime nowInfo
                   = 93600000 - (getTime nowInfo + offset) mod 86400000)%Z).
  { revert Hday Hnext. generalize (getTime next), (getTime nowInfo), (getTime nowNext).
    intros a b c Hday Hnext. Z.div_mod_to_equations. lia. }
  assert (Hr : (0 ≤ (getTime nowInfo + offset) mod 86400000 < 86400000)%Z)
    by (apply Z.mod_pos_bound; lia).
  assert (Hsmall : (Z.abs (getTime next - getTime nowInfo) < 2 ^ 52)%Z).
  { rewrite Hdiff. change (2 ^ 52)%Z with 4503599627370496%Z. lia. }
  destruct (next_update_info_cases nowInfo next Hsmall) as (Htom & Hhours & _).
  rewrite Hdiff in Htom, Hhours.
  split.
  - rewrite Htom. lia.
  - intros Hlate. destruct Hhours as (h & Hh & Hb & Heq); [ lia | ].
    exists h. split; [ lia | exact Heq ].
Qed.

Lemma daily_sync_info_witness :
  nextUpdateInfo
    (updateDataSyncMetadata india (Calendar (λ _, 10%Z) (λ _, 3%Z) (λ _, 2026%Z))
       None [] ∅ (local_instant india 20761 9000000)
       (local_instant india 20761 9000000) (local_instant india 20761 9000000)).1
  = js "tomorrow".
Proof.
  refine (proj2 (proj1 (daily_sync_info india
                          (Calendar (λ _, 10%Z) (λ _, 3%Z) (λ _, 2026%Z))
                          None [] ∅ (local_instant india 20761 9000000)
                          (local_instant india 20761 9000000)
                          (local_instant india 20761 9000000) _ _ _)) _).
  - by exists 19800000%Z.
  - vm_compute. intros H.
    repeat (apply elem_of_cons in H as [H | H]; [ discriminate H | ]).
    by apply elem_of_nil in H.
  - reflexivity.
  - by vm_compute.
Defined.

Lemma findOne_replaceOne (src : jstring) (doc : metadata) (c : list metadata) :
  source doc = src → findOne src (replaceOne src doc c) = Some doc.
Proof.
  intros Hdoc. unfold findOne.
  induction c as [ | d r IH ]; cbn [replaceOne List.find].
  - by rewrite bool_decide_eq_true_2.
  - case_bool_decide as Hd; cbn [List.find].
    + by rewrite bool_decide_eq_true_2.
    + by rewrite bool_decide_eq_false_2.
Qed.

Lemma replaceOne_count (src : jstring) (doc : metadata) (c : list metadata) :
  source doc = src →
  length (List.filter (λ d, bool_decide (source d = src)) (replaceOne src doc c))
  = Nat.max 1 (length (List.filter (λ d, bool_decide (source d = src)) c)).
Proof.
  intros Hdoc. induction c as [ | d r IH ]; cbn [replaceOne List.filter].
  - by rewrite bool_decide_eq_true_2.
  - case_bool_decide as Hd; cbn [List.filter].
    + rewrite bool_decide_eq_true_2 by done. cbn [length]. lia.
    + rewrite bool_decide_eq_false_2 by done. exact IH.
Qed.

Lemma findOne_none (src : jstring) (c : list metadata) :
  (∀ d, d ∈ c → source d ≠ src) → findOne src c = None.
Proof.
  intros Hno. unfold findOne. induction c as [ | d r IH ]; [ reflexivity | ].
  cbn [List.find]. rewrite bool_decide_eq_false_2.
  - apply IH. intros d' Hd'. apply Hno. by right.
  - apply Hno. by left.
Qed.

(** X27: after a sync the collection still holds at most one record of
    the portal, and [shouldUpdateData] answers [true] exactly from the
    scheduled next update on.  In a time zone whose offset never changes
    that is more than two hours after the sync: until then it answers
    [false].  On a collection without a record of the portal it answers
    [true]. *)
Theorem no_update_due_after_sync (z : zone) (cal : calendar)
    (UPDATE_FREQUENCY : option jstring) (db : list metadata)
    (syncStats : gmap string value) (now nowNext nowInfo : date) :
  single_source portal_source db →
  let db' := (updateDataSyncMetadata z cal UPDATE_FREQUENCY db syncStats
                now nowNext nowInfo).2 in
  let next := calculateNextUpdate z nowNext (update_frequency UPDATE_FREQUENCY) in
  single_source portal_source db'
  ∧ (∀ t t', shouldUpdateData db' t t' = bool_decide (getTime next ≤ getTime t')%Z)
  ∧ (fixed_offset z →
     ∀ t t', (getTime t' ≤ getTime nowNext + 7200000)%Z →
             shouldUpdateData db' t t' = false)
  ∧ (∀ c t t', (∀ d, d ∈ c → source d ≠ portal_source) →
               shouldUpdateData c t t' = true).
Proof.
  intros Hsingle db' next.
  assert (Hcheck : ∀ t t',
            shouldUpdateData db' t t' = bool_decide (getTime next ≤ getTime t')%Z).
  { intros t t'. subst db'. unfold shouldUpdateData, getDataSyncMetadata,
      updateDataSyncMetadata. cbn [snd].
    rewrite findOne_replaceOne by reflexivity. cbn [nextUpdate]. fold next.
    destruct (Z.leb_spec (getTime next) (getTime t')).
    - by rewrite bool_decide_eq_true_2.
    - rewrite bool_decide_eq_false_2; [ reflexivity | lia ]. }
  split_and!.
  - subst db'. unfold single_source, updateDataSyncMetadata in *. cbn [snd].
    rewrite replaceOne_count by reflexivity. lia.
  - exact Hcheck.
  - intros [offset Hz] t t' Hearly. rewrite Hcheck.
    apply bool_decide_eq_false_2. subst next.
    destruct (calculateNextUpdate_ahead z offset nowNext
                (update_frequency UPDATE_FREQUENCY) Hz) as (k & Hk & Hnext & _).
    revert Hnext Hearly. unfold Day, msPerDay.
    generalize (getTime (calculateNextUpdate z nowNext
                           (update_frequency UPDATE_FREQUENCY))),
               (getTime t'), (getTime nowNext).
    intros a b c Hnext Hearly. Z.div_mod_to_equations. lia.
  - intros c t t' Hno. unfold shouldUpdateData, getDataSyncMetadata.
    by rewrite (findOne_none _ _ Hno).
Qed.

Lemma no_update_due_after_sync_witness :
  shouldUpdateData
    (updateDataSyncMetadata india (Calendar (λ _, 10%Z) (λ _, 3%Z) (λ _, 2026%Z))
       (Some (js "weekly")) [] ∅
       (local_instant india 20761 40000000) (local_instant india 20761 40000000)
       (local_instant india 20761 40000000)).2
    (local_instant india 20761 40000001) (local_instant india 20761 40000001)
  = false.
Proof.
  refine (proj1 (proj2 (proj2 (no_update_due_after_sync india
            (Calendar (λ _, 10%Z) (λ _, 3%Z) (λ _, 2026%Z))
            (Some (js "weekly")) [] ∅
            (local_instant india 20761 40000000) (local_instant india 20761 40000000)
            (local_instant india 20761 40000000) _))) _ _ _ _).
  - unfold single_source. cbn [List.filter length]. lia.
  - by exists 19800000%Z.
  - vm_compute. discriminate.
Defined.

(** X28: what the footer shows after a sync comes from that sync, except
    for the text of the next update, which is computed anew from the stored
    instant each time the record is read.  A missing or zero record count
    is shown as 0, and a data quality that is missing, zero or otherwise
    falsy is shown as 100: the quality shown is never falsy. *)
Theorem footer_after_sync (z : zone) (cal : calendar)
    (UPDATE_FREQUENCY : option jstring) (db : list metadata)
    (stats : gmap string value) (now nowNext nowInfo : date) :
  single_source portal_source db →
  let db' := (updateDataSyncMetadata z cal UPDATE_FREQUENCY db stats
                now nowNext nowInfo).2 in
  let next := calculateNextUpdate z nowNext (update_frequency UPDATE_FREQUENCY) in
  ∀ t,
    let shown := createFooterDataResponse (getDataSyncMetadata db' t) in
    footer_source shown = portal_source
    ∧ footer_lastUpdated shown = formatDateForFooter cal now
    ∧ footer_nextUpdate shown = formatNextUpdateInfo t next
    ∧ footer_updateFrequency shown = Some (update_frequency UPDATE_FREQUENCY)
    ∧ footer_totalRecords shown
      = or_else (stat stats "totalRecords") (VNum (num_of_Z 0))
    ∧ to_boolean (footer_dataQuality shown) = true
    ∧ (to_boolean (stat stats "dataQuality") = false →
       footer_dataQuality shown = VNum (num_of_Z 100))
    ∧ (to_boolean (stat stats "dataQuality") = true →
       footer_dataQuality shown = stat stats "dataQuality").
Proof.
  intros _ db' next t shown. subst shown db'.
  unfold getDataSyncMetadata, updateDataSyncMetadata. cbn [snd].
  rewrite findOne_replaceOne by reflexivity.
  cbn [nextUpdate createFooterDataResponse footer_source footer_lastUpdated
       footer_nextUpdate footer_updateFrequency footer_totalRecords
       footer_dataQuality source lastUpdatedFormatted nextUpdateInfo syncStats
       totalRecords dataQuality updateFrequency].
  split_and!; try reflexivity.
  - unfold or_else. by destruct (to_boolean (stat stats "dataQuality")) eqn:Hq.
  - intros Hq. unfold or_else. by rewrite Hq.
  - intros Hq. unfold or_else. by rewrite Hq.
Qed.

Lemma footer_after_sync_witness :
  footer_dataQuality
    (createFooterDataResponse
       (getDataSyncMetadata
          (updateDataSyncMetadata india
             (Calendar (λ _, 10%Z) (λ _, 3%Z) (λ _, 2026%Z))
             None [] {[ "dataQuality" := VNum (num_of_Z 0) ]}
             (local_instant india 20761 40000000)
             (local_instant india 20761 40000000)
             (local_instant india 20761 40000000)).2
          (local_instant india 20761 50000000)))
  = VNum (num_of_Z 100).
Proof.
  refine (proj1 (proj2 (proj2 (proj2 (proj2 (proj2 (proj2
            (footer_after_sync india (Calendar (λ _, 10%Z) (λ _, 3%Z) (λ _, 2026%Z))
               None [] {[ "dataQuality" := VNum (num_of_Z 0) ]}
               (local_instant india 20761 40000000)
               (local_instant india 20761 40000000)
               (local_instant india 20761 40000000)
               _ (local_instant india 20761 50000000)))))))) _).
  - unfold single_source. cbn [List.filter length]. lia.
  - by vm_compute.
Defined.

End sync_record.

(** ** Configuration of the image extractor *)

Section configuration.
Import Js Num Value Config.

Lemma number_or_truthy (env : gmap string jstring) (name : string) (fallback : Z) :
  to_boolean (VNum (num_of_Z fallback)) = true →
  to_boolean (number_or env name fallback) = true
  ∧ ∃ x, number_or env name fallback = VNum x.
Proof.
  intros Hf. unfold number_or, or_else.
  destruct (to_boolean (VNum (parseInt (env_var env name)))) eqn:Hp.
  - split; [ exact Hp | by eexists ].
  - split; [ exact Hf | by eexists ].
Qed.

Lemma number_or_unset (env : gmap string jstring) (name : string) (fallback : Z) :
  env !! name = None ∨ env !! name = Some (js "") ∨ env !! name = Some (js "0") →
  number_or env name fallback = VNum (num_of_Z fallback).
Proof.
  intros H. unfold number_or, env_var.
  destruct H as [-> | [-> | ->]]; reflexivity.
Qed.

(** X29: the batch size, the rate-limit delay, the number of workers and
    the summary interval of the configuration are always numbers that are
    neither zero nor NaN: a variable that is unset, empty or "0" gives the
    default (10, 5000, 1 and 100).  Thumbnails are enabled by the exact text
    "true" only, and no required variable is reported missing exactly when
    each of the seven is set to a non-empty text. *)
Theorem processing_settings (env : gmap string jstring) :
  let p := processing_of env in
  (∀ v, v ∈ [batchSize p; rateLimitDelay p; maxConcurrentWorkers p;
             progressSummaryInterval p] →
        to_boolean v = true ∧ ∃ x, v = VNum x)
  ∧ (∀ name fallback,
       env !! name = None ∨ env !! name = Some (js "") ∨ env !! name = Some (js "0") →
       number_or env name fallback = VNum (num_of_Z fallback))
  ∧ (enableThumbnails p = true ↔ env !! "ENABLE_THUMBNAILS" = Some (js "true"))
  ∧ (missing env = [] ↔
     ∀ key, key ∈ requiredVars → ∃ s, env !! key = Some s ∧ s ≠ []).
Proof.
  intros p. subst p. unfold processing_of.
  cbn [batchSize rateLimitDelay maxConcurrentWorkers progressSummaryInterval
       enableThumbnails].
  split_and!.
  - intros v Hv.
    repeat (apply elem_of_cons in Hv as [-> | Hv];
            [ by apply number_or_truthy | ]).
    by apply elem_of_nil in Hv.
  - intros name fallback H. by apply number_or_unset.
  - unfold env_var. destruct (env !! "ENABLE_THUMBNAILS") as [ s | ].
    + split.
      * intros H%bool_decide_eq_true_1. by injection H as ->.
      * intros H. injection H as ->. by apply bool_decide_eq_true_2.
    + split; [ intros H%bool_decide_eq_true_1; discriminate H | discriminate ].
  - assert (Hset : ∀ key, negb (to_boolean (env_var env key)) = false
                          ↔ ∃ s, env !! key = Some s ∧ s ≠ []).
    { intros key. unfold env_var. destruct (env !! key) as [ [ | c r ] | ];
        cbn [to_boolean negb].
      - split; [ discriminate | by intros (s & [= <-] & Hs) ].
      - split; [ intros _; by eexists | reflexivity ].
      - split; [ discriminate | by intros (s & [= ] & _) ]. }
    unfold missing. generalize requiredVars. intros l.
    induction l as [ | k l IH ]; cbn [List.filter].
    + split; [ intros _ key Hk; by apply elem_of_nil in Hk | reflexivity ].
    + destruct (negb (to_boolean (env_var env k))) eqn:Hk.
      * split; [ discriminate | ].
        intros Hall. pose proof (proj2 (Hset k) (Hall k ltac:(by left))) as Hk'.
        congruence.
      * rewrite IH. split.
        -- intros Hall key Hkey. apply elem_of_cons in Hkey as [-> | Hkey];
             [ by apply Hset | by apply Hall ].
        -- intros Hall key Hkey. apply Hall. by right.
Qed.

End configuration.

(** ** Rounding to binary64 *)

Section binary64_rounding.
Import Js Num.

Lemma div_nearest_even_half (a b : Z) :
  (0 < b)%Z → (Z.abs (2 * (div_nearest_even a b * b - a)) ≤ b)%Z.
Proof.
  intros Hb. unfold div_nearest_even.
  pose proof (Z.div_mod a b ltac:(lia)) as Hdm.
  pose proof (Z.mod_pos_bound a b Hb) as Hr.
  destruct (Z.ltb_spec (2 * (a mod b)) b);
    [ | destruct (Z.ltb_spec b (2 * (a mod b)));
        [ | destruct (Z.even (a / b)) ] ]; nia.
Qed.

Lemma shift_fraction_pos (a b e : Z) :
  (0 < a)%Z → (0 < b)%Z →
  (0 < (shift_fraction a b e).1)%Z ∧ (0 < (shift_fraction a b e).2)%Z.
Proof.
  intros Ha Hb. unfold shift_fraction.
  destruct (Z.leb_spec 0 e); cbn [fst snd].
  - pose proof (Z.pow_pos_nonneg 2 e ltac:(lia) ltac:(lia)). split; nia.
  - pose proof (Z.pow_pos_nonneg 2 (- e) ltac:(lia) ltac:(lia)). split; nia.
Qed.

(** Lowering the exponent by [k] multiplies the fraction by [2^k]. *)
Lemma shift_fraction_add (a b e k : Z) :
  (0 ≤ k)%Z →
  ((shift_fraction a b e).1 * (shift_fraction a b (e + k)).2
   = 2 ^ k * (shift_fraction a b (e + k)).1 * (shift_fraction a b e).2)%Z.
Proof.
  intros Hk. unfold shift_fraction.
  destruct (Z.leb_spec 0 e); destruct (Z.leb_spec 0 (e + k)); cbn [fst snd];
    try lia.
  - rewrite (Z.pow_add_r 2 e k) by lia. ring.
  - replace (2 ^ k)%Z with (2 ^ (- e) * 2 ^ (e + k))%Z; [ ring | ].
    rewrite <- (Z.pow_add_r 2 (- e) (e + k)) by lia. f_equal. lia.
  - replace (2 ^ (- e))%Z with (2 ^ k * 2 ^ (- (e + k)))%Z; [ ring | ].
    rewrite <- (Z.pow_add_r 2 k (- (e + k))) by lia. f_equal. lia.
Qed.

(** The ratio [a / b] lies between [2^(t-1)] and [2^(t+1)] for [t] the
    difference of the binary logarithms. *)
Lemma log2_bracket (a b : Z) :
  (0 < a)%Z → (0 < b)%Z →
  let t := (Z.log2 a - Z.log2 b)%Z in
  ((shift_fraction a b t).1 < 2 * (shift_fraction a b t).2)%Z
  ∧ ((shift_fraction a b t).2 < 2 * (shift_fraction a b t).1)%Z.
Proof.
  intros Ha Hb t. subst t.
  pose proof (Z.log2_spec a Ha) as [Ha1 Ha2].
  pose proof (Z.log2_spec b Hb) as [Hb1 Hb2].
  pose proof (Z.log2_nonneg a) as Hla. pose proof (Z.log2_nonneg b) as Hlb.
  rewrite <- Z.add_1_r in Ha2, Hb2.
  rewrite Z.pow_add_r in Ha2, Hb2 by lia.
  change (2 ^ 1)%Z with 2%Z in *.
  unfold shift_fraction.
  destruct (Z.leb_spec 0 (Z.log2 a - Z.log2 b)); cbn [fst snd].
  - assert (Hsplit : (2 ^ Z.log2 a = 2 ^ Z.log2 b * 2 ^ (Z.log2 a - Z.log2 b))%Z).
    { rewrite <- Z.pow_add_r by lia. f_equal. lia. }
    pose proof (Z.pow_pos_nonneg 2 (Z.log2 a - Z.log2 b) ltac:(lia) ltac:(lia)).
    pose proof (Z.pow_pos_nonneg 2 (Z.log2 b) ltac:(lia) ltac:(lia)).
    split; nia.
  - assert (Hsplit : (2 ^ Z.log2 b = 2 ^ Z.log2 a * 2 ^ (- (Z.log2 a - Z.log2 b)))%Z).
    { rewrite <- Z.pow_add_r by lia. f_equal. lia. }
    pose proof (Z.pow_pos_nonneg 2 (- (Z.log2 a - Z.log2 b)) ltac:(lia) ltac:(lia)).
    pose proof (Z.pow_pos_nonneg 2 (Z.log2 a) ltac:(lia) ltac:(lia)).
    split; nia.
Qed.

(** The exponent chosen for [a / b] is that of its binade: the scaled
    fraction lies below [2^53], and from [2^52] on unless the exponent is the
    least one. *)
Lemma binade_spec (a b : Z) :
  (0 < a)%Z → (0 < b)%Z →
  let e := binade a b in
  let n := (shift_fraction a b e).1 in
  let m := (shift_fraction a b e).2 in
  (-1074 ≤ e)%Z ∧ (0 < m)%Z ∧ (0 < n)%Z
  ∧ (n < 2 ^ 53 * m)%Z ∧ ((-1074 < e)%Z → (2 ^ 52 * m ≤ n)%Z).
Proof.
  intros Ha Hb e n m.
  pose proof (shift_fraction_pos a b e Ha Hb) as [Hn Hm]. fold n m in Hn, Hm.
  assert (Hmin : (-1074 ≤ binade a b)%Z).
  { unfold binade.
    destruct (shift_fraction a b (Z.log2 a - Z.log2 b - 53 + 53)) as [n0 d0].
    apply Z.le_max_r. }
  split; [ exact Hmin | ].
  split; [ exact Hm | ]. split; [ exact Hn | ].
  set (t := (Z.log2 a - Z.log2 b)%Z).
  pose proof (log2_bracket a b Ha Hb) as [Hup Hlo]. fold t in Hup, Hlo.
  pose proof (shift_fraction_pos a b t Ha Hb) as [Hn0 Hd0].
  set (e1 := if ((shift_fraction a b t).2 <=? (shift_fraction a b t).1)%Z
             then (t - 52)%Z else (t - 53)%Z).
  assert (He : e = Z.max e1 (-1074)).
  { subst e e1. unfold binade. fold t.
    replace (t - 53 + 53)%Z with t by lia.
    destruct (shift_fraction a b t) as [n0 d0]. cbn [fst snd].
    destruct (d0 <=? n0)%Z; f_equal; lia. }
  pose proof (shift_fraction_pos a b e1 Ha Hb) as [Hn1 Hm1].
  (* the fraction at [e1] lies in [2^52, 2^53) *)
  assert (H1 : ((shift_fraction a b e1).1 < 2 ^ 53 * (shift_fraction a b e1).2
                ∧ 2 ^ 52 * (shift_fraction a b e1).2 ≤ (shift_fraction a b e1).1)%Z).
  { change (2 ^ 53)%Z with (2 * 2 ^ 52)%Z.
    subst e1. destruct (Z.leb_spec (shift_fraction a b t).2 (shift_fraction a b t).1).
    - pose proof (shift_fraction_add a b (t - 52) 52 ltac:(lia)) as Hs.
      replace (t - 52 + 52)%Z with t in Hs by lia.
      revert Hs Hn1 Hm1.
      generalize ((shift_fraction a b (t - 52)).1), ((shift_fraction a b (t - 52)).2).
      revert H Hup Hlo Hn0 Hd0.
      generalize ((shift_fraction a b t).1), ((shift_fraction a b t).2).
      generalize (2 ^ 52)%Z. intros P n0 d0 H Hup Hlo Hn0 Hd0 n1 m1 Hs Hn1 Hm1.
      split; nia.
    - pose proof (shift_fraction_add a b (t - 53) 53 ltac:(lia)) as Hs.
      replace (t - 53 + 53)%Z with t in Hs by lia.
      change (2 ^ 53)%Z with (2 * 2 ^ 52)%Z in Hs.
      revert Hs Hn1 Hm1.
      generalize ((shift_fraction a b (t - 53)).1), ((shift_fraction a b (t - 53)).2).
      revert H Hup Hlo Hn0 Hd0.
      generalize ((shift_fraction a b t).1), ((shift_fraction a b t).2).
      generalize (2 ^ 52)%Z. intros P n0 d0 H Hup Hlo Hn0 Hd0 n1 m1 Hs Hn1 Hm1.
      split; nia. }
  destruct (Z.max_spec e1 (-1074)) as [ [Hlt Hmax] | [Hge Hmax] ].
  - (* the least exponent *)
    rewrite Hmax in He. split; [ | lia ].
    pose proof (shift_fraction_add a b e1 (-1074 - e1) ltac:(lia)) as Hs.
    replace (e1 + (-1074 - e1))%Z with e in Hs by lia.
    fold n m in Hs.
    pose proof (Z.pow_pos_nonneg 2 (-1074 - e1) ltac:(lia) ltac:(lia)) as Hp.
    destruct H1 as [H1 _].
    revert Hs H1 Hn1 Hm1 Hp.
    generalize ((shift_fraction a b e1).1), ((shift_fraction a b e1).2),
               (2 ^ (-1074 - e1))%Z, (2 ^ 53)%Z.
    intros n1 m1 K P Hs H1 Hn1 Hm1 Hp.
    assert (K * n * m1 < P * m1 * m)%Z by nia.
    assert (n * m1 ≤ K * n * m1)%Z by nia.
    nia.
  - rewrite Hmax in He. subst n m. rewrite He. destruct H1 as [H1 H2].
    split; [ exact H1 | intros _; exact H2 ].
Qed.

(** [nearest64] returns a binary64 value, normal or subnormal, that lies
    within half a unit of its last place of the magnitude: a nearest one. *)
Lemma nearest64_nearest (d : dec) :
  let a := (dec_fraction d).1 in
  let b := (dec_fraction d).2 in
  (0 < a)%Z → (0 < b)%Z →
  let v := nearest64 d in
  let n := (shift_fraction a b (expo v)).1 in
  let m := (shift_fraction a b (expo v)).2 in
  (-1074 ≤ expo v)%Z
  ∧ (0 ≤ mant v < 2 ^ 53)%Z
  ∧ ((-1074 < expo v)%Z → (2 ^ 52 ≤ mant v)%Z)
  ∧ (0 < m)%Z
  ∧ (Z.abs (2 * (mant v * m - n)) ≤ m)%Z.
Proof.
  intros a b Ha Hb v n m. subst v n m. unfold nearest64.
  destruct (dec_fraction d) as [a' b'] eqn:Hf. cbn [fst snd] in a, b.
  subst a b.
  pose proof (binade_spec a' b' Ha Hb) as (He & Hm & Hn & Hup & Hlo).
  cbv zeta in He, Hm, Hn, Hup, Hlo.
  remember (binade a' b') as e eqn:Hbin. clear Hbin.
  pose proof (div_nearest_even_half (shift_fraction a' b' e).1
                (shift_fraction a' b' e).2 Hm) as Hhalf.
  destruct (shift_fraction a' b' e) as [n m] eqn:Hs. cbn [fst snd] in *.
  remember (div_nearest_even n m) as q eqn:Hq. clear Hq.
  change (2 ^ 53)%Z with (2 * 2 ^ 52)%Z in *.
  destruct (Z.eqb_spec q (2 * 2 ^ 52)) as [Hcarry | Hno]; cbn [mant expo].
  - (* the significand overflows into the next binade *)
    pose proof (shift_fraction_add a' b' e 1 ltac:(lia)) as Hadd.
    rewrite Hs in Hadd. cbn [fst snd] in Hadd.
    change (2 ^ 1)%Z with 2%Z in Hadd.
    pose proof (shift_fraction_pos a' b' (e + 1) Ha Hb) as [Hn' Hm'].
    revert Hadd Hn' Hm'.
    generalize ((shift_fraction a' b' (e + 1)).1), ((shift_fraction a' b' (e + 1)).2).
    intros n' m' Hadd Hn' Hm'.
    subst q. revert Hhalf Hup. generalize (2 ^ 52)%Z. intros P Hhalf Hup.
    assert (HP : (0 < P)%Z) by nia.
    split_and!; try lia.
    assert (Heq : (2 * m * (P * m' - n') = m' * (2 * P * m - n))%Z) by nia.
    nia.
  - rewrite Hs. cbn [fst snd].
    revert Hhalf Hup Hlo Hno. generalize (2 ^ 52)%Z.
    intros P Hhalf Hup Hlo Hno.
    assert (Hq0 : (0 ≤ q)%Z) by nia.
    assert (Hq1 : (q ≤ 2 * P)%Z) by nia.
    split_and!; try lia.
    intros Hnorm. specialize (Hlo Hnorm). nia.
Qed.

Lemma digits_value_ge (acc : N) (ds : list N) : acc ≤ digits_value acc ds.
Proof.
  revert acc. induction ds as [ | x r IH ]; intros acc; cbn [digits_value].
  - lia.
  - specialize (IH (10 * acc + x)). lia.
Qed.

(** A canonical magnitude that is not zero is a fraction of two positive
    integers, so [nearest64] is a nearest binary64 value on it. *)
Lemma dec_fraction_pos (d : dec) :
  canonical d → is_zero d = false →
  (0 < (dec_fraction d).1)%Z ∧ (0 < (dec_fraction d).2)%Z.
Proof.
  destruct d as [ [ | x r ] p ]; unfold canonical, is_zero; cbn [digs pos];
    [ discriminate | ].
  intros (_ & Hh & _) _.
  assert (Hx : x ≠ 0) by (intros ->; by apply Hh).
  assert (Hm : (0 < Z.of_N (digits_value 0 (x :: r)))%Z).
  { cbn [digits_value]. pose proof (digits_value_ge (10 * 0 + x) r). lia. }
  unfold dec_fraction. cbn [digs pos].
  destruct (Z.leb_spec 0 (p - Z.of_nat (length (x :: r)))); cbn [fst snd].
  - pose proof (Z.pow_pos_nonneg 10 (p - Z.of_nat (length (x :: r)))
                  ltac:(lia) ltac:(lia)). split; nia.
  - pose proof (Z.pow_pos_nonneg 10 (- (p - Z.of_nat (length (x :: r))))
                  ltac:(lia) ltac:(lia)). split; lia.
Qed.

End binary64_rounding.
